(** * e3sm_to_cmip: the MPAS utilities of [e3sm_to_cmip/mpas.py]

    A shallow embedding of the mesh, depth, time-axis, interpolation and
    overturning-streamfunction code of [mpas.py], and the properties of it
    that the specification states.

    Conventions of the embedding.
    - Floating-point values are exact rationals ([Q]); equalities between
      computed values are stated with [==] ([Qeq]).  A masked value (the NaN
      that [DataArray.where] writes) is [None] in an [option Q].
    - An exception is a value [Raise e] of the type [result].
    - Arrays that the code only indexes along named dimensions are index
      functions, with the dimension sizes kept apart as the dataset's
      [sizes] are; arrays that the code slices, measures or iterates are
      lists.
    - Python strings are lists of ASCII characters. *)

From Stdlib Require Import ZArith QArith List String Ascii Bool Lia.
From stdpp Require Import gmap strings.
Import ListNotations.

Set Default Proof Using "Type".

(** ** Python prelude *)

Inductive exn : Type :=
| ValueError
| IndexError
| KeyError
| TypeError
| FileNotFoundError.

Inductive result (A : Type) : Type :=
| Ok (a : A)
| Raise (e : exn).

Arguments Ok {A} a.
Arguments Raise {A} e.

Definition rbind {A B : Type} (r : result A) (k : A -> result B) : result B :=
  match r with
  | Ok a => k a
  | Raise e => Raise e
  end.

Notation "'let*' p ':=' r 'in' k" := (rbind r (fun p => k))
  (at level 10, p pattern, r at level 100, k at level 200).

(** [[f(x) for x in xs]]: the elements are evaluated left to right and the
    first exception ends the comprehension. *)
Fixpoint comprehension {A B : Type} (f : A -> result B) (xs : list A)
  : result (list B) :=
  match xs with
  | [] => Ok []
  | x :: r =>
      let* y := f x in
      let* ys := comprehension f r in
      Ok (y :: ys)
  end.

(** [numpy.zeros(n)] and friends: the array [f 0, ..., f (n-1)]. *)
Definition tabulate {A : Type} (n : nat) (f : nat -> A) : list A :=
  map f (seq 0 n).

(** [sum] of a rational array, in storage order. *)
Definition Qsum (xs : list Q) : Q := fold_left Qplus xs 0%Q.

(** ** Strings *)

Definition str : Type := list ascii.

Definition chars (s : string) : str := list_ascii_of_string s.

(** [c.isspace()] on the ASCII range: tab to carriage return, the four
    separators 0x1c-0x1f and the space. *)
Definition isspace (c : ascii) : bool :=
  let n := nat_of_ascii c in
  ((9 <=? n)%nat && (n <=? 13)%nat) || ((28 <=? n)%nat && (n <=? 32)%nat).

Definition isdigit (c : ascii) : bool :=
  let n := nat_of_ascii c in (48 <=? n)%nat && (n <=? 57)%nat.

Definition digit_value (c : ascii) : Z := Z.of_nat (nat_of_ascii c) - 48.

(** [s.replace(old, new)] for one-character [old] and [new]. *)
Definition replace (old new : ascii) (s : str) : str :=
  map (fun c => if Ascii.eqb c old then new else c) s.

Fixpoint lstrip (s : str) : str :=
  match s with
  | [] => []
  | c :: r => if isspace c then lstrip r else s
  end.

Definition rstrip (s : str) : str := rev (lstrip (rev s)).

(** [s.strip()] *)
Definition strip (s : str) : str := rstrip (lstrip s).

(** [c in s] for a one-character [c]. *)
Definition contains (c : ascii) (s : str) : bool :=
  existsb (Ascii.eqb c) s.

(** [s.split(sep)] for a one-character separator: always at least one
    piece, empty pieces kept. *)
Fixpoint split (sep : ascii) (s : str) : list str :=
  match s with
  | [] => [[]]
  | c :: r =>
      if Ascii.eqb c sep then [] :: split sep r
      else match split sep r with
           | p :: ps => (c :: p) :: ps
           | [] => [[c]]
           end
  end.

(** The digits of an integer literal; a single underscore is accepted
    between two digits. *)
Fixpoint int_digits (acc : Z) (s : str) : option Z :=
  match s with
  | [] => Some acc
  | c :: r =>
      if isdigit c then int_digits (10 * acc + digit_value c) r
      else if Ascii.eqb c "_" then
        match r with
        | d :: _ => if isdigit d then int_digits acc r else None
        | [] => None
        end
      else None
  end.

Definition int_unsigned (s : str) : option Z :=
  match s with
  | c :: _ => if isdigit c then int_digits 0 s else None
  | [] => None
  end.

(** [int(s)]: surrounding white space is dropped, one sign is accepted,
    anything else than decimal digits is a [ValueError]. *)
Definition int (s : str) : result Z :=
  let body := strip s in
  let parsed :=
    match body with
    | "+"%char :: r => int_unsigned r
    | "-"%char :: r => option_map Z.opp (int_unsigned r)
    | _ => int_unsigned body
    end in
  match parsed with
  | Some z => Ok z
  | None => Raise ValueError
  end.

(** ** Time axis: [_parse_date_string], [_string_to_datetime], [add_time] *)

(** [(year, month, day, hour, minute, second)] *)
Definition date_tuple : Type := (Z * Z * Z * Z * Z * Z)%type.

Definition _parse_date_string (dateString : str) : result date_tuple :=
  (* change underscores to spaces so both can be supported *)
  let dateString := strip (replace "_" " " dateString) in
  let* (ymd, hms) :=
    (if contains " " dateString then
       match split " " dateString with
       | [ymd; hms] => Ok (ymd, hms)
       | _ => Raise ValueError
       end
     else if contains "-" dateString then
       let ymd := dateString in
       let ymd :=
         if (length (split "-" ymd) =? 2)%nat then ymd ++ chars "-01"
         else ymd in
       Ok (ymd, chars "00:00:00")
     else Ok (chars "0001-01-01", dateString)) in
  let hms := if contains "." hms then replace "." ":" hms else hms in
  let* (year, month, day) :=
    (if contains "-" ymd then
       let* parts := comprehension int (split "-" ymd) in
       match parts with
       | [year; month; day] => Ok (year, month, day)
       | _ => Raise ValueError
       end
     else let* day := int ymd in Ok (0%Z, 1%Z, day)) in
  let* (hour, minute, second) :=
    (if contains ":" hms then
       let* parts := comprehension int (split ":" hms) in
       match parts with
       | [hour; minute; second] => Ok (hour, minute, second)
       | _ => Raise ValueError
       end
     else let* second := int hms in Ok (0%Z, 0%Z, second)) in
  Ok (year, month, day, hour, minute, second).

(** [datetime.datetime]: the constructor checks every field. *)
Record datetime : Type := mk_datetime {
  dt_year : Z; dt_month : Z; dt_day : Z;
  dt_hour : Z; dt_minute : Z; dt_second : Z
}.

Definition is_leap (y : Z) : bool :=
  ((y mod 4 =? 0) && (negb (y mod 100 =? 0) || (y mod 400 =? 0)))%Z.

Definition days_in_month (y m : Z) : Z :=
  if (m =? 2)%Z then (if is_leap y then 29 else 28)%Z
  else if ((m =? 4) || (m =? 6) || (m =? 9) || (m =? 11))%Z then 30%Z
  else 31%Z.

Definition new_datetime (year month day hour minute second : Z)
  : result datetime :=
  if ((1 <=? year) && (year <=? 9999) &&
      (1 <=? month) && (month <=? 12) &&
      (1 <=? day) && (day <=? days_in_month year month) &&
      (0 <=? hour) && (hour <=? 23) &&
      (0 <=? minute) && (minute <=? 59) &&
      (0 <=? second) && (second <=? 59))%Z
  then Ok (mk_datetime year month day hour minute second)
  else Raise ValueError.

Definition _string_to_datetime (dateString : str) : result datetime :=
  let* (year, month, day, hour, minute, second) :=
    _parse_date_string dateString in
  new_datetime year month day hour minute second.

(** The two time-stamp variables of the input dataset that [add_time]
    reads; both lie along the dataset's [Time] dimension. *)
Record time_stamps : Type := {
  nTime_stamps : nat;
  xtime_startMonthly : nat -> str;
  xtime_endMonthly : nat -> str
}.

Section TimeAxis.

(** [netCDF4.date2num(date, 'days since <referenceDate>',
    calendar='noleap')] is a library call; the development holds for any
    behaviour of it. *)
Variable date2num : str -> datetime -> result Q.

Definition _datetime_to_days (dates : list datetime) (referenceDate : str)
  : result (list Q) :=
  comprehension (date2num referenceDate) dates.

Definition _string_to_days_since_date (dateStrings : list str)
    (referenceDate : str) : result (list Q) :=
  let* dates := comprehension _string_to_datetime dateStrings in
  _datetime_to_days dates referenceDate.

(** The fix of [xtimeStart] in [add_time]. *)
Definition fix_xtimeStart (xtime : str) : str :=
  firstn 10 xtime ++ chars "_00:00:00".

(** [add_time] returns the [time] coordinate and [time_bnds]. *)
Definition add_time (dsIn : time_stamps) (referenceDate : str)
    (offsetYears : Z) : result (list Q * list (Q * Q)) :=
  let xtimeStart :=
    tabulate (nTime_stamps dsIn) (fun t => strip (xtime_startMonthly dsIn t)) in
  let xtimeEnd :=
    tabulate (nTime_stamps dsIn) (fun t => strip (xtime_endMonthly dsIn t)) in
  (* fix xtimeStart, which has an offset by a time step (or so) *)
  let xtimeStart := map fix_xtimeStart xtimeStart in
  let* daysStart := _string_to_days_since_date xtimeStart referenceDate in
  let daysStart := map (fun d => inject_Z (offsetYears * 365) + d)%Q daysStart in
  let* daysEnd := _string_to_days_since_date xtimeEnd referenceDate in
  let daysEnd := map (fun d => inject_Z (offsetYears * 365) + d)%Q daysEnd in
  let time_bnds := combine daysStart daysEnd in
  let days := map (fun b => (1 # 2) * (fst b + snd b))%Q time_bnds in
  Ok (days, time_bnds).

End TimeAxis.

(** ** The mesh dataset *)

(** Connectivity is 1-based with 0 for "no neighbour", as in the mesh file.
    [latCell] is in radians. *)
Record Mesh : Type := {
  nCells : nat;
  nEdges : nat;
  nVertices : nat;
  nVertLevels : nat;
  maxEdges : nat;
  vertexDegree : nat;
  verticesOnCell : nat -> nat -> Z;
  cellsOnVertex : nat -> nat -> Z;
  kiteAreasOnVertex : nat -> nat -> Q;
  areaCell : nat -> Q;
  dvEdge : nat -> Q;
  latCell : nat -> Q;
  maxLevelCell : nat -> Z;
  refBottomDepth : list Q
}.

(** ** Validity masks: [get_cell_masks] *)

(** [cellMask2D] has dimension [nCells]; [cellMask3D] has the dimensions
    [(nVertLevels, nCells)] that broadcasting [vertIndex < maxLevelCell]
    gives. *)
Definition get_cell_masks (dsMesh : Mesh)
  : result (list bool * list (list bool)) :=
  let cellMask2D :=
    tabulate (nCells dsMesh) (fun c => (0 <? maxLevelCell dsMesh c)%Z) in
  let nVertLevels := nVertLevels dsMesh in
  let vertIndex := tabulate nVertLevels Z.of_nat in
  let cellMask3D :=
    map (fun k => tabulate (nCells dsMesh)
                    (fun c => (k <? maxLevelCell dsMesh c)%Z)) vertIndex in
  Ok (cellMask2D, cellMask3D).

(** ** Depth coordinate: [_compute_depth] *)

(** [depth_bnds] is kept as its two columns until it is returned. *)
Definition _compute_depth (refBottomDepth : list Q)
  : result (list Q * list (Q * Q)) :=
  let n := length refBottomDepth in
  let lower := repeat 0%Q n in
  let upper := repeat 0%Q n in
  (* depth_bnds[0, 0] = 0. *)
  let* lower :=
    (if (0 <? n)%nat then Ok (<[0%nat := 0%Q]> lower) else Raise IndexError) in
  (* depth_bnds[1:, 0] = refBottomDepth[0:-1] *)
  let lower := firstn 1 lower ++ removelast refBottomDepth in
  (* depth_bnds[:, 1] = refBottomDepth *)
  let upper := refBottomDepth in
  let depth_bnds := combine lower upper in
  let depth := map (fun b => (1 # 2) * (fst b + snd b))%Q depth_bnds in
  Ok (depth, depth_bnds).

(** ** Vertex-to-cell interpolation: [interp_vertex_to_cell] *)

(** An index array is accepted by numpy when every index [i] has
    [-n <= i < n]; a negative index counts from the end. *)
Definition np_in_range (n : nat) (i : Z) : bool :=
  ((- Z.of_nat n <=? i) && (i <? Z.of_nat n))%Z.

Definition np_wrap (n : nat) (i : Z) : nat :=
  if (i <? 0)%Z then Z.to_nat (Z.of_nat n + i) else Z.to_nat i.

Definition bool_to_Q (b : bool) : Q := if b then 1%Q else 0%Q.

Section Interp.

Variable dsMesh : Mesh.

(** [verticesOnCell[:, iVertex]] after the subtraction of 1, for one cell. *)
Definition vertex_index (iCellIndex iVertex : nat) : Z :=
  (verticesOnCell dsMesh iCellIndex iVertex - 1)%Z.

(** The entry [weights[cell, iVertex]] after the loop over [iCell]. *)
Definition kite_weight (cell iVertex : nat) : Q :=
  let vertices := vertex_index cell iVertex in
  let mask1 := (0 <? vertices)%Z in
  let row := np_wrap (nVertices dsMesh) vertices in
  fold_left
    (fun w iCell =>
       let mask2 :=
         (cellsOnVertex dsMesh row iCell - 1 =? Z.of_nat cell)%Z in
       let mask := mask1 && mask2 in
       (w + bool_to_Q mask * kiteAreasOnVertex dsMesh row iCell)%Q)
    (seq 0 (vertexDegree dsMesh)) 0%Q.

(** [weights /= dsMesh.areaCell] *)
Definition weights (cell iVertex : nat) : Q :=
  (kite_weight cell iVertex / areaCell dsMesh cell)%Q.

Definition connectivity_in_range : bool :=
  forallb (fun cell =>
    forallb (fun iVertex =>
      np_in_range (nVertices dsMesh) (vertex_index cell iVertex))
      (seq 0 (maxEdges dsMesh)))
    (seq 0 (nCells dsMesh)).

(** [varOnVertices] has the dimensions [(Time, nVertices)]; the result
    has [(Time, nCells)]. *)
Definition interp_vertex_to_cell (nTime : nat)
    (varOnVertices : nat -> nat -> Q) : result (list (list Q)) :=
  if connectivity_in_range then
    Ok (tabulate nTime (fun t =>
          tabulate (nCells dsMesh) (fun cell =>
            Qsum (tabulate (maxEdges dsMesh) (fun iVertex =>
              varOnVertices t
                (np_wrap (nVertices dsMesh) (vertex_index cell iVertex))
              * weights cell iVertex)%Q))))
  else Raise IndexError.

End Interp.

(** ** Remapping through the [ncremap] subprocess: [remap] *)

(** The part of the world that [remap] changes is the set of files of the
    temporary directory.  A command runs on that set and returns a value or
    raises. *)
Definition io (A : Type) : Type := gset string -> result A * gset string.

Definition io_ret {A : Type} (a : A) : io A := fun fs => (Ok a, fs).

Definition io_raise {A : Type} (e : exn) : io A := fun fs => (Raise e, fs).

Definition io_bind {A B : Type} (c : io A) (k : A -> io B) : io B :=
  fun fs =>
    match c fs with
    | (Ok a, fs') => k a fs'
    | (Raise e, fs') => (Raise e, fs')
    end.

Notation "'do' x '<-' c ';;;' k" := (io_bind c (fun x => k))
  (at level 10, x pattern, c at level 100, k at level 200).

(** [write_netcdf(ds, fileName)] *)
Definition write_netcdf (fileName : string) : io unit :=
  fun fs => (Ok tt, {[fileName]} ∪ fs).

(** [xarray.open_dataset(fileName)] *)
Definition open_dataset (fileName : string) : io unit :=
  fun fs =>
    if decide (fileName ∈ fs) then (Ok tt, fs)
    else (Raise FileNotFoundError, fs).

(** [os.remove(fileName)] *)
Definition os_remove (fileName : string) : io unit :=
  fun fs =>
    if decide (fileName ∈ fs) then (Ok tt, fs ∖ {[fileName]})
    else (Raise FileNotFoundError, fs).

(** What the [ncremap] process did: its exit status and whether it wrote
    its output file. *)
Record ncremap_outcome : Type := {
  returncode : Z;
  wrote_output : bool
}.

Definition run_ncremap (outcome : ncremap_outcome) (outFileName : string)
  : io Z :=
  fun fs =>
    (Ok (returncode outcome),
     if wrote_output outcome then {[outFileName]} ∪ fs else fs).

(** [remap], with the two names that [_get_temp_path] draws; the contents
    of the dataset are left out.  [subprocess.CalledProcessError] is built
    with one argument instead of its two, so what the failing branch raises
    is a [TypeError]. *)
Definition remap (inFileName outFileName : string)
    (outcome : ncremap_outcome) : io unit :=
  do _ <- write_netcdf inFileName ;;;
  do returncode <- run_ncremap outcome outFileName ;;;
  if (returncode =? 0)%Z then
    do _ <- open_dataset outFileName ;;;
    (* remove the temporary files *)
    do _ <- os_remove inFileName ;;;
    os_remove outFileName
  else io_raise TypeError.

(** ** Overturning streamfunction: [_compute_moc_time_series] *)

(** A Python [dict] with string keys: the items in insertion order, as
    Python 3.7 and later keep them; an assignment to a key that is present
    replaces the value in place. *)
Definition dict (V : Type) : Type := list (string * V).

Fixpoint dict_set {V : Type} (d : dict V) (k : string) (v : V) : dict V :=
  match d with
  | [] => [(k, v)]
  | (k', v') :: r =>
      if String.eqb k k' then (k, v) :: r else (k', v') :: dict_set r k v
  end.

Fixpoint dict_get {V : Type} (d : dict V) (k : string) : option V :=
  match d with
  | [] => None
  | (k', v') :: r => if String.eqb k k' then Some v' else dict_get r k
  end.

(** [d[k]] *)
Definition dict_item {V : Type} (d : dict V) (k : string) : result V :=
  match dict_get d k with
  | Some v => Ok v
  | None => Raise KeyError
  end.

Definition dict_keys {V : Type} (d : dict V) : list string := map fst d.

Definition dict_values {V : Type} (d : dict V) : list V := map snd d.

(** [numpy.cumsum]: the running sums, the first one being the first
    element itself. *)
Fixpoint cumsum_from (acc : Q) (xs : list Q) : list Q :=
  match xs with
  | [] => []
  | x :: r => (acc + x)%Q :: cumsum_from (acc + x)%Q r
  end.

Definition cumsum (xs : list Q) : list Q :=
  match xs with
  | [] => []
  | x :: r => x :: cumsum_from x r
  end.

Definition Qlt_bool (a b : Q) : bool := negb (Qle_bool b a).

(** One region of the region-mask dataset, as
    [dsMasks.isel(nTransects=i, nRegions=i)] selects it, with its name. *)
Record RegionMask : Type := {
  regionName : string;
  transectEdgeGlobalIDs : list Z;
  transectEdgeMaskSigns : nat -> Q;
  regionCellMasks : nat -> Q
}.

(** The streamfunction of all basins, basin-major, and the coordinates
    that go with it: [regionNames] ([basinNames] here), [lat], [lat_bnds],
    [depth] and [depth_bnds]. *)
Record moc_result : Type := {
  mocs : list (nat -> nat -> nat -> option Q);
  basinNames : list string;
  coords_lat : list Q;
  coords_lat_bnds : list (Q * Q);
  coords_depth : list Q;
  coords_depth_bnds : list (Q * Q)
}.

Section MOC.

(** [numpy.rad2deg] *)
Variable rad2deg : Q -> Q.

(** [normalVelocity.sizes['Time']] *)
Variable nTime : nat.

(** [(Time, nEdges, nVertLevels)], [(Time, nCells, nVertLevelsP1)] and
    [(Time, nEdges, nVertLevels)] *)
Variables normalVelocity vertVelocityTop layerThicknessEdge
  : nat -> nat -> nat -> Q.

Variable dsMesh : Mesh.

Definition latBinSize : Q := 1.

(** [numpy.arange(-90., 90. + latBinSize, latBinSize)] has 181 values. *)
Definition lat_edge (i : nat) : Q :=
  (- (90) + inject_Z (Z.of_nat i) * latBinSize)%Q.

Definition nLat : nat := 180.

Definition lat_bnds (iLat : nat) : Q * Q := (lat_edge iLat, lat_edge (S iLat)).

Definition lat (iLat : nat) : Q :=
  ((1 # 2) * (fst (lat_bnds iLat) + snd (lat_bnds iLat)))%Q.

(** [edgeIndices[mask] - 1] *)
Definition edgeIndices (dsMask : RegionMask) : list Z :=
  map (fun g => (g - 1)%Z)
      (List.filter (fun g => (0 <? g)%Z) (transectEdgeGlobalIDs dsMask)).

(** [(v*h*dv*edgeSigns).sum(dim='maxEdgesInTransect')] *)
Definition region_transport (dsMask : RegionMask)
  : result (list (list Q)) :=
  let edgeIndices := edgeIndices dsMask in
  if forallb (fun e => (e <? Z.of_nat (nEdges dsMesh))%Z) edgeIndices then
    Ok (tabulate nTime (fun t =>
          tabulate (nVertLevels dsMesh) (fun k =>
            Qsum (map (fun e =>
              let e := Z.to_nat e in
              normalVelocity t e k * layerThicknessEdge t e k
              * dvEdge dsMesh e * transectEdgeMaskSigns dsMask e)%Q
              edgeIndices))))
  else Raise IndexError.

(** The loop over [range(1, nRegions)]. *)
Fixpoint region_loop (dsMasks : list RegionMask)
    (transport : dict (list (list Q))) (cellMasks : dict (nat -> Q))
  : result (dict (list (list Q)) * dict (nat -> Q)) :=
  match dsMasks with
  | [] => Ok (transport, cellMasks)
  | dsMask :: rest =>
      let regionName := regionName dsMask in
      let* tr := region_transport dsMask in
      region_loop rest
        (dict_set transport regionName tr)
        (dict_set cellMasks regionName (regionCellMasks dsMask))
  end.

(** The numpy array [mocSlice]: a column of zeros followed by the
    cumulative sum over [nVertLevels]. *)
Definition mocSlice_array (transport : list (list Q)) : list (list Q) :=
  map (fun row => 0%Q :: cumsum row) transport.

(** [mocSlice] as the [DataArray] of dimensions [(Time, nVertLevelsP1)]. *)
Definition mocSlice (transport : list (list Q)) (t j : nat) : Q :=
  nth j (nth t (mocSlice_array transport) []) 0%Q.

(** The mask of latitude bin [iLat], cell by cell. *)
Definition bin_mask (cellMask : nat -> Q) (iLat : nat) (cell : nat) : bool :=
  let latCell := rad2deg (latCell dsMesh cell) in
  Qeq_bool (cellMask cell) 1
  && Qle_bool (fst (lat_bnds iLat)) latCell
  && Qlt_bool latCell (snd (lat_bnds iLat)).

Definition bin_cells (cellMask : nat -> Q) (iLat : nat) : list nat :=
  List.filter (bin_mask cellMask iLat) (seq 0 (nCells dsMesh)).

(** [(vertVelocityTop[:, mask, :] * areaCell[mask]).sum(dim='nCells')] *)
Definition bin_flux (cellMask : nat -> Q) (iLat : nat) (t j : nat) : Q :=
  Qsum (map (fun cell => vertVelocityTop t cell j * areaCell dsMesh cell)%Q
            (bin_cells cellMask iLat)).

(** One turn of the loop over [iLat], on [(mocSlices, binCounts)]. *)
Definition lat_step (cellMask : nat -> Q)
    (st : list (nat -> nat -> Q) * list nat) (iLat : nat)
  : list (nat -> nat -> Q) * list nat :=
  let (mocSlices, binCounts) := st in
  let binCounts := binCounts ++ [length (bin_cells cellMask iLat)] in
  let mocTop := fun t j =>
    (nth iLat mocSlices (fun _ _ => 0%Q) t j + bin_flux cellMask iLat t j)%Q in
  (mocSlices ++ [mocTop], binCounts).

(** The body of the loop over [regionNames], for one region. *)
Definition region_moc (transport : list (list Q)) (cellMask : nat -> Q)
  : nat -> nat -> nat -> option Q :=
  let mocSlice := mocSlice transport in
  let (mocSlices, binCounts) :=
    fold_left (lat_step cellMask) (seq 0 nLat) ([mocSlice], []) in
  (* concatenated along lat and transposed to (Time, nVertLevelsP1, lat) *)
  let moc := fun t j i => nth i mocSlices (fun _ _ => 0%Q) t j in
  (* average to bin and level centers *)
  let moc := fun t k i =>
    ((1 # 4) * (moc t k i + moc t k (S i) + moc t (S k) i
                + moc t (S k) (S i)))%Q in
  (* moc.where(binCounts > 0) *)
  fun t k i => if (0 <? nth i binCounts 0)%nat then Some (moc t k i) else None.

(** The loop over [regionNames]. *)
Fixpoint moc_loop (regionNames : list string)
    (transport : dict (list (list Q))) (cellMasks : dict (nat -> Q))
    (mocs : dict (nat -> nat -> nat -> option Q))
  : result (dict (nat -> nat -> nat -> option Q)) :=
  match regionNames with
  | [] => Ok mocs
  | regionName :: rest =>
      let* tr := dict_item transport regionName in
      let* cellMask := dict_item cellMasks regionName in
      moc_loop rest transport cellMasks
        (dict_set mocs regionName (region_moc tr cellMask))
  end.

Definition global_transport : list (list Q) :=
  tabulate nTime (fun _ => tabulate (nVertLevels dsMesh) (fun _ => 0%Q)).

Definition global_cellMask : nat -> Q := fun _ => 1%Q.

(** The two dictionaries when the loop over the named regions is done. *)
Definition transport_and_cellMasks (dsMasks : list RegionMask)
  : result (dict (list (list Q)) * dict (nat -> Q)) :=
  let transport := dict_set [] "Global" global_transport in
  let cellMasks := dict_set [] "Global" global_cellMask in
  region_loop dsMasks transport cellMasks.

Definition _compute_moc_time_series (dsMasks : list RegionMask)
  : result moc_result :=
  let regionNames := "Global"%string :: map regionName dsMasks in
  let* (depth, depth_bnds) := _compute_depth (refBottomDepth dsMesh) in
  let* (transport, cellMasks) := transport_and_cellMasks dsMasks in
  let* mocs := moc_loop regionNames transport cellMasks [] in
  (* xarray.concat(mocs.values(), dim='basin') *)
  Ok {| mocs := dict_values mocs; basinNames := regionNames;
        coords_lat := tabulate nLat lat;
        coords_lat_bnds := tabulate nLat lat_bnds;
        coords_depth := depth; coords_depth_bnds := depth_bnds |}.

End MOC.

Arguments region_moc : simpl never.

(** ** Notions used in the statements *)

(** A non-empty run of decimal digits, and the number it denotes. *)
Definition digits (s : str) : Prop := s <> [] /\ forallb isdigit s = true.

Definition digits_value (s : str) : Z :=
  fold_left (fun acc c => (10 * acc + digit_value c)%Z) s 0%Z.

(** Reading a dictionary where the key is known to be present. *)
Definition get_or {V : Type} (d : dict V) (k : string) (default : V) : V :=
  match dict_get d k with
  | Some v => v
  | None => default
  end.

(** The zero-based edges of a region's transect, padding left out. *)
Definition selected_edges (dsMask : RegionMask) : list nat :=
  map (fun g => Z.to_nat (g - 1))
      (List.filter (fun g => (0 <? g)%Z) (transectEdgeGlobalIDs dsMask)).

(** ** Sample inputs *)

(** An instance of [date2num] for examples: the days since 0001-01-01 in
    the calendar without leap years; the reference date is not read. *)
Definition days_before_month (m : Z) : Z :=
  nth (Z.to_nat (m - 1)) [0; 31; 59; 90; 120; 151; 181; 212; 243; 273; 304; 334]%Z 0%Z.

Definition noleap_date2num (referenceDate : str) (d : datetime) : result Q :=
  Ok (inject_Z ((dt_year d - 1) * 365 + days_before_month (dt_month d)
                + (dt_day d - 1))
      + inject_Z (dt_hour d * 3600 + dt_minute d * 60 + dt_second d)
        / 86400)%Q.

(** Two monthly records whose start stamps carry a time of day. *)
Definition sample_stamps : time_stamps := {|
  nTime_stamps := 2;
  xtime_startMonthly := fun t =>
    match t with
    | O => chars "0001-01-01_00:30:00   "
    | _ => chars "0001-02-01_00:30:00   "
    end;
  xtime_endMonthly := fun t =>
    match t with
    | O => chars "0001-02-01_00:00:00   "
    | _ => chars "0001-03-01_00:00:00   "
    end
|}.

(** A mesh of one cell and two levels whose [maxLevelCell] is 5. *)
Definition deep_cell_mesh : Mesh := {|
  nCells := 1; nEdges := 0; nVertices := 0; nVertLevels := 2;
  maxEdges := 0; vertexDegree := 0;
  verticesOnCell := fun _ _ => 0%Z;
  cellsOnVertex := fun _ _ => 0%Z;
  kiteAreasOnVertex := fun _ _ => 0%Q;
  areaCell := fun _ => 1%Q;
  dvEdge := fun _ => 0%Q;
  latCell := fun _ => 0%Q;
  maxLevelCell := fun _ => 5%Z;
  refBottomDepth := [10; 20]%Q
|}.

(** A mesh of two cells, two edges and two levels on the equator, with its
    fields: velocity 2 and thickness 3 on every edge, edges 5 and 7 long. *)
Definition channel_mesh : Mesh := {|
  nCells := 2; nEdges := 2; nVertices := 0; nVertLevels := 2;
  maxEdges := 0; vertexDegree := 0;
  verticesOnCell := fun _ _ => 0%Z;
  cellsOnVertex := fun _ _ => 0%Z;
  kiteAreasOnVertex := fun _ _ => 0%Q;
  areaCell := fun _ => 1%Q;
  dvEdge := fun e => match e with O => 5%Q | _ => 7%Q end;
  latCell := fun _ => 0%Q;
  maxLevelCell := fun c => match c with O => 2%Z | _ => 0%Z end;
  refBottomDepth := [10; 20]%Q
|}.

Definition channel_velocity : nat -> nat -> nat -> Q := fun _ _ _ => 2%Q.

Definition channel_thickness : nat -> nat -> nat -> Q := fun _ _ _ => 3%Q.

Definition channel_vertVelocityTop : nat -> nat -> nat -> Q := fun _ _ _ => 1%Q.

(** A region whose transect is edge 1 and edge 2, with opposite signs, and
    one whose transect is padding only. *)
Definition strait : RegionMask := {|
  regionName := "Strait";
  transectEdgeGlobalIDs := [1; 2; 0; 0]%Z;
  transectEdgeMaskSigns := fun e => match e with O => 1%Q | _ => (-1)%Q end;
  regionCellMasks := fun c => match c with O => 1%Q | _ => 0%Q end
|}.

Definition padding_only : RegionMask := {|
  regionName := "Empty";
  transectEdgeGlobalIDs := [0; 0; -1]%Z;
  transectEdgeMaskSigns := fun _ => 1%Q;
  regionCellMasks := fun _ => 0%Q
|}.

(** The region [strait] under the name of the synthesized basin. *)
Definition strait_as_global : RegionMask := {|
  regionName := "Global";
  transectEdgeGlobalIDs := transectEdgeGlobalIDs strait;
  transectEdgeMaskSigns := transectEdgeMaskSigns strait;
  regionCellMasks := regionCellMasks strait
|}.

(** Latitudes that are already in degrees. *)
Definition degrees : Q -> Q := fun x => x.

(** A mesh of one square cell: four vertices, each of them a corner of this
    cell alone, each kite a quarter of the cell. *)
Definition square_mesh : Mesh := {|
  nCells := 1; nEdges := 4; nVertices := 4; nVertLevels := 1;
  maxEdges := 4; vertexDegree := 3;
  verticesOnCell := fun _ iVertex => Z.of_nat (S iVertex);
  cellsOnVertex := fun _ iCell => match iCell with O => 1%Z | _ => 0%Z end;
  kiteAreasOnVertex := fun _ iCell => match iCell with O => 1%Q | _ => 0%Q end;
  areaCell := fun _ => 4%Q;
  dvEdge := fun _ => 2%Q;
  latCell := fun _ => 0%Q;
  maxLevelCell := fun _ => 1%Z;
  refBottomDepth := [10]%Q
|}.

(** The field that is 1 on every vertex, at every time. *)
Definition ones_on_vertices : nat -> nat -> Q := fun _ _ => 1%Q.

(** An [ncremap] run that fails without writing anything. *)
Definition failed_run : ncremap_outcome :=
  {| returncode := 1; wrote_output := false |}.

(** ** Further notions and sample inputs *)

From Stdlib Require Import Lqa Qround.

(** A stamp with a third, stray token. *)
Definition stamp_with_three_tokens : str := chars "2001-03-05_00:00:00_UTC".

(** Two records, the second with an end stamp that is no date. *)
Definition stamps_with_bad_end : time_stamps := {|
  nTime_stamps := 2;
  xtime_startMonthly := xtime_startMonthly sample_stamps;
  xtime_endMonthly := fun t =>
    match t with
    | O => chars "0001-02-01_00:00:00"
    | _ => chars "0001-02-30_00:00:00"
    end
|}.

(** ** Datasets of arrays with named dimensions *)

(** A position gives an index along every named dimension; an array reads
    the indices of its own dimensions only.  A missing value (NaN) is
    [None]. *)
Definition position : Type := string -> nat.

Definition at_index (pos : position) (dim : string) (i : nat) : position :=
  fun d => if String.eqb d dim then i else pos d.

Record DataArray : Type := {
  dims : list string;
  data : position -> option Q
}.

(** A boolean array, as a mask is. *)
Record MaskArray : Type := {
  mask_dims : list string;
  mask_at : position -> bool
}.

(** [all([dim in var.dims for dim in mask.dims])] *)
Definition has_dims (mask_dims var_dims : list string) : bool :=
  forallb (fun dim => existsb (String.eqb dim) var_dims) mask_dims.

(** [var.where(mask, other)] for a mask whose dimensions the variable has. *)
Definition where_other (var : DataArray) (mask : MaskArray) (other : Q)
  : DataArray :=
  {| dims := dims var;
     data := fun pos => if mask_at mask pos then data var pos else Some other |}.

(** [var.where(mask)] *)
Definition where_nan (var : DataArray) (mask : MaskArray) : DataArray :=
  {| dims := dims var;
     data := fun pos => if mask_at mask pos then data var pos else None |}.

(** [1.0*mask] *)
Definition mask_as_float (mask : MaskArray) : DataArray :=
  {| dims := mask_dims mask;
     data := fun pos => Some (1 * bool_to_Q (mask_at mask pos))%Q |}.

(** [add_mask]: the data variables of [ds] are a map from names to
    arrays. *)
Definition add_mask (ds : gmap string DataArray) (mask : MaskArray)
  : gmap string DataArray :=
  let ds :=
    (fun var =>
       if has_dims (mask_dims mask) (dims var) then where_other var mask 0
       else var) <$> ds in
  <["cellMask"%string := mask_as_float mask]> ds.

(** The dimensions of the result of a binary operation: those of the left
    operand, then the new ones of the right operand. *)
Definition broadcast_dims (a b : list string) : list string :=
  a ++ List.filter (fun d => negb (existsb (String.eqb d) a)) b.

(** [numpy.logical_and(mask, siconc > threshold)]; a comparison with NaN
    is false. *)
Definition si_mask (mask : MaskArray) (siconc : DataArray) (threshold : Q)
  : MaskArray :=
  {| mask_dims := broadcast_dims (mask_dims mask) (dims siconc);
     mask_at := fun pos =>
       mask_at mask pos &&
       match data siconc pos with
       | Some v => Qlt_bool threshold v
       | None => false
       end |}.

Definition add_si_mask (ds : gmap string DataArray) (mask : MaskArray)
    (siconc : DataArray) (threshold : Q) : gmap string DataArray :=
  let mask := si_mask mask siconc threshold in
  let ds :=
    (fun var =>
       if has_dims (mask_dims mask) (dims var) then where_other var mask 0
       else var) <$> ds in
  <["cellMask"%string := mask_as_float mask]> ds.

(** The product of two floating-point values, NaN absorbing. *)
Definition nan_mul (a b : option Q) : option Q :=
  match a, b with
  | Some x, Some y => Some (x * y)%Q
  | _, _ => None
  end.

(** The last step of [remap], on the dataset that [ncremap] wrote: when it
    has a [cellMask], the points above the threshold are divided by it and
    the others are set to the missing value. *)
Definition mask_and_normalize (ds : gmap string DataArray) (threshold : Q)
  : gmap string DataArray :=
  match ds !! "cellMask"%string with
  | Some cellMask =>
      let mask :=
        {| mask_dims := dims cellMask;
           mask_at := fun pos =>
             match data cellMask pos with
             | Some v => Qlt_bool threshold v
             | None => false
             end |} in
      let norm :=
        {| dims := dims cellMask;
           data := fun pos =>
             option_map (fun v => 1 / v)%Q (data (where_nan cellMask mask) pos) |} in
      let ds := delete "cellMask"%string ds in
      (fun var =>
         (* make sure all of the mask dimensions are in the variable *)
         if has_dims (mask_dims mask) (dims var) then
           {| dims := dims var;
              data := fun pos =>
                nan_mul (data (where_nan var mask) pos) (data norm pos) |}
         else var) <$> ds
  | None => ds
  end.

(** [DataArray.sum] skips the missing values. *)
Definition sum_skipna (xs : list (option Q)) : Q :=
  Qsum (map (fun x => match x with Some v => v | None => 0%Q end) xs).

(** What a sum that skips the missing values adds for one value. *)
Definition or_zero (x : option Q) : Q :=
  match x with Some v => v | None => 0%Q end.

(** The body of the loop of [get_sea_floor_values], for one variable. *)
Definition sea_floor_variable (dsMesh : Mesh) (var : DataArray) : DataArray :=
  let cellMask2D := fun pos : position =>
    (0 <? maxLevelCell dsMesh (pos "nCells"%string))%Z in
  let nVertLevels := nVertLevels dsMesh in
  (* zero-based indexing in python *)
  let maxLevelCell := fun pos : position =>
    (maxLevelCell dsMesh (pos "nCells"%string) - 1)%Z in
  let vertIndex := fun pos : position => Z.of_nat (pos "nVertLevels"%string) in
  if negb (existsb (String.eqb "nVertLevels") (dims var))
     || negb (existsb (String.eqb "nCells") (dims var))
  then var
  else
    (* mask only the values with the right vertical index *)
    let masked := fun pos =>
      if (maxLevelCell pos =? vertIndex pos)%Z then data var pos else None in
    {| dims := List.filter (fun d => negb (String.eqb d "nVertLevels")) (dims var);
       data := fun pos =>
         if cellMask2D pos
         then Some (sum_skipna
                      (tabulate nVertLevels
                         (fun k => masked (at_index pos "nVertLevels" k))))
         else None |}.

Definition get_sea_floor_values (ds : gmap string DataArray) (dsMesh : Mesh)
  : gmap string DataArray :=
  sea_floor_variable dsMesh <$> ds.

(** A dataset of one temperature-like variable on [(Time, nCells)], one
    scalar on [(Time)], and a mask that keeps cell 0 only. *)
Definition surface_field : DataArray := {|
  dims := ["Time"; "nCells"]%string;
  data := fun pos => Some (inject_Z (Z.of_nat (pos "nCells"%string)) + 7)%Q
|}.

Definition global_mean : DataArray := {|
  dims := ["Time"]%string;
  data := fun _ => Some 3%Q
|}.

Definition sample_dataset : gmap string DataArray :=
  {[ "tos"%string := surface_field; "tosga"%string := global_mean ]}.

Definition first_cell_only : MaskArray := {|
  mask_dims := ["nCells"]%string;
  mask_at := fun pos => Nat.eqb (pos "nCells"%string) 0
|}.

Definition origin : position := fun _ => 0%nat.

(** Sea ice at 1% in cell 0 and missing elsewhere. *)
Definition thin_ice : DataArray := {|
  dims := ["Time"; "nCells"]%string;
  data := fun pos =>
    if Nat.eqb (pos "nCells"%string) 0 then Some (1 # 100)%Q else None
|}.

(** What a conservative regridder returns for a field of 8 where half of
    the target cell is covered: the value 4 and the coverage 1/2. *)
Definition half_covered : gmap string DataArray :=
  {[ "tos"%string :=
       {| dims := ["time"; "lat"; "lon"]%string; data := fun _ => Some 4%Q |};
     "cellMask"%string :=
       {| dims := ["lat"; "lon"]%string; data := fun _ => Some (1 # 2)%Q |} ]}.

(** A field on [(Time, nCells, nVertLevels)] whose value is 10 times the
    level plus the cell. *)
Definition layered_field : DataArray := {|
  dims := ["Time"; "nCells"; "nVertLevels"]%string;
  data := fun pos =>
    Some (inject_Z (10 * Z.of_nat (pos "nVertLevels"%string)
                    + Z.of_nat (pos "nCells"%string)))
|}.

(** The square cell with a fifth vertex id that the mesh does not have. *)
Definition broken_square_mesh : Mesh := {|
  nCells := 1; nEdges := 4; nVertices := 4; nVertLevels := 1;
  maxEdges := 4; vertexDegree := 3;
  verticesOnCell := fun _ iVertex => Z.of_nat (iVertex + 2);
  cellsOnVertex := cellsOnVertex square_mesh;
  kiteAreasOnVertex := kiteAreasOnVertex square_mesh;
  areaCell := areaCell square_mesh;
  dvEdge := dvEdge square_mesh;
  latCell := latCell square_mesh;
  maxLevelCell := maxLevelCell square_mesh;
  refBottomDepth := refBottomDepth square_mesh
|}.

(** Two fields on the vertices that differ on the first vertex only. *)
Definition ramp_on_vertices : nat -> nat -> Q :=
  fun _ v => inject_Z (Z.of_nat v).

Definition ramp_with_spike : nat -> nat -> Q :=
  fun _ v => match v with O => 1000%Q | _ => inject_Z (Z.of_nat v) end.

(** The state [(mocSlices, binCounts)] of [_compute_moc_time_series] when
    the loop over the latitude bins is done. *)
Definition lat_loop (rad2deg : Q -> Q) (vertVelocityTop : nat -> nat -> nat -> Q)
    (dsMesh : Mesh) (transport : list (list Q)) (cellMask : nat -> Q)
  : list (nat -> nat -> Q) * list nat :=
  fold_left (lat_step rad2deg vertVelocityTop dsMesh cellMask) (seq 0 nLat)
    ([mocSlice transport], []).

(** A region with an edge id that the mesh does not have. *)
Definition strait_off_mesh : RegionMask := {|
  regionName := "Off";
  transectEdgeGlobalIDs := [1; 3]%Z;
  transectEdgeMaskSigns := transectEdgeMaskSigns strait;
  regionCellMasks := regionCellMasks strait
|}.

(** A mesh like [channel_mesh] whose second cell is at the north pole. *)
Definition polar_mesh : Mesh := {|
  nCells := 2; nEdges := 2; nVertices := 0; nVertLevels := 2;
  maxEdges := 0; vertexDegree := 0;
  verticesOnCell := verticesOnCell channel_mesh;
  cellsOnVertex := cellsOnVertex channel_mesh;
  kiteAreasOnVertex := kiteAreasOnVertex channel_mesh;
  areaCell := areaCell channel_mesh;
  dvEdge := dvEdge channel_mesh;
  latCell := fun c => match c with O => (-(61 # 2))%Q | _ => 90%Q end;
  maxLevelCell := maxLevelCell channel_mesh;
  refBottomDepth := refBottomDepth channel_mesh
|}.

(** An [ncremap] run that reports success. *)
Definition clean_run : ncremap_outcome :=
  {| returncode := 0; wrote_output := true |}.

(** An [ncremap] run that exits with status 0 and writes nothing. *)
Definition silent_run : ncremap_outcome :=
  {| returncode := 0; wrote_output := false |}.

(** ** Writing through CMOR: [write_cmor] *)

(** A floating-point value of the array that is written. *)
Inductive fval : Type :=
| Finite (q : Q)
| NaN
| PosInf
| NegInf.

Definition isnan (v : fval) : bool :=
  match v with NaN => true | _ => false end.

Definition isfinite (v : fval) : bool :=
  match v with Finite _ => true | _ => false end.

Definition fillValue : Q := inject_Z (10 ^ 20)%Z.

(** The replacement of the missing values before the write. *)
Definition fill_missing (values : list fval) : list fval :=
  if existsb isnan values then
    let mask := map isfinite values in
    map (fun vm : fval * bool => if snd vm then fst vm else Finite fillValue)
        (combine values mask)
  else values.

(** The calls that reach the CMOR library and the logger, in order. *)
Inductive cmor_call : Type :=
| cmor_axis (axis : string)
| cmor_variable (varname varunits : string) (axis_ids : list Z)
    (missing_value : Q)
| cmor_write (varid : Z) (values : list fval)
| cmor_close (varid : Z)
| logging_exception.

(** What the library answers to each call. *)
Record cmor_library : Type := {
  axis_result : string -> result Z;
  variable_result : result Z;
  write_result : result unit;
  close_result : result unit
}.

(** The loop over [axes]; an axis is named by its table entry. *)
Fixpoint cmor_axes (lib : cmor_library) (axes : list string)
    (log : list cmor_call) : result (list Z) * list cmor_call :=
  match axes with
  | [] => (Ok [], log)
  | axis :: rest =>
      let log := log ++ [cmor_axis axis] in
      match axis_result lib axis with
      | Ok axis_id =>
          match cmor_axes lib rest log with
          | (Ok axis_ids, log) => (Ok (axis_id :: axis_ids), log)
          | (Raise e, log) => (Raise e, log)
          end
      | Raise e => (Raise e, log)
      end
  end.

(** [write_cmor] on the values of [ds[varname]], with the log of the calls
    made so far. *)
Definition write_cmor (lib : cmor_library) (axes : list string)
    (values : list fval) (varname varunits : string) (log : list cmor_call)
  : result unit * list cmor_call :=
  match cmor_axes lib axes log with
  | (Raise e, log) => (Raise e, log)
  | (Ok axis_ids, log) =>
      let values := fill_missing values in
      (* create the cmor variable *)
      let log := log ++ [cmor_variable varname varunits axis_ids fillValue] in
      match variable_result lib with
      | Raise e => (Raise e, log)
      | Ok varid =>
          (* write out the data *)
          let log := log ++ [cmor_write varid values] in
          match write_result lib with
          | Ok _ =>
              let log := log ++ [cmor_close varid] in
              (close_result lib, log)
          | Raise error =>
              let log := log ++ [logging_exception] in
              let log := log ++ [cmor_close varid] in
              match close_result lib with
              | Ok _ => (Raise error, log)
              | Raise e => (Raise e, log)
              end
          end
      end
  end.

(** A library in which everything works but the write. *)
Definition failing_write : cmor_library := {|
  axis_result := fun _ => Ok 0%Z;
  variable_result := Ok 7%Z;
  write_result := Raise ValueError;
  close_result := Ok tt
|}.

(** ** Keeping the listed variables: [open_mfdataset] *)

(** A dataset as [open_mfdataset] sees it: the data variables and the
    names of the coordinates. *)
Record Dataset : Type := {
  data_vars : gmap string DataArray;
  coords : gset string
}.

(** [ds.drop(names)] *)
Definition drop (ds : Dataset) (names : gset string) : Dataset :=
  {| data_vars := filter (fun kv => kv.1 ∉ names) (data_vars ds);
     coords := coords ds ∖ names |}.

Section OpenMfdataset.

(** [set(ds[avar].coords.keys())]: the coordinates that go with a
    variable. *)
Variable var_coords : string -> gset string.

(** [open_mfdataset], from the dataset that [xarray.open_mfdataset]
    returned. *)
Definition open_mfdataset (ds : Dataset) (variableList : option (list string))
  : Dataset :=
  match variableList with
  | Some variableList =>
      let allvars := dom (data_vars ds) in
      (* get set of variables to drop (all ds variables not in vlist) *)
      let dropvars := allvars ∖ list_to_set variableList in
      (* drop spurious variables *)
      let ds := drop ds dropvars in
      (* must also drop all coordinates that are not associated with the
         variables *)
      let coords_kept : gset string :=
        ⋃ (map var_coords (elements (dom (data_vars ds)))) in
      let dropcoords := coords ds ∖ coords_kept in
      (* drop spurious coordinates *)
      drop ds dropcoords
  | None => ds
  end.

End OpenMfdataset.

(** A dataset of two variables and three coordinates, one of them of no
    use to the first variable. *)
Definition ocean_dataset : Dataset := {|
  data_vars := {[ "temperature"%string := layered_field;
                  "ssh"%string := surface_field ]};
  coords := {[ "Time"%string; "refBottomDepth"%string; "lonCell"%string ]}
|}.

Definition ocean_coords (name : string) : gset string :=
  if String.eqb name "temperature"
  then {[ "Time"%string; "refBottomDepth"%string ]}
  else {[ "Time"%string; "lonCell"%string ]}.

(** ** Thickness on the edges: [compute_moc_streamfunction] *)

(** [layerThicknessEdge], from the 1-based [cellsOnEdge] of the mesh
    (dimensions [(nEdges, TWO)]) and the layer thickness on the cells. *)
Definition layerThicknessEdge_of (nCells : nat) (cellsOnEdge : nat -> nat -> Z)
    (layerThickness : nat -> nat -> nat -> Q) : nat -> nat -> nat -> Q :=
  let cellsOnEdge := fun e i => (cellsOnEdge e i - 1)%Z in
  fun t e k =>
    ((1 # 2) * (layerThickness t (np_wrap nCells (cellsOnEdge e 0%nat)) k
                + layerThickness t (np_wrap nCells (cellsOnEdge e 1%nat)) k))%Q.

(** The cells and edges of [channel_mesh] without a level. *)
Definition surface_only_mesh : Mesh := {|
  nCells := 2; nEdges := 2; nVertices := 0; nVertLevels := 0;
  maxEdges := 0; vertexDegree := 0;
  verticesOnCell := fun _ _ => 0%Z;
  cellsOnVertex := fun _ _ => 0%Z;
  kiteAreasOnVertex := fun _ _ => 0%Q;
  areaCell := fun _ => 1%Q;
  dvEdge := fun e => match e with O => 5%Q | _ => 7%Q end;
  latCell := fun _ => 0%Q;
  maxLevelCell := fun _ => 0%Z;
  refBottomDepth := []
|}.

(** An edge between cells 1 and 2 and an edge of cell 1 on the boundary,
    on a mesh of three cells whose thickness is 10, 20 and 40. *)
Definition two_edges (e i : nat) : Z :=
  match e, i with
  | O, O => 1%Z
  | O, _ => 2%Z
  | _, O => 1%Z
  | _, _ => 0%Z
  end.

Definition three_thicknesses : nat -> nat -> nat -> Q :=
  fun _ c _ => match c with O => 10%Q | S O => 20%Q | _ => 40%Q end.

(** ** Depth of the layer interfaces: the handler of [zhalfo] *)

(** The difference of two floating-point values, NaN absorbing. *)
Definition nan_sub (a b : option Q) : option Q :=
  match a, b with
  | Some x, Some y => Some (x - y)%Q
  | _, _ => None
  end.

Section Zhalfo.

Variable dsMesh : Mesh.

(** [dsMesh.bottomDepth], on [nCells]. *)
Variable bottomDepth : nat -> Q.

(** [timeMonthly_avg_layerThickness], on [(Time, nCells, nVertLevels)]. *)
Variable timeMonthly_avg_layerThickness : nat -> nat -> nat -> Q.

(** [cellMask3D.isel(nVertLevels=zIndex)] *)
Definition isel_level (cellMask3D : list (list bool)) (zIndex : nat)
  : result (nat -> bool) :=
  match nth_error cellMask3D zIndex with
  | Some row => Ok (fun cell => nth cell row false)
  | None => Raise IndexError
  end.

(** One turn of the loop over [zIndex], on
    [(slices, maskSlices, zLayerBot)]. *)
Definition zhalfo_step (cellMask3D : list (list bool))
    (layerThickness : nat -> nat -> nat -> option Q)
    (st : list (nat -> nat -> option Q) * list (nat -> bool)
          * (nat -> nat -> option Q)) (zIndex : nat)
  : list (nat -> nat -> option Q) * list (nat -> bool)
    * (nat -> nat -> option Q) :=
  let '(slices, maskSlices, zLayerBot) := st in
  let mask := fun cell => nth cell (nth zIndex cellMask3D []) false in
  let zLayerBot := fun t cell =>
    if mask cell
    then nan_sub (zLayerBot t cell) (layerThickness t cell zIndex)
    else None in
  (slices ++ [zLayerBot], maskSlices ++ [mask], zLayerBot).

(** [zLayerBot] after [n] turns of the loop that starts from [zSurface]. *)
Fixpoint zLayerBot_after (cellMask3D : list (list bool))
    (layerThickness : nat -> nat -> nat -> option Q)
    (zSurface : nat -> nat -> option Q) (n : nat) : nat -> nat -> option Q :=
  match n with
  | O => zSurface
  | S zIndex => fun t cell =>
      if nth cell (nth zIndex cellMask3D []) false
      then nan_sub (zLayerBot_after cellMask3D layerThickness zSurface zIndex
                      t cell)
                   (layerThickness t cell zIndex)
      else None
  end.

(** The dataset of the handler when [add_mask] has been applied, before
    the time axis is added and the dataset is regridded. *)
Definition zhalfo_dataset : result (gmap string DataArray) :=
  let* (_, cellMask3D) := get_cell_masks dsMesh in
  let nVertLevels := nVertLevels dsMesh in
  let layerThickness := fun t cell k =>
    if nth cell (nth k cellMask3D []) false
    then Some (timeMonthly_avg_layerThickness t cell k) else None in
  let thicknessSum := fun t cell =>
    sum_skipna (tabulate nVertLevels (layerThickness t cell)) in
  let* mask := isel_level cellMask3D 0 in
  let zSurface := fun t cell =>
    if mask cell then Some (- bottomDepth cell + thicknessSum t cell)%Q
    else None in
  let '(slices, maskSlices, _) :=
    fold_left (zhalfo_step cellMask3D layerThickness) (seq 0 nVertLevels)
      ([zSurface], [mask], zSurface) in
  let zhalfo :=
    {| dims := ["olevhalf"; "Time"; "nCells"]%string;
       data := fun pos =>
         nth (pos "olevhalf"%string) slices (fun _ _ => None)
           (pos "Time"%string) (pos "nCells"%string) |} in
  let mask :=
    {| mask_dims := ["olevhalf"; "nCells"]%string;
       mask_at := fun pos =>
         nth (pos "olevhalf"%string) maskSlices (fun _ => false)
           (pos "nCells"%string) |} in
  Ok (add_mask {[ "zhalfo"%string := zhalfo ]} mask).

End Zhalfo.

(** Every bottom of [channel_mesh] is 6 deep. *)
Definition channel_bottomDepth : nat -> Q := fun _ => 6%Q.

(** * Properties *)

(** ** Strings *)

Lemma isdigit_class (c : ascii) :
  isdigit c = true ->
  isspace c = false /\
  (forall sep, In sep (chars "_ -.:+") ->
     Ascii.eqb c sep = false /\ Ascii.eqb sep c = false).
Proof.
  destruct c as [[] [] [] [] [] [] [] []]; vm_compute; try discriminate;
    intros _; (split; [reflexivity |]);
    intros sep Hsep; repeat (destruct Hsep as [<- | Hsep]; [split; reflexivity |]);
    destruct Hsep.
Qed.

Lemma isdigit_not_space c : isdigit c = true -> isspace c = false.
Proof. intros H. apply (isdigit_class c H). Qed.

Lemma isdigit_neq c sep :
  In sep (chars "_ -.:+") -> isdigit c = true -> Ascii.eqb c sep = false.
Proof. intros Hs H. apply (proj2 (isdigit_class c H) sep Hs). Qed.

Lemma isdigit_neq' c sep :
  In sep (chars "_ -.:+") -> isdigit c = true -> Ascii.eqb sep c = false.
Proof. intros Hs H. apply (proj2 (isdigit_class c H) sep Hs). Qed.

Lemma replace_app old new a b :
  replace old new (a ++ b) = replace old new a ++ replace old new b.
Proof. apply map_app. Qed.

Lemma replace_absent old new s :
  contains old s = false -> replace old new s = s.
Proof.
  unfold contains, replace. induction s as [| c r IH]; simpl; [reflexivity |].
  intros H. apply orb_false_iff in H as [Hc Hr].
  rewrite Ascii.eqb_sym, Hc, IH by assumption. reflexivity.
Qed.

Lemma contains_app c a b : contains c (a ++ b) = contains c a || contains c b.
Proof. apply existsb_app. Qed.

Lemma contains_digits sep s :
  In sep (chars "_ -.:+") -> forallb isdigit s = true -> contains sep s = false.
Proof.
  intros Hs. unfold contains. induction s as [| c r IH]; simpl; [reflexivity |].
  intros H. apply andb_true_iff in H as [Hc Hr].
  rewrite (isdigit_neq' c sep Hs Hc), IH by assumption. reflexivity.
Qed.

Lemma split_nonempty sep s : split sep s <> [].
Proof.
  destruct s as [| c r]; simpl; [discriminate |].
  destruct (Ascii.eqb c sep); [discriminate |].
  destruct (split sep r); discriminate.
Qed.

Lemma split_absent sep s : contains sep s = false -> split sep s = [s].
Proof.
  unfold contains. induction s as [| c r IH]; simpl; [reflexivity |].
  intros H. apply orb_false_iff in H as [Hc Hr].
  rewrite Ascii.eqb_sym, Hc, IH by assumption. reflexivity.
Qed.

Lemma split_app sep a b :
  split sep (a ++ sep :: b) = split sep a ++ split sep b.
Proof.
  induction a as [| c r IH]; simpl.
  - rewrite Ascii.eqb_refl. reflexivity.
  - destruct (Ascii.eqb c sep); [now rewrite IH |].
    rewrite IH. destruct (split sep r) eqn:E; [| reflexivity].
    now apply split_nonempty in E.
Qed.

Lemma lstrip_head c r : isspace c = false -> lstrip (c :: r) = c :: r.
Proof. intros H. simpl. now rewrite H. Qed.

Lemma rstrip_last s c : isspace c = false -> rstrip (s ++ [c]) = s ++ [c].
Proof.
  intros H. unfold rstrip. rewrite rev_app_distr. simpl. rewrite H.
  simpl. now rewrite rev_involutive.
Qed.

Lemma strip_tight c s d :
  isspace c = false -> isspace d = false ->
  strip (c :: s ++ [d]) = c :: s ++ [d].
Proof.
  intros Hc Hd. unfold strip. rewrite lstrip_head by assumption.
  change (c :: s ++ [d]) with ((c :: s) ++ [d]). now apply rstrip_last.
Qed.

Lemma strip_digits s : forallb isdigit s = true -> strip s = s.
Proof.
  intros H. destruct s as [| c r]; [reflexivity |].
  simpl in H. apply andb_true_iff in H as [Hc Hr].
  destruct (exists_last (l := c :: r)) as [pre [d E]]; [discriminate |].
  assert (Hd : isdigit d = true).
  { assert (Hall : forallb isdigit (c :: r) = true)
      by (simpl; now rewrite Hc, Hr).
    rewrite E, forallb_app in Hall. simpl in Hall.
    apply andb_true_iff in Hall as [_ Hall].
    now apply andb_true_iff in Hall as [Hall _]. }
  rewrite E. unfold strip.
  assert (Hl : lstrip (pre ++ [d]) = pre ++ [d]).
  { rewrite <- E. apply lstrip_head. now apply isdigit_not_space. }
  rewrite Hl. apply rstrip_last. now apply isdigit_not_space.
Qed.

Lemma int_digits_value acc s :
  forallb isdigit s = true ->
  int_digits acc s =
  Some (fold_left (fun a c => (10 * a + digit_value c)%Z) s acc).
Proof.
  revert acc. induction s as [| c r IH]; intros acc H; simpl; [reflexivity |].
  simpl in H. apply andb_true_iff in H as [Hc Hr].
  rewrite Hc. now apply IH.
Qed.

Lemma int_of_digits s : digits s -> int s = Ok (digits_value s).
Proof.
  intros [Hne Hall]. unfold int. rewrite (strip_digits s Hall).
  destruct s as [| c r]; [congruence |].
  pose proof Hall as Hall'. simpl in Hall'.
  apply andb_true_iff in Hall' as [Hc _].
  assert (Hu : int_unsigned (c :: r) = Some (digits_value (c :: r))).
  { unfold int_unsigned. rewrite Hc. now apply int_digits_value. }
  assert (Hp : Ascii.eqb c "+" = false)
    by (apply isdigit_neq; [vm_compute; tauto | assumption]).
  assert (Hm : Ascii.eqb c "-" = false)
    by (apply isdigit_neq; [vm_compute; tauto | assumption]).
  destruct (Ascii.eqb_spec c "+"); [discriminate |].
  destruct (Ascii.eqb_spec c "-"); [discriminate |].
  assert (Hbody :
    match c :: r with
    | "+"%char :: r0 => int_unsigned r0
    | "-"%char :: r0 => option_map Z.opp (int_unsigned r0)
    | _ => int_unsigned (c :: r)
    end = int_unsigned (c :: r)).
  { destruct c as [[] [] [] [] [] [] [] []]; try reflexivity; congruence. }
  rewrite Hbody, Hu. reflexivity.
Qed.

(** ** Time-stamp parsing *)

Ltac sep_in := vm_compute; tauto.

Lemma parse_date_known :
  comprehension int (split "-" (chars "0001-01-01")) = Ok [1; 1; 1]%Z.
Proof. vm_compute. reflexivity. Qed.

Lemma parse_midnight_known :
  comprehension int (split ":" (chars "00:00:00")) = Ok [0; 0; 0]%Z.
Proof. vm_compute. reflexivity. Qed.

(** A bare integer is a count of seconds on the date 0001-01-01. *)
Lemma parse_bare_integer (s : str) :
  digits s ->
  _parse_date_string s = Ok (1, 1, 1, 0, 0, digits_value s)%Z.
Proof.
  intros Hd. pose proof Hd as [Hne Hall]. unfold _parse_date_string.
  rewrite (replace_absent "_" " " s) by (apply contains_digits; [sep_in | assumption]).
  rewrite (strip_digits s Hall).
  rewrite (contains_digits " " s) by (sep_in || assumption).
  rewrite (contains_digits "-" s) by (sep_in || assumption).
  cbn [rbind].
  rewrite (contains_digits "." s) by (sep_in || assumption).
  change (contains "-" (chars "0001-01-01")) with true. cbv iota.
  rewrite parse_date_known. cbn [rbind].
  rewrite (contains_digits ":" s) by (sep_in || assumption).
  rewrite (int_of_digits s Hd). reflexivity.
Qed.

Lemma contains_cons c x r : contains c (x :: r) = Ascii.eqb c x || contains c r.
Proof. reflexivity. Qed.

Lemma replace_cons old new x r :
  replace old new (x :: r) =
  (if Ascii.eqb x old then new else x) :: replace old new r.
Proof. reflexivity. Qed.

Lemma replace_digits old new s :
  In old (chars "_ -.:+") -> forallb isdigit s = true -> replace old new s = s.
Proof. intros Ho Hs. apply replace_absent. now apply contains_digits. Qed.

Lemma strip_framed a mid b :
  digits a -> digits b -> strip (a ++ mid ++ b) = a ++ mid ++ b.
Proof.
  intros [Ha Hla] [Hb Hlb].
  destruct a as [| c a']; [congruence |].
  destruct (exists_last Hb) as [b' [d ->]].
  simpl in Hla. apply andb_true_iff in Hla as [Hc _].
  rewrite forallb_app in Hlb. apply andb_true_iff in Hlb as [_ Hd].
  simpl in Hd. apply andb_true_iff in Hd as [Hd _].
  replace ((c :: a') ++ mid ++ b' ++ [d]) with (c :: (a' ++ mid ++ b') ++ [d])
    by (simpl; now rewrite <- !app_assoc).
  apply strip_tight; now apply isdigit_not_space.
Qed.

Lemma split_two sep a b :
  contains sep a = false -> contains sep b = false ->
  split sep (a ++ sep :: b) = [a; b].
Proof.
  intros Ha Hb. now rewrite split_app, (split_absent sep a), (split_absent sep b).
Qed.

Lemma split_three sep a b c :
  contains sep a = false -> contains sep b = false -> contains sep c = false ->
  split sep (a ++ sep :: b ++ sep :: c) = [a; b; c].
Proof.
  intros Ha Hb Hc.
  now rewrite split_app, (split_absent sep a), (split_two sep b c).
Qed.

Lemma int_three a b c :
  digits a -> digits b -> digits c ->
  comprehension int [a; b; c] =
  Ok [digits_value a; digits_value b; digits_value c].
Proof.
  intros Ha Hb Hc. simpl.
  now rewrite (int_of_digits a Ha), (int_of_digits b Hb), (int_of_digits c Hc).
Qed.

(** Rewrites [contains sep s] for a string [s] assembled from runs of
    digits and literal separators. *)
Ltac contains_tac :=
  repeat (rewrite contains_app || rewrite contains_cons);
  repeat match goal with
         | H : digits ?s |- context [contains ?sep ?s] =>
             rewrite (contains_digits sep s) by (sep_in || apply H)
         end;
  try reflexivity.

Ltac replace_tac :=
  repeat (rewrite replace_app || rewrite replace_cons);
  repeat match goal with
         | H : digits ?s |- context [replace ?old ?new ?s] =>
             rewrite (replace_digits old new s) by (sep_in || apply H)
         end.

(** Equalities between two bracketings of one concatenation. *)
Ltac app_norm :=
  repeat (rewrite <- app_assoc || rewrite <- app_comm_cons);
  simpl; reflexivity.

(** The date part [Y-M-D] of a time stamp. *)
Lemma ymd_fields y m d :
  digits y -> digits m -> digits d ->
  contains "-" (y ++ "-"%char :: m ++ "-"%char :: d) = true /\
  comprehension int (split "-" (y ++ "-"%char :: m ++ "-"%char :: d)) =
  Ok [digits_value y; digits_value m; digits_value d].
Proof.
  intros Hy Hm Hd. split.
  - rewrite contains_app, contains_cons. simpl. now rewrite orb_true_r.
  - rewrite split_three by (apply contains_digits; [sep_in | apply Hy || apply Hm || apply Hd]).
    now apply int_three.
Qed.

(** The time part [h:m:s] of a time stamp. *)
Lemma hms_fields h mi s :
  digits h -> digits mi -> digits s ->
  contains "." (h ++ ":"%char :: mi ++ ":"%char :: s) = false /\
  contains ":" (h ++ ":"%char :: mi ++ ":"%char :: s) = true /\
  comprehension int (split ":" (h ++ ":"%char :: mi ++ ":"%char :: s)) =
  Ok [digits_value h; digits_value mi; digits_value s].
Proof.
  intros Hh Hm Hs. split; [| split].
  - contains_tac.
  - rewrite contains_app, contains_cons. simpl. now rewrite orb_true_r.
  - rewrite split_three by (apply contains_digits; [sep_in | apply Hh || apply Hm || apply Hs]).
    now apply int_three.
Qed.

(** [Y-M-D_h:m:s] *)
Lemma parse_date_time y m d h mi s :
  digits y -> digits m -> digits d -> digits h -> digits mi -> digits s ->
  _parse_date_string
    (y ++ "-"%char :: m ++ "-"%char :: d ++ "_"%char
       :: h ++ ":"%char :: mi ++ ":"%char :: s) =
  Ok (digits_value y, digits_value m, digits_value d,
      digits_value h, digits_value mi, digits_value s).
Proof.
  intros Hy Hm Hd Hh Hmi Hs. unfold _parse_date_string.
  replace_tac. simpl (if Ascii.eqb _ _ then _ else _).
  assert (E : y ++ "-"%char :: m ++ "-"%char :: d ++ " "%char
                :: h ++ ":"%char :: mi ++ ":"%char :: s
              = (y ++ "-"%char :: m ++ "-"%char :: d) ++ " "%char
                :: (h ++ ":"%char :: mi ++ ":"%char :: s)).
  { app_norm. }
  assert (Hstrip :
    strip (y ++ "-"%char :: m ++ "-"%char :: d ++ " "%char
             :: h ++ ":"%char :: mi ++ ":"%char :: s)
    = y ++ "-"%char :: m ++ "-"%char :: d ++ " "%char
        :: h ++ ":"%char :: mi ++ ":"%char :: s).
  { replace (y ++ "-"%char :: m ++ "-"%char :: d ++ " "%char
               :: h ++ ":"%char :: mi ++ ":"%char :: s)
      with (y ++ ("-"%char :: m ++ "-"%char :: d ++ " "%char
                    :: h ++ ":"%char :: mi ++ [":"%char]) ++ s).
    - now apply strip_framed.
    - app_norm. }
  rewrite Hstrip, E.
  set (ymd := y ++ "-"%char :: m ++ "-"%char :: d).
  set (hms := h ++ ":"%char :: mi ++ ":"%char :: s).
  assert (Hy' : contains " " ymd = false) by (unfold ymd; contains_tac).
  assert (Hh' : contains " " hms = false) by (unfold hms; contains_tac).
  rewrite contains_app, contains_cons. simpl (Ascii.eqb _ _).
  rewrite orb_true_l, orb_true_r.
  rewrite (split_two " " ymd hms Hy' Hh'). cbn [rbind].
  destruct (ymd_fields y m d Hy Hm Hd) as [Y1 Y2]. fold ymd in Y1, Y2.
  destruct (hms_fields h mi s Hh Hmi Hs) as [T1 [T2 T3]]. fold hms in T1, T2, T3.
  rewrite T1, Y1, Y2. cbn [rbind]. rewrite T2, T3. reflexivity.
Qed.

Lemma digits_01 : digits (chars "01").
Proof. split; [discriminate | reflexivity]. Qed.

(** [Y-M-D] *)
Lemma parse_date_only y m d :
  digits y -> digits m -> digits d ->
  _parse_date_string (y ++ "-"%char :: m ++ "-"%char :: d) =
  Ok (digits_value y, digits_value m, digits_value d, 0, 0, 0)%Z.
Proof.
  intros Hy Hm Hd. unfold _parse_date_string.
  replace_tac. simpl (if Ascii.eqb _ _ then _ else _).
  assert (Hstrip : strip (y ++ "-"%char :: m ++ "-"%char :: d)
                   = y ++ "-"%char :: m ++ "-"%char :: d).
  { replace (y ++ "-"%char :: m ++ "-"%char :: d)
      with (y ++ ("-"%char :: m ++ ["-"%char]) ++ d) by app_norm.
    now apply strip_framed. }
  rewrite Hstrip.
  set (ymd := y ++ "-"%char :: m ++ "-"%char :: d).
  assert (Hsp : contains " " ymd = false) by (unfold ymd; contains_tac).
  destruct (ymd_fields y m d Hy Hm Hd) as [Y1 Y2]. fold ymd in Y1, Y2.
  assert (Hlen : length (split "-" ymd) = 3%nat).
  { unfold ymd.
    now rewrite split_three
      by (apply contains_digits; [sep_in | apply Hy || apply Hm || apply Hd]). }
  rewrite Hsp, Y1, Hlen. cbn [Nat.eqb rbind].
  change (contains "." (chars "00:00:00")) with false. cbv iota.
  rewrite Y1, Y2. cbn [rbind].
  change (contains ":" (chars "00:00:00")) with true. cbv iota.
  rewrite parse_midnight_known. reflexivity.
Qed.

(** [Y-M]: the day is taken to be 1. *)
Lemma parse_year_month y m :
  digits y -> digits m ->
  _parse_date_string (y ++ "-"%char :: m) =
  Ok (digits_value y, digits_value m, 1, 0, 0, 0)%Z.
Proof.
  intros Hy Hm. unfold _parse_date_string.
  replace_tac. simpl (if Ascii.eqb _ _ then _ else _).
  assert (Hstrip : strip (y ++ "-"%char :: m) = y ++ "-"%char :: m).
  { replace (y ++ "-"%char :: m) with (y ++ ["-"%char] ++ m) by app_norm.
    now apply strip_framed. }
  rewrite Hstrip.
  assert (Hsp : contains " " (y ++ "-"%char :: m) = false) by contains_tac.
  assert (Hda : contains "-" (y ++ "-"%char :: m) = true).
  { rewrite contains_app, contains_cons. simpl. now rewrite orb_true_r. }
  assert (Hlen : length (split "-" (y ++ "-"%char :: m)) = 2%nat).
  { now rewrite split_two
      by (apply contains_digits; [sep_in | apply Hy || apply Hm]). }
  rewrite Hsp, Hda, Hlen. cbn [Nat.eqb rbind].
  change (contains "." (chars "00:00:00")) with false. cbv iota.
  assert (E : (y ++ "-"%char :: m) ++ chars "-01"
              = y ++ "-"%char :: m ++ "-"%char :: chars "01") by app_norm.
  rewrite E.
  destruct (ymd_fields y m (chars "01") Hy Hm digits_01) as [Y1 Y2].
  rewrite Y1, Y2. cbn [rbind].
  change (contains ":" (chars "00:00:00")) with true. cbv iota.
  rewrite parse_midnight_known. reflexivity.
Qed.

(** [D_h:m:s], a date token without a dash before a time token: a count of
    days with year 0 and month 1. *)
Lemma parse_day_count dd h mi s :
  digits dd -> digits h -> digits mi -> digits s ->
  _parse_date_string (dd ++ "_"%char :: h ++ ":"%char :: mi ++ ":"%char :: s) =
  Ok (0, 1, digits_value dd,
      digits_value h, digits_value mi, digits_value s)%Z.
Proof.
  intros Hdd Hh Hmi Hs. unfold _parse_date_string.
  replace_tac. simpl (if Ascii.eqb _ _ then _ else _).
  assert (Hstrip :
    strip (dd ++ " "%char :: h ++ ":"%char :: mi ++ ":"%char :: s)
    = dd ++ " "%char :: h ++ ":"%char :: mi ++ ":"%char :: s).
  { replace (dd ++ " "%char :: h ++ ":"%char :: mi ++ ":"%char :: s)
      with (dd ++ (" "%char :: h ++ ":"%char :: mi ++ [":"%char]) ++ s)
      by app_norm.
    now apply strip_framed. }
  rewrite Hstrip.
  set (hms := h ++ ":"%char :: mi ++ ":"%char :: s).
  assert (Hd' : contains " " dd = false) by contains_tac.
  assert (Hh' : contains " " hms = false) by (unfold hms; contains_tac).
  rewrite contains_app, contains_cons. simpl (Ascii.eqb _ _).
  rewrite orb_true_l, orb_true_r.
  rewrite (split_two " " dd hms Hd' Hh'). cbn [rbind].
  destruct (hms_fields h mi s Hh Hmi Hs) as [T1 [T2 T3]]. fold hms in T1, T2, T3.
  rewrite T1. rewrite (contains_digits "-" dd) by (sep_in || apply Hdd).
  rewrite (int_of_digits dd Hdd). cbn [rbind]. rewrite T2, T3. reflexivity.
Qed.

(** C6, as the specification words it, fails: a bare integer is not read as
    a count of days with year 0 and month 1.  The token ["15"] goes to the
    time of day and the date is 0001-01-01. *)
Lemma parse_bare_integer_not_day_count :
  _parse_date_string (chars "15") = Ok (1, 1, 1, 0, 0, 15)%Z /\
  ~ (exists day hour minute second,
       _parse_date_string (chars "15") = Ok (0, 1, day, hour, minute, second)%Z).
Proof.
  split; [vm_compute; reflexivity |].
  intros (day & hour & minute & second & H). vm_compute in H. discriminate H.
Qed.

(** C6 (amended): [_parse_date_string] reads [Y-M-D_h:m:s], [Y-M] (day 1),
    [Y-M-D] and bare integers; ["2001-03-05_00:00:00"] gives
    (2001,3,5,0,0,0) and ["1990-01"] gives (1990,1,1,0,0,0).  A token with
    neither a dash nor a space is a count of seconds on the date 0001-01-01
    (year 1, month 1, day 1); the count of days with year 0 and month 1 is
    the reading of a dash-free date token that a time token follows. *)
Theorem parse_date_string_formats (y m d h mi s n : str) :
  digits y -> digits m -> digits d ->
  digits h -> digits mi -> digits s -> digits n ->
  _parse_date_string
    (y ++ "-"%char :: m ++ "-"%char :: d ++ "_"%char
       :: h ++ ":"%char :: mi ++ ":"%char :: s) =
    Ok (digits_value y, digits_value m, digits_value d,
        digits_value h, digits_value mi, digits_value s) /\
  _parse_date_string (y ++ "-"%char :: m) =
    Ok (digits_value y, digits_value m, 1, 0, 0, 0)%Z /\
  _parse_date_string (y ++ "-"%char :: m ++ "-"%char :: d) =
    Ok (digits_value y, digits_value m, digits_value d, 0, 0, 0)%Z /\
  _parse_date_string n = Ok (1, 1, 1, 0, 0, digits_value n)%Z /\
  _parse_date_string (n ++ "_"%char :: h ++ ":"%char :: mi ++ ":"%char :: s) =
    Ok (0, 1, digits_value n,
        digits_value h, digits_value mi, digits_value s)%Z /\
  _parse_date_string (chars "2001-03-05_00:00:00") = Ok (2001, 3, 5, 0, 0, 0)%Z /\
  _parse_date_string (chars "1990-01") = Ok (1990, 1, 1, 0, 0, 0)%Z.
Proof.
  intros Hy Hm Hd Hh Hmi Hs Hn.
  split; [now apply parse_date_time |].
  split; [now apply parse_year_month |].
  split; [now apply parse_date_only |].
  split; [now apply parse_bare_integer |].
  split; [now apply parse_day_count |].
  split; vm_compute; reflexivity.
Qed.

Lemma parse_date_string_formats_witness :
  _parse_date_string (chars "1850-12-31_23:59:58") =
    Ok (1850, 12, 31, 23, 59, 58)%Z /\
  _parse_date_string (chars "1850-12") = Ok (1850, 12, 1, 0, 0, 0)%Z /\
  _parse_date_string (chars "1850-12-31") = Ok (1850, 12, 31, 0, 0, 0)%Z /\
  _parse_date_string (chars "42") = Ok (1, 1, 1, 0, 0, 42)%Z /\
  _parse_date_string (chars "42_23:59:58") = Ok (0, 1, 42, 23, 59, 58)%Z.
Proof.
  assert (D : forall t : string,
             chars t <> [] -> forallb isdigit (chars t) = true -> digits (chars t))
    by (intros t H1 H2; split; assumption).
  destruct (parse_date_string_formats
              (chars "1850") (chars "12") (chars "31")
              (chars "23") (chars "59") (chars "58") (chars "42"))
    as (H1 & H2 & H3 & H4 & H5 & _);
    try (apply D; [discriminate | reflexivity]).
  repeat split; assumption.
Defined.

(** ** The time axis *)

Lemma lstrip_app a b :
  lstrip (a ++ b) = match lstrip a with [] => lstrip b | _ => lstrip a ++ b end.
Proof.
  induction a as [| c r IH]; simpl.
  - reflexivity.
  - destruct (isspace c); [exact IH | reflexivity].
Qed.

Lemma rstrip_cons c r :
  rstrip (c :: r) =
  match rstrip r with
  | [] => if isspace c then [] else [c]
  | _ => c :: rstrip r
  end.
Proof.
  unfold rstrip. simpl. rewrite lstrip_app.
  destruct (lstrip (rev r)) as [| x l] eqn:E.
  - simpl. now destruct (isspace c).
  - rewrite rev_app_distr. simpl.
    destruct (rev l ++ [x]) eqn:E'; [| reflexivity].
    now apply app_eq_nil in E' as [_ E'].
Qed.

Lemma strip_commute s : lstrip (rstrip s) = rstrip (lstrip s).
Proof.
  induction s as [| c r IH]; [reflexivity |].
  rewrite rstrip_cons. simpl. destruct (isspace c) eqn:Hc.
  - destruct (rstrip r) eqn:E.
    + rewrite <- IH. reflexivity.
    + rewrite <- IH. simpl. now rewrite Hc.
  - rewrite rstrip_cons.
    destruct (rstrip r) eqn:E; simpl; now rewrite Hc.
Qed.

Section StripMap.

(** A character map that leaves white space alone, as
    [replace('_', ' ')] does. *)
Variable f : ascii -> ascii.
Hypothesis f_space : forall c, isspace c = true -> f c = c.

Lemma lstrip_map_lstrip s : lstrip (map f (lstrip s)) = lstrip (map f s).
Proof using f_space.
  induction s as [| c r IH]; [reflexivity |].
  simpl. destruct (isspace c) eqn:Hc; [| reflexivity].
  rewrite IH. simpl. now rewrite (f_space c Hc), Hc.
Qed.

Lemma rstrip_map_rstrip s : rstrip (map f (rstrip s)) = rstrip (map f s).
Proof using f_space.
  unfold rstrip. rewrite <- !map_rev, rev_involutive.
  now rewrite lstrip_map_lstrip.
Qed.

Lemma strip_map_strip s : strip (map f (strip s)) = strip (map f s).
Proof using f_space.
  unfold strip.
  rewrite <- (strip_commute (map f (rstrip (lstrip s)))).
  rewrite rstrip_map_rstrip, strip_commute.
  now rewrite lstrip_map_lstrip.
Qed.

End StripMap.

Lemma replace_underscore_space c :
  isspace c = true -> (if Ascii.eqb c "_" then " "%char else c) = c.
Proof.
  destruct (Ascii.eqb_spec c "_") as [-> | _]; [discriminate | reflexivity].
Qed.

(** Stripping a time stamp before it is parsed changes nothing. *)
Lemma parse_date_string_strip s :
  _parse_date_string (strip s) = _parse_date_string s.
Proof.
  unfold _parse_date_string, replace.
  now rewrite (strip_map_strip _ replace_underscore_space).
Qed.

(** Whatever precedes it, a time stamp that ends in [_00:00:00] is parsed
    to midnight, when it is parsed at all. *)
Lemma parse_midnight x r :
  _parse_date_string (x ++ chars "_00:00:00") = Ok r ->
  exists y m d, r = (y, m, d, 0, 0, 0)%Z.
Proof.
  unfold _parse_date_string. rewrite replace_app.
  change (replace "_" " " (chars "_00:00:00")) with (chars " 00:00:00").
  set (x' := replace "_" " " x). unfold strip. rewrite lstrip_app.
  destruct (lstrip x') as [| c l] eqn:El.
  - change (rstrip (lstrip (chars " 00:00:00"))) with (chars "00:00:00").
    vm_compute. intros [= <-]. now exists 1%Z, 1%Z, 1%Z.
  - assert (Er : rstrip ((c :: l) ++ chars " 00:00:00")
                 = (c :: l) ++ " "%char :: chars "00:00:00").
    { change (chars " 00:00:00") with (chars " 00:00:0" ++ ["0"%char]).
      rewrite app_assoc, rstrip_last by reflexivity.
      now rewrite <- app_assoc. }
    assert (Hsp : contains " " ((c :: l) ++ " "%char :: chars "00:00:00") = true).
    { rewrite contains_app. apply orb_true_iff. now right. }
    rewrite Er, Hsp, split_app.
    change (split " " (chars "00:00:00")) with [chars "00:00:00"].
    destruct (split " " (c :: l)) as [| ymd [| q ps]]; cbn [app rbind].
    + intros H; discriminate H.
    + change (contains "." (chars "00:00:00")) with false. cbv iota.
      change (contains ":" (chars "00:00:00")) with true. cbv iota.
      rewrite parse_midnight_known.
      destruct (if contains "-" ymd
                then let* parts := comprehension int (split "-" ymd) in
                     match parts with
                     | [year; month; day] => Ok (year, month, day)
                     | _ => Raise ValueError
                     end
                else let* day := int ymd in Ok (0%Z, 1%Z, day))
        as [[[y m] d] | e]; cbn [rbind]; [| intros H; discriminate H].
      intros [= <-]. now exists y, m, d.
    + destruct ps; cbn [app rbind]; intros H; discriminate H.
Qed.

Lemma comprehension_nth {A B : Type} (f : A -> result B) xs ys :
  comprehension f xs = Ok ys ->
  length ys = length xs /\
  forall i x, nth_error xs i = Some x ->
    exists y, f x = Ok y /\ nth_error ys i = Some y.
Proof.
  revert ys. induction xs as [| x r IH]; intros ys H; simpl in H.
  - injection H as <-. split; [reflexivity |]. intros [| i] x0 H0; discriminate.
  - destruct (f x) as [y |] eqn:Ef; cbn [rbind] in H; [| discriminate].
    destruct (comprehension f r) as [ys' |] eqn:Er; cbn [rbind] in H;
      [| discriminate].
    injection H as <-. destruct (IH ys' eq_refl) as [Hl Hn].
    split; [simpl; now rewrite Hl |].
    intros [| i] x0 H0; simpl in *.
    + injection H0 as <-. now exists y.
    + now apply Hn.
Qed.

Lemma nth_error_tabulate {A : Type} (f : nat -> A) n i :
  (i < n)%nat -> nth_error (tabulate n f) i = Some (f i).
Proof.
  intros H. unfold tabulate.
  rewrite nth_error_map, nth_error_seq.
  destruct (Nat.ltb_spec i n); [reflexivity | lia].
Qed.

Lemma length_tabulate {A : Type} (f : nat -> A) n : length (tabulate n f) = n.
Proof. unfold tabulate. now rewrite length_map, length_seq. Qed.

Lemma nth_error_combine_Some {A B : Type} (l1 : list A) (l2 : list B) i a b :
  nth_error l1 i = Some a -> nth_error l2 i = Some b ->
  nth_error (combine l1 l2) i = Some (a, b).
Proof.
  revert l2 i. induction l1 as [| x r IH]; intros [| y l2] [| i] H1 H2;
    simpl in *; try discriminate.
  - now injection H1 as <-; injection H2 as <-.
  - now apply IH.
Qed.

Lemma days_since_date_nth date2num strs ref ds :
  _string_to_days_since_date date2num strs ref = Ok ds ->
  forall i s, nth_error strs i = Some s ->
    exists dt d, _string_to_datetime s = Ok dt /\ date2num ref dt = Ok d /\
                 nth_error ds i = Some d.
Proof.
  unfold _string_to_days_since_date, _datetime_to_days. intros H i s Hs.
  destruct (comprehension _string_to_datetime strs) as [dates |] eqn:E1;
    cbn [rbind] in H; [| discriminate].
  destruct (comprehension_nth _ _ _ E1) as [_ H1].
  destruct (comprehension_nth _ _ _ H) as [_ H2].
  destruct (H1 i s Hs) as (dt & Hdt & Hi).
  destruct (H2 i dt Hi) as (d & Hd & Hi').
  now exists dt, d.
Qed.

(** What [add_time] computes depends on a start stamp through its first ten
    characters only. *)
Lemma add_time_start_truncated date2num dsIn dsIn' ref off :
  nTime_stamps dsIn' = nTime_stamps dsIn ->
  (forall t, (t < nTime_stamps dsIn)%nat ->
     firstn 10 (strip (xtime_startMonthly dsIn' t)) =
     firstn 10 (strip (xtime_startMonthly dsIn t))) ->
  (forall t, (t < nTime_stamps dsIn)%nat ->
     xtime_endMonthly dsIn' t = xtime_endMonthly dsIn t) ->
  add_time date2num dsIn' ref off = add_time date2num dsIn ref off.
Proof.
  intros Hn Hs He. unfold add_time, tabulate. rewrite Hn, !map_map.
  assert (E1 : map (fun x => fix_xtimeStart (strip (xtime_startMonthly dsIn' x)))
                 (seq 0 (nTime_stamps dsIn))
             = map (fun x => fix_xtimeStart (strip (xtime_startMonthly dsIn x)))
                 (seq 0 (nTime_stamps dsIn))).
  { apply map_ext_in. intros t Ht. apply in_seq in Ht.
    unfold fix_xtimeStart. now rewrite Hs by lia. }
  assert (E2 : map (fun t => strip (xtime_endMonthly dsIn' t))
                 (seq 0 (nTime_stamps dsIn))
             = map (fun t => strip (xtime_endMonthly dsIn t))
                 (seq 0 (nTime_stamps dsIn))).
  { apply map_ext_in. intros t Ht. apply in_seq in Ht. now rewrite He by lia. }
  now rewrite E1, E2.
Qed.

(** C10: [add_time] keeps the first ten characters of every start stamp and
    puts 00:00:00 after them before the conversion to days, so the lower
    time bound is the conversion of a date at midnight and nothing after
    the tenth character of a start stamp has any effect; the end stamp is
    converted as it is. *)
Theorem add_time_start_at_midnight
    (date2num : str -> datetime -> result Q) (dsIn : time_stamps)
    (referenceDate : str) (offsetYears : Z)
    (days : list Q) (time_bnds : list (Q * Q)) (i : nat) :
  add_time date2num dsIn referenceDate offsetYears = Ok (days, time_bnds) ->
  (i < nTime_stamps dsIn)%nat ->
  (exists y m d dateStart dateEnd daysStart daysEnd,
     _parse_date_string
       (firstn 10 (strip (xtime_startMonthly dsIn i)) ++ chars "_00:00:00")
       = Ok (y, m, d, 0, 0, 0)%Z /\
     new_datetime y m d 0 0 0 = Ok dateStart /\
     date2num referenceDate dateStart = Ok daysStart /\
     _string_to_datetime (xtime_endMonthly dsIn i) = Ok dateEnd /\
     date2num referenceDate dateEnd = Ok daysEnd /\
     nth_error time_bnds i =
       Some (inject_Z (offsetYears * 365) + daysStart,
             inject_Z (offsetYears * 365) + daysEnd)%Q /\
     nth_error days i =
       Some ((1 # 2) * ((inject_Z (offsetYears * 365) + daysStart)
                        + (inject_Z (offsetYears * 365) + daysEnd)))%Q) /\
  (forall dsIn',
     nTime_stamps dsIn' = nTime_stamps dsIn ->
     (forall t, (t < nTime_stamps dsIn)%nat ->
        firstn 10 (strip (xtime_startMonthly dsIn' t)) =
        firstn 10 (strip (xtime_startMonthly dsIn t))) ->
     (forall t, (t < nTime_stamps dsIn)%nat ->
        xtime_endMonthly dsIn' t = xtime_endMonthly dsIn t) ->
     add_time date2num dsIn' referenceDate offsetYears = Ok (days, time_bnds)).
Proof.
  intros H Hi. split.
  2:{ intros dsIn' Hn Hs He. rewrite <- H. now apply add_time_start_truncated. }
  unfold add_time in H.
  set (starts := map fix_xtimeStart
                   (tabulate (nTime_stamps dsIn)
                      (fun t => strip (xtime_startMonthly dsIn t)))) in H.
  set (ends := tabulate (nTime_stamps dsIn)
                 (fun t => strip (xtime_endMonthly dsIn t))) in H.
  destruct (_string_to_days_since_date date2num starts referenceDate)
    as [ds |] eqn:Es; cbn [rbind] in H; [| discriminate].
  destruct (_string_to_days_since_date date2num ends referenceDate)
    as [de |] eqn:Ee; cbn [rbind] in H; [| discriminate].
  injection H as Hdays Hbnds.
  assert (Hsi : nth_error starts i
                = Some (fix_xtimeStart (strip (xtime_startMonthly dsIn i)))).
  { unfold starts. now rewrite nth_error_map, nth_error_tabulate. }
  assert (Hei : nth_error ends i = Some (strip (xtime_endMonthly dsIn i))).
  { unfold ends. now rewrite nth_error_tabulate. }
  destruct (days_since_date_nth _ _ _ _ Es i _ Hsi) as (dtS & dS & HdtS & HdS & HnS).
  destruct (days_since_date_nth _ _ _ _ Ee i _ Hei) as (dtE & dE & HdtE & HdE & HnE).
  unfold _string_to_datetime in HdtS.
  destruct (_parse_date_string
              (fix_xtimeStart (strip (xtime_startMonthly dsIn i))))
    as [r |] eqn:Ep; cbn [rbind] in HdtS; [| discriminate].
  destruct (parse_midnight _ _ Ep) as (y & m & d & ->).
  unfold _string_to_datetime in HdtE. rewrite parse_date_string_strip in HdtE.
  assert (Hb : nth_error time_bnds i =
               Some (inject_Z (offsetYears * 365) + dS,
                     inject_Z (offsetYears * 365) + dE)%Q).
  { rewrite <- Hbnds. apply nth_error_combine_Some;
      rewrite nth_error_map; [now rewrite HnS | now rewrite HnE]. }
  exists y, m, d, dtS, dtE, dS, dE. repeat split; try assumption.
  rewrite <- Hdays, nth_error_map.
  rewrite (nth_error_combine_Some _ _ i
             (inject_Z (offsetYears * 365) + dS)%Q
             (inject_Z (offsetYears * 365) + dE)%Q);
    [reflexivity | rewrite nth_error_map; now rewrite HnS
                 | rewrite nth_error_map; now rewrite HnE].
Qed.

Lemma add_time_start_at_midnight_witness :
  exists days time_bnds,
    add_time noleap_date2num sample_stamps (chars "0001-01-01") 0
      = Ok (days, time_bnds) /\
    (1 < nTime_stamps sample_stamps)%nat /\
    (exists y m d,
       _parse_date_string
         (firstn 10 (strip (xtime_startMonthly sample_stamps 1))
            ++ chars "_00:00:00") = Ok (y, m, d, 0, 0, 0)%Z) /\
    (exists lower upper,
       nth_error time_bnds 1 = Some (lower, upper) /\
       lower == 31 /\ upper == 59)%Q.
Proof.
  eexists. eexists.
  let v := eval vm_compute in
    (match add_time noleap_date2num sample_stamps (chars "0001-01-01") 0 with
     | Ok r => r
     | Raise _ => ([], [])
     end) in
  assert (H : add_time noleap_date2num sample_stamps (chars "0001-01-01") 0
              = Ok v) by (vm_compute; reflexivity).
  split; [exact H |].
  assert (Hlt : (1 < nTime_stamps sample_stamps)%nat) by (simpl; lia).
  split; [exact Hlt |].
  destruct (add_time_start_at_midnight _ _ _ _ _ _ 1%nat H Hlt)
    as [(y & m & d & dS & dE & nS & nE & Hp & _ & _ & _ & _ & Hb & _) _].
  split; [now exists y, m, d |].
  eexists. eexists. split; [vm_compute; reflexivity |].
  split; reflexivity.
Defined.

(** ** The depth coordinate *)

(** C5, as the specification words it, fails on the array of length 0: the
    assignment to [depth_bnds[0, 0]] raises. *)
Lemma compute_depth_empty :
  _compute_depth [] = Raise IndexError /\
  ~ (exists depth depth_bnds, _compute_depth [] = Ok (depth, depth_bnds)).
Proof.
  split; [reflexivity |]. intros (depth & depth_bnds & H). discriminate H.
Qed.

Lemma nth_removelast {A : Type} (l : list A) (k : nat) (d : A) :
  (S k < length l)%nat -> nth k (removelast l) d = nth k l d.
Proof.
  revert k. induction l as [| x r IH]; intros k H; simpl in *; [lia |].
  destruct r as [| y r']; [simpl in H; lia |].
  destruct k as [| k]; [reflexivity |]. apply IH. simpl in *. lia.
Qed.

Lemma length_removelast_cons {A : Type} (x : A) (l : list A) :
  length (removelast (x :: l)) = length l.
Proof.
  rewrite removelast_firstn_len, length_firstn. simpl. lia.
Qed.

(** C5 (amended): for every non-empty [refBottomDepth] of length [n],
    [_compute_depth] returns [depth] and [depth_bnds] of length [n] with
    [depth_bnds[0,0] = 0], [depth_bnds[k,0] = refBottomDepth[k-1]] for
    [k > 0], [depth_bnds[k,1] = refBottomDepth[k]] and
    [depth[k] = 0.5*(depth_bnds[k,0] + depth_bnds[k,1])]; [[10,20,35]] gives
    [depth = [5,15,27.5]] and [depth_bnds = [[0,10],[10,20],[20,35]]]. *)
Theorem compute_depth_contract (refBottomDepth : list Q) :
  refBottomDepth <> [] ->
  (exists depth depth_bnds,
     _compute_depth refBottomDepth = Ok (depth, depth_bnds) /\
     length depth = length refBottomDepth /\
     length depth_bnds = length refBottomDepth /\
     fst (nth 0 depth_bnds (0, 0)%Q) = 0%Q /\
     forall k, (k < length refBottomDepth)%nat ->
       ((0 < k)%nat ->
          fst (nth k depth_bnds (0, 0)%Q) = nth (k - 1) refBottomDepth 0%Q) /\
       snd (nth k depth_bnds (0, 0)%Q) = nth k refBottomDepth 0%Q /\
       nth k depth 0%Q =
         ((1 # 2) * (fst (nth k depth_bnds (0, 0)%Q)
                     + snd (nth k depth_bnds (0, 0)%Q)))%Q) /\
  (exists depth,
     _compute_depth [10; 20; 35]%Q
       = Ok (depth, [(0, 10); (10, 20); (20, 35)]%Q) /\
     Forall2 Qeq depth [5; 15; 55 # 2]%Q).
Proof.
  intros Hne. split.
  - destruct refBottomDepth as [| r0 rest]; [congruence |].
    set (ref := r0 :: rest).
    set (lower := 0%Q :: removelast ref).
    assert (E : _compute_depth ref =
                Ok (map (fun b => (1 # 2) * (fst b + snd b))%Q (combine lower ref),
                    combine lower ref)) by reflexivity.
    assert (Hll : length lower = length ref).
    { unfold lower. cbn [length]. unfold ref at 1.
      now rewrite length_removelast_cons. }
    assert (Hlc : length (combine lower ref) = length ref).
    { rewrite length_combine, Hll. lia. }
    assert (Hnth : forall k, (k < length ref)%nat ->
              nth k (combine lower ref) (0, 0)%Q
              = (nth k lower 0%Q, nth k ref 0%Q)).
    { intros k Hk. apply combine_nth. exact Hll. }
    exists (map (fun b => (1 # 2) * (fst b + snd b))%Q (combine lower ref)),
           (combine lower ref).
    split; [exact E |]. split; [now rewrite length_map |].
    split; [exact Hlc |]. split; [reflexivity |].
    intros k Hk. rewrite (Hnth k Hk). cbn [fst snd]. split; [| split].
    + intros Hpos. destruct k as [| k]; [lia |].
      unfold lower. cbn [nth]. rewrite Nat.sub_1_r. cbn [Nat.pred].
      apply nth_removelast. lia.
    + reflexivity.
    + set (mid := fun b : Q * Q => ((1 # 2) * (fst b + snd b))%Q).
      rewrite (nth_indep _ 0%Q (mid (0, 0)%Q)) by (rewrite length_map; lia).
      rewrite map_nth, (Hnth k Hk). reflexivity.
  - eexists. split; [reflexivity |].
    repeat constructor.
Qed.

Lemma compute_depth_contract_witness :
  [5; 30; 100]%Q <> [] /\
  exists depth depth_bnds,
    _compute_depth [5; 30; 100]%Q = Ok (depth, depth_bnds) /\
    fst (nth 2 depth_bnds (0, 0)%Q) = 30%Q /\
    snd (nth 2 depth_bnds (0, 0)%Q) = 100%Q.
Proof.
  assert (Hne : [5; 30; 100]%Q <> []) by discriminate.
  split; [exact Hne |].
  destruct (compute_depth_contract [5; 30; 100]%Q Hne)
    as [(depth & depth_bnds & E & _ & _ & _ & Hk) _].
  exists depth, depth_bnds. split; [exact E |].
  destruct (Hk 2%nat ltac:(simpl; lia)) as (Hlo & Hup & _).
  split; [apply Hlo; lia | exact Hup].
Defined.

(** [_compute_depth] returns on every array that is not empty, and the
    only exception it raises is [IndexError]. *)
Lemma compute_depth_nonempty (refBottomDepth : list Q) :
  refBottomDepth <> [] ->
  exists depth depth_bnds,
    _compute_depth refBottomDepth = Ok (depth, depth_bnds).
Proof.
  destruct refBottomDepth as [| r0 rest]; [congruence |].
  intros _. eexists. eexists. reflexivity.
Qed.

Lemma compute_depth_exn (refBottomDepth : list Q) (e : exn) :
  _compute_depth refBottomDepth = Raise e -> e = IndexError.
Proof.
  destruct refBottomDepth as [| r0 rest].
  - now intros [= <-].
  - intros H. discriminate H.
Qed.


(** ** Validity masks *)

(** C7, as the specification words it, fails: [get_cell_masks] checks
    nothing.  On a mesh of two levels whose cell has [maxLevelCell = 5] it
    returns the masks. *)
Lemma get_cell_masks_out_of_range :
  (Z.of_nat (nVertLevels deep_cell_mesh) < maxLevelCell deep_cell_mesh 0)%Z /\
  get_cell_masks deep_cell_mesh = Ok ([true], [[true]; [true]]) /\
  (forall e, get_cell_masks deep_cell_mesh <> Raise e).
Proof.
  split; [vm_compute; reflexivity |].
  split; [reflexivity |]. intros e H. discriminate H.
Qed.

(** C7 (amended): [get_cell_masks] is a function of [maxLevelCell] and the
    two sizes alone; it returns [cellMask2D = (maxLevelCell > 0)] and
    [cellMask3D = (level < maxLevelCell)] whatever the values of
    [maxLevelCell] are, and never fails. *)
Theorem get_cell_masks_total (dsMesh : Mesh) :
  exists cellMask2D cellMask3D,
    get_cell_masks dsMesh = Ok (cellMask2D, cellMask3D) /\
    (forall cell, (cell < nCells dsMesh)%nat ->
       nth_error cellMask2D cell = Some (0 <? maxLevelCell dsMesh cell)%Z) /\
    (forall level cell,
       (level < nVertLevels dsMesh)%nat -> (cell < nCells dsMesh)%nat ->
       exists row,
         nth_error cellMask3D level = Some row /\
         nth_error row cell
           = Some (Z.of_nat level <? maxLevelCell dsMesh cell)%Z) /\
    (forall dsMesh',
       nCells dsMesh' = nCells dsMesh ->
       nVertLevels dsMesh' = nVertLevels dsMesh ->
       (forall cell, (cell < nCells dsMesh)%nat ->
          maxLevelCell dsMesh' cell = maxLevelCell dsMesh cell) ->
       get_cell_masks dsMesh' = Ok (cellMask2D, cellMask3D)).
Proof.
  exists (tabulate (nCells dsMesh) (fun c => (0 <? maxLevelCell dsMesh c)%Z)),
         (tabulate (nVertLevels dsMesh) (fun k =>
            tabulate (nCells dsMesh)
              (fun c => (Z.of_nat k <? maxLevelCell dsMesh c)%Z))).
  split; [unfold get_cell_masks, tabulate; now rewrite map_map |].
  split; [| split].
  - intros cell Hc. now rewrite nth_error_tabulate.
  - intros level cell Hl Hc. eexists. split.
    + now rewrite nth_error_tabulate.
    + now rewrite nth_error_tabulate.
  - intros dsMesh' Hn Hv Hm. unfold get_cell_masks. rewrite Hn, Hv.
    unfold tabulate. f_equal. f_equal.
    + apply map_ext_in. intros c Hc. apply in_seq in Hc. now rewrite Hm by lia.
    + rewrite !map_map. apply map_ext. intros k.
      apply map_ext_in. intros c Hc. apply in_seq in Hc. now rewrite Hm by lia.
Qed.

Lemma get_cell_masks_total_witness :
  (0 < nVertLevels deep_cell_mesh)%nat /\ (0 < nCells deep_cell_mesh)%nat /\
  exists cellMask2D cellMask3D row,
    get_cell_masks deep_cell_mesh = Ok (cellMask2D, cellMask3D) /\
    nth_error cellMask2D 0 = Some true /\
    nth_error cellMask3D 0 = Some row /\ nth_error row 0 = Some true.
Proof.
  assert (Hl : (0 < nVertLevels deep_cell_mesh)%nat) by (simpl; lia).
  assert (Hc : (0 < nCells deep_cell_mesh)%nat) by (simpl; lia).
  split; [exact Hl |]. split; [exact Hc |].
  destruct (get_cell_masks_total deep_cell_mesh)
    as (m2 & m3 & E & H2 & H3 & _).
  destruct (H3 0%nat 0%nat Hl Hc) as (row & Hr & Hrc).
  exists m2, m3, row. split; [exact E |].
  split; [exact (H2 0%nat Hc) |]. split; [exact Hr | exact Hrc].
Defined.

(** ** Vertical integration of the transport *)

Lemma cumsum_from_nth acc xs :
  length (cumsum_from acc xs) = length xs /\
  (xs <> [] -> nth 0 (cumsum_from acc xs) 0%Q = (acc + nth 0 xs 0%Q)%Q) /\
  (forall i, (S i < length xs)%nat ->
     nth (S i) (cumsum_from acc xs) 0%Q
     = (nth i (cumsum_from acc xs) 0%Q + nth (S i) xs 0%Q)%Q).
Proof.
  revert acc. induction xs as [| x r IH]; intros acc.
  - split; [reflexivity |]. split; [congruence | simpl; lia].
  - destruct (IH (acc + x)%Q) as (Hl & H0 & HS).
    split; [simpl; now rewrite Hl |]. split; [reflexivity |].
    intros [| i] Hi; simpl in Hi.
    + cbn [cumsum_from nth]. apply H0. destruct r; [simpl in Hi; lia | discriminate].
    + cbn [cumsum_from nth]. apply HS. lia.
Qed.

Lemma cumsum_length xs : length (cumsum xs) = length xs.
Proof.
  destruct xs as [| x r]; [reflexivity |]. simpl.
  now rewrite (proj1 (cumsum_from_nth x r)).
Qed.

Lemma cumsum_step xs i :
  (S i < length xs)%nat ->
  nth (S i) (cumsum xs) 0%Q = (nth i (cumsum xs) 0%Q + nth (S i) xs 0%Q)%Q.
Proof.
  destruct xs as [| x r]; [simpl; lia |]. intros Hi. simpl in Hi.
  destruct (cumsum_from_nth x r) as (_ & H0 & HS).
  destruct i as [| i]; cbn [cumsum nth].
  - apply H0. destruct r; [simpl in Hi; lia | discriminate].
  - apply HS. lia.
Qed.

Lemma cumsum_first xs : nth 0 (cumsum xs) 0%Q = nth 0 xs 0%Q.
Proof. now destruct xs. Qed.

(** C2: for the transport series of any basin and any time index [t],
    [mocSlice[t,0]] is 0 and [mocSlice[t,j] = mocSlice[t,j-1] +
    transport[t,j-1]] for [j = 1..nVertLevels]; the top value is the
    literal zero the array was created with. *)
Theorem mocSlice_vertical_integration
    (transport : list (list Q)) (t : nat) (row : list Q) :
  nth_error transport t = Some row ->
  nth_error (mocSlice_array transport) t = Some (0%Q :: cumsum row) /\
  length (0%Q :: cumsum row) = S (length row) /\
  mocSlice transport t 0 = 0%Q /\
  forall j, (1 <= j <= length row)%nat ->
    (mocSlice transport t j
     == mocSlice transport t (j - 1) + nth (j - 1) row 0%Q)%Q.
Proof.
  intros Ht.
  assert (E : nth_error (mocSlice_array transport) t = Some (0%Q :: cumsum row)).
  { unfold mocSlice_array. now rewrite nth_error_map, Ht. }
  assert (En : nth t (mocSlice_array transport) [] = 0%Q :: cumsum row).
  { now apply nth_error_nth. }
  split; [exact E |]. split; [simpl; now rewrite cumsum_length |].
  unfold mocSlice. rewrite En. split; [reflexivity |].
  intros j [Hj1 Hj2]. destruct j as [| [| j]]; [lia | |].
  - cbn [nth Nat.sub]. rewrite cumsum_first. now rewrite Qplus_0_l.
  - replace (S (S j) - 1)%nat with (S j) by lia. cbn [nth].
    rewrite cumsum_step by lia. reflexivity.
Qed.

Lemma mocSlice_vertical_integration_witness :
  nth_error [[3; 4; 5]; [1; 2; 6]]%Q 1 = Some [1; 2; 6]%Q /\
  (1 <= 3 <= length [1; 2; 6]%Q)%nat /\
  mocSlice [[3; 4; 5]; [1; 2; 6]]%Q 1 0 = 0%Q /\
  (mocSlice [[3; 4; 5]; [1; 2; 6]]%Q 1 3
   == mocSlice [[3; 4; 5]; [1; 2; 6]]%Q 1 2 + 6)%Q.
Proof.
  assert (Ht : nth_error [[3; 4; 5]; [1; 2; 6]]%Q 1 = Some [1; 2; 6]%Q)
    by reflexivity.
  assert (Hj : (1 <= 3 <= length [1; 2; 6]%Q)%nat) by (simpl; lia).
  split; [exact Ht |]. split; [exact Hj |].
  destruct (mocSlice_vertical_integration _ _ _ Ht) as (_ & _ & H0 & Hstep).
  split; [exact H0 | exact (Hstep 3%nat Hj)].
Defined.

(** ** Regional transport *)

Lemma fold_left_Qplus_ext {A : Type} (f g : A -> Q) (l : list A) (a b : Q) :
  (a == b)%Q -> (forall x, In x l -> (f x == g x)%Q) ->
  (fold_left Qplus (map f l) a == fold_left Qplus (map g l) b)%Q.
Proof.
  revert a b. induction l as [| x r IH]; intros a b Hab Hfg; simpl.
  - exact Hab.
  - apply IH.
    + rewrite Hab, (Hfg x) by (now left). reflexivity.
    + intros y Hy. apply Hfg. now right.
Qed.

Lemma Qsum_ext {A : Type} (f g : A -> Q) (l : list A) :
  (forall x, In x l -> (f x == g x)%Q) ->
  (Qsum (map f l) == Qsum (map g l))%Q.
Proof. intros H. apply fold_left_Qplus_ext; [reflexivity | exact H]. Qed.

Lemma edgeIndices_selected dsMask :
  map Z.to_nat (edgeIndices dsMask) = selected_edges dsMask.
Proof. unfold edgeIndices, selected_edges. now rewrite map_map. Qed.

Lemma edgeIndices_in_range (dsMesh : Mesh) dsMask :
  (forall g, In g (transectEdgeGlobalIDs dsMask) ->
     (g <= Z.of_nat (nEdges dsMesh))%Z) ->
  forallb (fun e => (e <? Z.of_nat (nEdges dsMesh))%Z) (edgeIndices dsMask)
  = true.
Proof.
  intros H. apply forallb_forall. intros e He. unfold edgeIndices in He.
  apply in_map_iff in He as (g & <- & Hg). apply filter_In in Hg as [Hg _].
  apply Z.ltb_lt. specialize (H g Hg). lia.
Qed.

Lemma edgeIndices_padding dsMask :
  (forall g, In g (transectEdgeGlobalIDs dsMask) -> (g <= 0)%Z) ->
  edgeIndices dsMask = [].
Proof.
  intros H. unfold edgeIndices.
  assert (E : List.filter (fun g => (0 <? g)%Z) (transectEdgeGlobalIDs dsMask) = []).
  { induction (transectEdgeGlobalIDs dsMask) as [| g r IH]; [reflexivity |].
    simpl. destruct (Z.ltb_spec 0 g) as [Hg | Hg].
    - specialize (H g (or_introl eq_refl)). lia.
    - apply IH. intros g' Hg'. apply H. now right. }
  now rewrite E.
Qed.

(** C9: a region whose transect keeps no edge once the padding (ids that
    are not positive) is dropped gets a transport that is zero at every time
    and level, and no exception; for a region whose edge ids are edges of
    the mesh, [transport[t,k]] is the sum over the selected edges of
    [sign(e)*v(t,e,k)*h(t,e,k)*dv(e)]. *)
Theorem region_transport_sum
    (nTime : nat) (normalVelocity layerThicknessEdge : nat -> nat -> nat -> Q)
    (dsMesh : Mesh) (dsMask : RegionMask) :
  ((forall g, In g (transectEdgeGlobalIDs dsMask) -> (g <= 0)%Z) ->
   selected_edges dsMask = [] /\
   region_transport nTime normalVelocity layerThicknessEdge dsMesh dsMask
   = Ok (tabulate nTime (fun _ => tabulate (nVertLevels dsMesh) (fun _ => 0%Q))))
  /\
  ((forall g, In g (transectEdgeGlobalIDs dsMask) ->
      (g <= Z.of_nat (nEdges dsMesh))%Z) ->
   exists transport,
     region_transport nTime normalVelocity layerThicknessEdge dsMesh dsMask
     = Ok transport /\
     forall t k, (t < nTime)%nat -> (k < nVertLevels dsMesh)%nat ->
       exists row value,
         nth_error transport t = Some row /\
         nth_error row k = Some value /\
         (value ==
          Qsum (map (fun e =>
                  transectEdgeMaskSigns dsMask e * normalVelocity t e k
                  * layerThicknessEdge t e k * dvEdge dsMesh e)
                  (selected_edges dsMask)))%Q).
Proof.
  split.
  - intros Hpad. pose proof (edgeIndices_padding dsMask Hpad) as E.
    split; [now rewrite <- edgeIndices_selected, E |].
    unfold region_transport. now rewrite E.
  - intros Hin. unfold region_transport.
    rewrite (edgeIndices_in_range dsMesh dsMask Hin).
    eexists. split; [reflexivity |]. intros t k Ht Hk.
    eexists. eexists. split; [now rewrite nth_error_tabulate |].
    split; [now rewrite nth_error_tabulate |].
    rewrite <- edgeIndices_selected, map_map.
    apply Qsum_ext. intros e _. ring.
Qed.

Lemma region_transport_sum_witness :
  (forall g, In g (transectEdgeGlobalIDs padding_only) -> (g <= 0)%Z) /\
  region_transport 1 channel_velocity channel_thickness channel_mesh padding_only
  = Ok [[0; 0]]%Q /\
  (forall g, In g (transectEdgeGlobalIDs strait) ->
     (g <= Z.of_nat (nEdges channel_mesh))%Z) /\
  exists transport row value,
    region_transport 1 channel_velocity channel_thickness channel_mesh strait
    = Ok transport /\
    nth_error transport 0 = Some row /\ nth_error row 1 = Some value /\
    (value == -12)%Q.
Proof.
  assert (Hpad : forall g, In g (transectEdgeGlobalIDs padding_only) -> (g <= 0)%Z).
  { simpl. intros g [<- | [<- | [<- | []]]]; lia. }
  assert (Hin : forall g, In g (transectEdgeGlobalIDs strait) ->
                  (g <= Z.of_nat (nEdges channel_mesh))%Z).
  { simpl. intros g [<- | [<- | [<- | [<- | []]]]]; lia. }
  destruct (region_transport_sum 1 channel_velocity channel_thickness
              channel_mesh padding_only) as [Hzero _].
  destruct (region_transport_sum 1 channel_velocity channel_thickness
              channel_mesh strait) as [_ Hsum].
  split; [exact Hpad |]. split; [exact (proj2 (Hzero Hpad)) |].
  split; [exact Hin |].
  destruct (Hsum Hin) as (transport & E & Hval).
  destruct (Hval 0%nat 1%nat ltac:(lia) ltac:(simpl; lia))
    as (row & value & Hrow & Hk & Hv).
  exists transport, row, value.
  split; [exact E |]. split; [exact Hrow |]. split; [exact Hk |].
  rewrite Hv. reflexivity.
Defined.

(** ** Latitude bins and masking *)

(** Dictionaries *)

Lemma nth_map_seq (f : nat -> nat) n i :
  (i < n)%nat -> nth i (map f (seq 0 n)) 0%nat = f i.
Proof.
  intros Hi.
  rewrite (nth_indep _ 0%nat (f 0%nat)) by (rewrite length_map, length_seq; exact Hi).
  rewrite map_nth, seq_nth by exact Hi. reflexivity.
Qed.



Lemma dict_get_set_same {V : Type} (d : dict V) k v :
  dict_get (dict_set d k v) k = Some v.
Proof.
  induction d as [| [k' v'] r IH]; simpl.
  - now rewrite String.eqb_refl.
  - destruct (String.eqb k k') eqn:E; simpl.
    + now rewrite String.eqb_refl.
    + now rewrite E.
Qed.

Lemma dict_get_set_other {V : Type} (d : dict V) k0 v k :
  k <> k0 -> dict_get (dict_set d k0 v) k = dict_get d k.
Proof.
  intros Hne. induction d as [| [k' v'] r IH]; simpl.
  - destruct (String.eqb_spec k k0); [congruence | reflexivity].
  - destruct (String.eqb_spec k0 k') as [-> | Hk]; simpl.
    + destruct (String.eqb_spec k k'); [congruence | reflexivity].
    + destruct (String.eqb_spec k k'); [reflexivity | exact IH].
Qed.

Lemma dict_set_fresh {V : Type} (d : dict V) k v :
  ~ In k (dict_keys d) -> dict_set d k v = d ++ [(k, v)].
Proof.
  induction d as [| [k' v'] r IH]; simpl; intros Hk; [reflexivity |].
  destruct (String.eqb_spec k k') as [-> | Hne]; [tauto |].
  rewrite IH by tauto. reflexivity.
Qed.

Section MOCProperties.

Variable rad2deg : Q -> Q.
Variable nTime : nat.
Variables normalVelocity vertVelocityTop layerThicknessEdge
  : nat -> nat -> nat -> Q.
Variable dsMesh : Mesh.

Local Abbreviation binCount cellMask iLat :=
  (length (bin_cells rad2deg dsMesh cellMask iLat)).

(** The state of the loop over [iLat] after the bins [a, ..., a+n-1]. *)
Lemma lat_loop_state cellMask n a mocSlices binCounts :
  exists mocSlices',
    fold_left (lat_step rad2deg vertVelocityTop dsMesh cellMask) (seq a n)
      (mocSlices, binCounts)
    = (mocSlices',
       binCounts ++ map (fun iLat => binCount cellMask iLat) (seq a n)) /\
    length mocSlices' = (length mocSlices + n)%nat.
Proof.
  revert a mocSlices binCounts.
  induction n as [| n IH]; intros a mocSlices binCounts.
  - exists mocSlices. simpl. now rewrite app_nil_r, Nat.add_0_r.
  - cbn [seq fold_left]. unfold lat_step at 2.
    destruct (IH (S a)
                (mocSlices ++
                   [fun t j =>
                      (nth a mocSlices (fun _ _ => 0) t j
                       + bin_flux rad2deg vertVelocityTop dsMesh cellMask a t j)%Q])
                (binCounts ++ [binCount cellMask a]))
      as (sl & E & Hl).
    exists sl. rewrite E. split.
    + now rewrite <- app_assoc.
    + rewrite Hl, length_app. simpl. lia.
Qed.




(** ** The Global basin and the order of the basins *)

(** The two dictionaries after the loop over the named regions: a name
    that no region bears keeps its entry, and a region whose name is borne
    once has its own transport and cell mask filed under it. *)
Lemma region_loop_get dsMasks T C T' C' :
  region_loop nTime normalVelocity layerThicknessEdge dsMesh dsMasks T C
  = Ok (T', C') ->
  (forall k, ~ In k (map regionName dsMasks) ->
     dict_get T' k = dict_get T k /\ dict_get C' k = dict_get C k) /\
  (List.NoDup (map regionName dsMasks) ->
   forall r, In r dsMasks ->
     exists tr,
       region_transport nTime normalVelocity layerThicknessEdge dsMesh r
       = Ok tr /\
       dict_get T' (regionName r) = Some tr /\
       dict_get C' (regionName r) = Some (regionCellMasks r)).
Proof.
  revert T C. induction dsMasks as [| r0 rest IH]; intros T C H; simpl in H.
  - injection H as <- <-. split; [now intros k _ | intros _ r []].
  - destruct (region_transport nTime normalVelocity layerThicknessEdge
                dsMesh r0) as [tr0 |] eqn:E0; cbn [rbind] in H;
      [| discriminate].
    destruct (IH _ _ H) as [Hkeep Hown]. split.
    + intros k Hk. simpl in Hk.
      assert (Hk' : ~ In k (map regionName rest))
        by (intros X; apply Hk; now right).
      destruct (Hkeep k Hk') as [-> ->].
      split; apply dict_get_set_other; intros ->; apply Hk; now left.
    + intros Hnd r [<- | Hin].
      * exists tr0. split; [exact E0 |].
        simpl in Hnd. apply NoDup_cons_iff in Hnd as [Hfresh _].
        destruct (Hkeep (regionName r0) Hfresh) as [-> ->].
        split; apply dict_get_set_same.
      * simpl in Hnd. apply NoDup_cons_iff in Hnd as [_ Hnd].
        exact (Hown Hnd r Hin).
Qed.

Lemma region_loop_total dsMasks T C :
  (forall r, In r dsMasks ->
     forall g, In g (transectEdgeGlobalIDs r) ->
       (g <= Z.of_nat (nEdges dsMesh))%Z) ->
  exists T' C',
    region_loop nTime normalVelocity layerThicknessEdge dsMesh dsMasks T C
    = Ok (T', C').
Proof.
  revert T C. induction dsMasks as [| r0 rest IH]; intros T C Hin; simpl.
  - now exists T, C.
  - unfold region_transport at 1.
    rewrite (edgeIndices_in_range dsMesh r0) by (apply Hin; now left).
    cbn [rbind]. apply IH. intros r Hr. apply Hin. now right.
Qed.

Lemma moc_loop_fresh names T C M :
  List.NoDup names ->
  (forall n, In n names -> ~ In n (dict_keys M)) ->
  (forall n, In n names -> dict_get T n <> None /\ dict_get C n <> None) ->
  moc_loop rad2deg vertVelocityTop dsMesh names T C M
  = Ok (M ++ map (fun n =>
                    (n, region_moc rad2deg vertVelocityTop dsMesh
                          (get_or T n []) (get_or C n (fun _ => 0%Q))))
               names).
Proof.
  revert M. induction names as [| n rest IH]; intros M Hnd Hfresh Hin; simpl.
  - now rewrite app_nil_r.
  - apply NoDup_cons_iff in Hnd as [Hn Hnd].
    destruct (Hin n (or_introl eq_refl)) as [HT HC].
    unfold dict_item, get_or.
    destruct (dict_get T n) as [tr |]; [| congruence].
    destruct (dict_get C n) as [cm |]; [| congruence].
    cbn [rbind]. rewrite dict_set_fresh by (apply Hfresh; now left).
    rewrite IH.
    + now rewrite <- app_assoc.
    + exact Hnd.
    + intros m Hm. unfold dict_keys. rewrite map_app, in_app_iff.
      intros [Hk | [<- | []]]; [| exact (Hn Hm)].
      apply (Hfresh m); [now right | exact Hk].
    + intros m Hm. apply Hin. now right.
Qed.

(** C4 (amended): when the names of the regions are pairwise distinct and
    none of them is [Global] (and [refBottomDepth] is not empty, so that
    [_compute_depth] returns, and every edge id is an edge of the mesh, so
    that no transport raises), the Global region has a transport that is
    zero at every time and level and is no transect sum, its cell mask is 1
    on every cell of the mesh, whatever [maxLevelCell] is, and in the
    result Global is basin 0 and the named regions follow in the order of
    the input. *)
Theorem global_basin_first (dsMasks : list RegionMask) :
  refBottomDepth dsMesh <> [] ->
  List.NoDup ("Global"%string :: map regionName dsMasks) ->
  (forall r, In r dsMasks ->
     forall g, In g (transectEdgeGlobalIDs r) ->
       (g <= Z.of_nat (nEdges dsMesh))%Z) ->
  exists T C result,
    transport_and_cellMasks nTime normalVelocity layerThicknessEdge dsMesh
      dsMasks = Ok (T, C) /\
    dict_get T "Global" = Some (global_transport nTime dsMesh) /\
    (forall t k, (t < nTime)%nat -> (k < nVertLevels dsMesh)%nat ->
       exists row, nth_error (global_transport nTime dsMesh) t = Some row /\
                   nth_error row k = Some 0%Q) /\
    dict_get C "Global" = Some global_cellMask /\
    (forall cell, global_cellMask cell = 1%Q) /\
    _compute_moc_time_series rad2deg nTime normalVelocity vertVelocityTop
      layerThicknessEdge dsMesh dsMasks = Ok result /\
    basinNames result = "Global"%string :: map regionName dsMasks /\
    length (mocs result) = S (length dsMasks) /\
    nth_error (mocs result) 0
    = Some (region_moc rad2deg vertVelocityTop dsMesh
              (global_transport nTime dsMesh) global_cellMask) /\
    (forall i r, nth_error dsMasks i = Some r ->
       exists tr,
         region_transport nTime normalVelocity layerThicknessEdge dsMesh r
         = Ok tr /\
         nth_error (mocs result) (S i)
         = Some (region_moc rad2deg vertVelocityTop dsMesh tr
                   (regionCellMasks r))).
Proof.
  intros Hdepth Hnd Hin. pose proof Hnd as Hnd0.
  apply NoDup_cons_iff in Hnd as [HG Hnd].
  destruct (compute_depth_nonempty _ Hdepth) as (depth & depth_bnds & ED).
  destruct (region_loop_total dsMasks
              (dict_set [] "Global" (global_transport nTime dsMesh))
              (dict_set [] "Global" global_cellMask) Hin) as (T & C & E).
  destruct (region_loop_get _ _ _ _ _ E) as [Hkeep Hown].
  destruct (Hkeep "Global"%string HG) as [HT HC].
  change (dict_get (dict_set [] "Global" (global_transport nTime dsMesh))
            "Global") with (Some (global_transport nTime dsMesh)) in HT.
  change (dict_get (dict_set [] "Global" global_cellMask) "Global")
    with (Some global_cellMask) in HC.
  assert (Hpresent : forall n, In n ("Global"%string :: map regionName dsMasks) ->
            dict_get T n <> None /\ dict_get C n <> None).
  { intros n [<- | Hn].
    - rewrite HT, HC. split; discriminate.
    - apply in_map_iff in Hn as (r & <- & Hr).
      destruct (Hown Hnd r Hr) as (tr & _ & -> & ->). split; discriminate. }
  pose proof (moc_loop_fresh ("Global"%string :: map regionName dsMasks)
                T C [] Hnd0 (fun n _ H => H) Hpresent) as EM.
  cbn [app] in EM.
  eexists T, C, _. split; [exact E |]. split; [exact HT |].
  split.
  { intros t k Ht Hk. eexists. unfold global_transport.
    split; now rewrite nth_error_tabulate. }
  split; [exact HC |]. split; [reflexivity |].
  split.
  { unfold _compute_moc_time_series, transport_and_cellMasks.
    rewrite ED. cbn [rbind]. rewrite E. cbn [rbind].
    rewrite EM. cbn [rbind]. reflexivity. }
  cbn [basinNames mocs]. split; [reflexivity |].
  unfold dict_values. rewrite map_map. cbn [snd].
  split; [cbn [map length]; now rewrite !length_map |].
  split.
  { cbn [map nth_error]. unfold get_or. now rewrite HT, HC. }
  intros i r Hi.
  destruct (Hown Hnd r (nth_error_In _ _ Hi)) as (tr & Etr & HTr & HCr).
  exists tr. split; [exact Etr |].
  cbn [map nth_error]. rewrite map_map, nth_error_map, Hi. cbn [option_map].
  unfold get_or. now rewrite HTr, HCr.
Qed.

End MOCProperties.


(** C4, as the specification words it, fails.  The mask of Global is 1 on
    every cell, also on a cell that [cellMask2D] leaves out: cell 1 of
    [channel_mesh] has [maxLevelCell = 0] and is counted in its latitude
    bin.  And a region that is itself named Global takes the place of the
    synthesized one, with the transport through its transect. *)
Lemma global_mask_covers_invalid_cells :
  (exists cellMask2D cellMask3D,
     get_cell_masks channel_mesh = Ok (cellMask2D, cellMask3D) /\
     nth_error cellMask2D 1 = Some false /\
     Qeq_bool (global_cellMask 1) 1 = true /\
     bin_cells degrees channel_mesh global_cellMask 90 = [0; 1]%nat) /\
  (exists T C value,
     transport_and_cellMasks 1 channel_velocity channel_thickness
       channel_mesh [strait_as_global] = Ok (T, C) /\
     dict_get T "Global" = Some [[value; value]] /\
     ~ (value == 0)%Q).
Proof.
  split.
  - eexists. eexists. split; [reflexivity |].
    split; [reflexivity |]. split; vm_compute; reflexivity.
  - eexists. eexists. eexists. split; [vm_compute; reflexivity |].
    split; [reflexivity |]. intros H. vm_compute in H. discriminate H.
Qed.

Lemma global_basin_first_witness :
  refBottomDepth channel_mesh <> [] /\
  List.NoDup ("Global"%string :: map regionName [strait; padding_only]) /\
  exists result,
    _compute_moc_time_series degrees 1 channel_velocity
      channel_vertVelocityTop channel_thickness channel_mesh
      [strait; padding_only] = Ok result /\
    basinNames result = ["Global"; "Strait"; "Empty"]%string /\
    length (mocs result) = 3%nat /\
    nth_error (mocs result) 0
    = Some (region_moc degrees channel_vertVelocityTop channel_mesh
              (global_transport 1 channel_mesh) global_cellMask).
Proof.
  assert (Hnd : List.NoDup
                  ("Global"%string :: map regionName [strait; padding_only])).
  { repeat constructor; simpl; intuition discriminate. }
  assert (Hin : forall r, In r [strait; padding_only] ->
            forall g, In g (transectEdgeGlobalIDs r) ->
              (g <= Z.of_nat (nEdges channel_mesh))%Z).
  { intros r [<- | [<- | []]] g; simpl; intuition lia. }
  assert (Hdepth : refBottomDepth channel_mesh <> []) by discriminate.
  split; [exact Hdepth |]. split; [exact Hnd |].
  destruct (global_basin_first degrees 1 channel_velocity
              channel_vertVelocityTop channel_thickness channel_mesh
              [strait; padding_only] Hdepth Hnd Hin)
    as (T & C & result & _ & _ & _ & _ & _ & E & Hnames & Hlen & H0 & _).
  exists result. split; [exact E |]. split; [exact Hnames |].
  split; [exact Hlen | exact H0].
Defined.

(** ** Vertex-to-cell interpolation *)

Lemma fold_left_Qplus_zero {A : Type} (f : A -> Q) (l : list A) (a : Q) :
  (a == 0)%Q -> (forall x, (f x == 0)%Q) ->
  (fold_left (fun w x => w + f x) l a == 0)%Q.
Proof.
  revert a. induction l as [| x r IH]; intros a Ha Hf; simpl.
  - exact Ha.
  - apply IH; [| exact Hf]. rewrite Ha, (Hf x). reflexivity.
Qed.

(** The slot of a cell that holds the first vertex of the mesh gets no
    weight: after the subtraction of 1 its index is 0, and [mask1] keeps
    the indices above 0 only. *)
Lemma first_vertex_weight (dsMesh : Mesh) (cell iVertex : nat) :
  verticesOnCell dsMesh cell iVertex = 1%Z ->
  (weights dsMesh cell iVertex == 0)%Q.
Proof.
  intros Hv. unfold weights, kite_weight, vertex_index. rewrite Hv.
  change (0 <? 1 - 1)%Z with false. cbn [andb bool_to_Q].
  unfold Qdiv.
  rewrite (fold_left_Qplus_zero
             (fun iCell =>
                0 * kiteAreasOnVertex dsMesh (np_wrap (nVertices dsMesh) (1 - 1)) iCell)%Q);
    [ring | reflexivity | intros x; ring].
Qed.

(** C1 on [square_mesh]: the four kites are a quarter of the cell each, the
    field is 1 on every vertex, and the value on the cell is 3/4: the
    weights are 0, 1/4, 1/4, 1/4. *)
Theorem interp_drops_first_vertex :
  (Qsum (tabulate (maxEdges square_mesh)
           (fun iVertex => kiteAreasOnVertex square_mesh iVertex 0))
   == areaCell square_mesh 0)%Q /\
  map (weights square_mesh 0) (seq 0 4) = [0 / 4; 1 / 4; 1 / 4; 1 / 4]%Q /\
  exists value,
    interp_vertex_to_cell square_mesh 1 ones_on_vertices = Ok [[value]] /\
    (value == 3 # 4)%Q /\ ~ (value == 1)%Q.
Proof.
  split; [reflexivity |]. split; [reflexivity |].
  eexists. split; [vm_compute; reflexivity |].
  split; [reflexivity | intros H; vm_compute in H; discriminate H].
Qed.

(** ** Temporary files of [remap] *)

(** When [ncremap] fails, [remap] raises and the snapshot it wrote stays in
    the temporary directory. *)
Lemma remap_failure_leaks (inFileName outFileName : string)
    (outcome : ncremap_outcome) (fs : gset string) :
  returncode outcome <> 0%Z ->
  fst (remap inFileName outFileName outcome fs) = Raise TypeError /\
  inFileName ∈ snd (remap inFileName outFileName outcome fs).
Proof.
  intros Hrc. unfold remap, io_bind, write_netcdf, run_ncremap, io_raise.
  destruct (Z.eqb_spec (returncode outcome) 0) as [E | _]; [contradiction |].
  cbn [fst snd]. split; [reflexivity |].
  destruct (wrote_output outcome); set_solver.
Qed.

Lemma open_dataset_present (fileName : string) (fs : gset string) :
  fileName ∈ fs -> open_dataset fileName fs = (Ok tt, fs).
Proof. intros H. unfold open_dataset. now rewrite decide_True. Qed.

Lemma os_remove_present (fileName : string) (fs : gset string) :
  fileName ∈ fs -> os_remove fileName fs = (Ok tt, fs ∖ {[fileName]}).
Proof. intros H. unfold os_remove. now rewrite decide_True. Qed.

(** When [ncremap] succeeds and writes its output, both files are removed. *)
Lemma remap_success_cleans (inFileName outFileName : string)
    (outcome : ncremap_outcome) (fs : gset string) :
  returncode outcome = 0%Z -> wrote_output outcome = true ->
  inFileName <> outFileName ->
  fst (remap inFileName outFileName outcome fs) = Ok tt /\
  (inFileName ∉ snd (remap inFileName outFileName outcome fs)) /\
  (outFileName ∉ snd (remap inFileName outFileName outcome fs)).
Proof.
  intros Hrc Hw Hne.
  unfold remap, io_bind, write_netcdf, run_ncremap.
  rewrite Hrc, Hw. cbn [Z.eqb].
  rewrite open_dataset_present by set_solver.
  rewrite os_remove_present by set_solver.
  rewrite os_remove_present by set_solver.
  cbn [fst snd]. split; [reflexivity |].
  split; rewrite !elem_of_difference, !elem_of_singleton; tauto.
Qed.

(** C8 on a failing run: [ncremap] exits with status 1, [remap] raises, and
    the input snapshot is still there. *)
Theorem remap_leaks_snapshot_on_failure :
  fst (remap "tmpa.nc" "tmpb.nc" failed_run ∅) = Raise TypeError /\
  snd (remap "tmpa.nc" "tmpb.nc" failed_run ∅) = {[ "tmpa.nc"%string ]}.
Proof.
  destruct (remap_failure_leaks "tmpa.nc" "tmpb.nc" failed_run ∅) as [Hr Hin];
    [discriminate |].
  split; [exact Hr |].
  unfold remap, io_bind, write_netcdf, run_ncremap, io_raise.
  cbn [failed_run returncode wrote_output Z.eqb fst snd]. set_solver.
Qed.

(** * Further properties of the code *)

(** ** More on time stamps *)

Lemma hms_fields_dots h mi s :
  digits h -> digits mi -> digits s ->
  contains "." (h ++ "."%char :: mi ++ "."%char :: s) = true /\
  replace "." ":" (h ++ "."%char :: mi ++ "."%char :: s)
  = h ++ ":"%char :: mi ++ ":"%char :: s.
Proof.
  intros Hh Hm Hs. split.
  - rewrite contains_app. apply orb_true_iff. right. reflexivity.
  - replace_tac. reflexivity.
Qed.

(** A dot in the time token stands for a colon: [Y-M-D_h.m.s] is read as
    [Y-M-D_h:m:s]. *)
Theorem parse_date_time_dots y m d h mi s :
  digits y -> digits m -> digits d -> digits h -> digits mi -> digits s ->
  _parse_date_string
    (y ++ "-"%char :: m ++ "-"%char :: d ++ "_"%char
       :: h ++ "."%char :: mi ++ "."%char :: s) =
  Ok (digits_value y, digits_value m, digits_value d,
      digits_value h, digits_value mi, digits_value s).
Proof.
  intros Hy Hm Hd Hh Hmi Hs. unfold _parse_date_string.
  replace_tac. simpl (if Ascii.eqb _ _ then _ else _).
  assert (E : y ++ "-"%char :: m ++ "-"%char :: d ++ " "%char
                :: h ++ "."%char :: mi ++ "."%char :: s
              = (y ++ "-"%char :: m ++ "-"%char :: d) ++ " "%char
                :: (h ++ "."%char :: mi ++ "."%char :: s)) by app_norm.
  assert (Hstrip :
    strip (y ++ "-"%char :: m ++ "-"%char :: d ++ " "%char
             :: h ++ "."%char :: mi ++ "."%char :: s)
    = y ++ "-"%char :: m ++ "-"%char :: d ++ " "%char
        :: h ++ "."%char :: mi ++ "."%char :: s).
  { replace (y ++ "-"%char :: m ++ "-"%char :: d ++ " "%char
               :: h ++ "."%char :: mi ++ "."%char :: s)
      with (y ++ ("-"%char :: m ++ "-"%char :: d ++ " "%char
                    :: h ++ "."%char :: mi ++ ["."%char]) ++ s) by app_norm.
    now apply strip_framed. }
  rewrite Hstrip, E.
  set (ymd := y ++ "-"%char :: m ++ "-"%char :: d).
  set (hms := h ++ "."%char :: mi ++ "."%char :: s).
  assert (Hy' : contains " " ymd = false) by (unfold ymd; contains_tac).
  assert (Hh' : contains " " hms = false) by (unfold hms; contains_tac).
  assert (Hsp : contains " " (ymd ++ " "%char :: hms) = true).
  { rewrite contains_app. apply orb_true_iff. right. reflexivity. }
  rewrite Hsp, (split_two " " ymd hms Hy' Hh'). cbn [rbind].
  destruct (hms_fields_dots h mi s Hh Hmi Hs) as [D1 D2]. fold hms in D1, D2.
  rewrite D1, D2.
  destruct (ymd_fields y m d Hy Hm Hd) as [Y1 Y2]. fold ymd in Y1, Y2.
  destruct (hms_fields h mi s Hh Hmi Hs) as [_ [T2 T3]].
  rewrite Y1, Y2. cbn [rbind]. rewrite T2, T3. reflexivity.
Qed.

Lemma digits_chars (t : string) :
  chars t <> [] -> forallb isdigit (chars t) = true -> digits (chars t).
Proof. intros H1 H2. split; assumption. Qed.

Lemma parse_date_time_dots_witness :
  _parse_date_string (chars "1850-12-31_23.59.58")
  = Ok (1850, 12, 31, 23, 59, 58)%Z.
Proof.
  apply (parse_date_time_dots (chars "1850") (chars "12") (chars "31")
           (chars "23") (chars "59") (chars "58"));
    apply digits_chars; (discriminate || reflexivity).
Defined.





(** A stamp with more than one separator (space or underscore) inside is a
    [ValueError]: the two-way unpacking of [split(' ')] fails. *)
Theorem parse_three_tokens_rejected (dateString : str) :
  (3 <= length (split " " (strip (replace "_" " " dateString))))%nat ->
  _parse_date_string dateString = Raise ValueError.
Proof.
  intros H. unfold _parse_date_string.
  set (s := strip (replace "_" " " dateString)) in *.
  destruct (contains " " s) eqn:Hc.
  - destruct (split " " s) as [| a [| b [| c r]]]; simpl in H; try lia.
    reflexivity.
  - rewrite (split_absent " " s Hc) in H. simpl in H. lia.
Qed.

Lemma parse_three_tokens_rejected_witness :
  _parse_date_string stamp_with_three_tokens = Raise ValueError.
Proof.
  apply parse_three_tokens_rejected. vm_compute. lia.
Defined.

(** ** More on the time axis *)

Lemma comprehension_raise {A B : Type} (f : A -> result B) xs i x e :
  nth_error xs i = Some x -> f x = Raise e ->
  exists e', comprehension f xs = Raise e'.
Proof.
  revert i. induction xs as [| y r IH]; intros [| i] Hi Hf; simpl in Hi;
    try discriminate.
  - injection Hi as ->. simpl. rewrite Hf. now exists e.
  - simpl. destruct (f y) as [b |]; cbn [rbind]; [| now eexists].
    destruct (IH i Hi Hf) as [e' ->]. now exists e'.
Qed.

(** [add_time] converts nothing when one stamp cannot be converted: a start
    stamp whose first ten characters are no date, or an end stamp that is
    none, makes the whole call raise. *)
Theorem add_time_bad_stamp
    (date2num : str -> datetime -> result Q) (dsIn : time_stamps)
    (referenceDate : str) (offsetYears : Z) (i : nat) (e : exn) :
  (i < nTime_stamps dsIn)%nat ->
  _string_to_datetime (fix_xtimeStart (strip (xtime_startMonthly dsIn i)))
    = Raise e \/
  _string_to_datetime (xtime_endMonthly dsIn i) = Raise e ->
  exists e', add_time date2num dsIn referenceDate offsetYears = Raise e'.
Proof.
  intros Hi H. unfold add_time, _string_to_days_since_date.
  set (starts := map fix_xtimeStart
                   (tabulate (nTime_stamps dsIn)
                      (fun t => strip (xtime_startMonthly dsIn t)))).
  set (ends := tabulate (nTime_stamps dsIn)
                 (fun t => strip (xtime_endMonthly dsIn t))).
  assert (Hsi : nth_error starts i
                = Some (fix_xtimeStart (strip (xtime_startMonthly dsIn i)))).
  { unfold starts. now rewrite nth_error_map, nth_error_tabulate. }
  assert (Hei : nth_error ends i = Some (strip (xtime_endMonthly dsIn i))).
  { unfold ends. now rewrite nth_error_tabulate. }
  destruct H as [H | H].
  - destruct (comprehension_raise _ _ _ _ _ Hsi H) as [e' ->].
    cbn [rbind]. now exists e'.
  - destruct (comprehension _string_to_datetime starts) as [ds |];
      cbn [rbind]; [| now eexists].
    destruct (_datetime_to_days date2num ds referenceDate) as [ns |];
      cbn [rbind]; [| now eexists].
    assert (H' : _string_to_datetime (strip (xtime_endMonthly dsIn i)) = Raise e).
    { unfold _string_to_datetime in *. now rewrite parse_date_string_strip. }
    destruct (comprehension_raise _ _ _ _ _ Hei H') as [e' ->].
    cbn [rbind]. now exists e'.
Qed.

Lemma add_time_bad_stamp_witness :
  (1 < nTime_stamps stamps_with_bad_end)%nat /\
  _string_to_datetime (xtime_endMonthly stamps_with_bad_end 1)
    = Raise ValueError /\
  exists e',
    add_time noleap_date2num stamps_with_bad_end (chars "0001-01-01") 0
    = Raise e'.
Proof.
  assert (Hi : (1 < nTime_stamps stamps_with_bad_end)%nat) by (simpl; lia).
  assert (He : _string_to_datetime (xtime_endMonthly stamps_with_bad_end 1)
               = Raise ValueError) by (vm_compute; reflexivity).
  split; [exact Hi |]. split; [exact He |].
  exact (add_time_bad_stamp noleap_date2num stamps_with_bad_end
           (chars "0001-01-01") 0 1 ValueError Hi (or_intror He)).
Defined.

Lemma Forall2_map_same {A B C : Type} (R : B -> C -> Prop)
    (f : A -> B) (g : A -> C) (l : list A) :
  (forall x, R (f x) (g x)) -> Forall2 R (map f l) (map g l).
Proof. intros H. induction l; simpl; constructor; auto. Qed.

(** [offsetYears] moves the whole axis by [365 * offsetYears] days and does
    nothing else: whether [add_time] succeeds does not depend on it, and
    every bound and every time is the one for offset 0 plus that many
    days. *)
Theorem add_time_offset
    (date2num : str -> datetime -> result Q) (dsIn : time_stamps)
    (referenceDate : str) (offsetYears : Z) :
  match add_time date2num dsIn referenceDate 0 with
  | Ok (days0, bnds0) =>
      exists days bnds,
        add_time date2num dsIn referenceDate offsetYears = Ok (days, bnds) /\
        Forall2 (fun d d0 => d == d0 + inject_Z (365 * offsetYears))%Q
          days days0 /\
        Forall2 (fun b b0 =>
                   fst b == fst b0 + inject_Z (365 * offsetYears) /\
                   snd b == snd b0 + inject_Z (365 * offsetYears))%Q
          bnds bnds0
  | Raise e => add_time date2num dsIn referenceDate offsetYears = Raise e
  end.
Proof.
  unfold add_time.
  destruct (_string_to_days_since_date date2num
              (map fix_xtimeStart
                 (tabulate (nTime_stamps dsIn)
                    (fun t => strip (xtime_startMonthly dsIn t))))
              referenceDate) as [ds |]; cbn [rbind]; [| reflexivity].
  destruct (_string_to_days_since_date date2num
              (tabulate (nTime_stamps dsIn)
                 (fun t => strip (xtime_endMonthly dsIn t)))
              referenceDate) as [de |]; cbn [rbind]; [| reflexivity].
  eexists. eexists. split; [reflexivity |].
  assert (Hshift : forall d : Q,
            (inject_Z (offsetYears * 365) + d
             == inject_Z (0 * 365) + d + inject_Z (365 * offsetYears))%Q).
  { intros d. rewrite (Z.mul_comm offsetYears 365).
    change (inject_Z (0 * 365)) with 0%Q. ring. }
  assert (Hc : forall (f : Q -> Q) (a b : list Q),
            combine (map f a) (map f b)
            = map (fun p => (f (fst p), f (snd p))) (combine a b)).
  { intros f a. induction a as [| x a IH]; intros [| y b]; simpl;
      [reflexivity .. |]. now rewrite IH. }
  rewrite !Hc, !map_map. cbn [fst snd]. split.
  - apply Forall2_map_same. intros [a b]. cbn [fst snd].
    rewrite (Hshift a), (Hshift b). ring.
  - apply Forall2_map_same. intros [a b]. cbn [fst snd].
    split; apply Hshift.
Qed.

(** ** More on the depth coordinate *)

Lemma compute_depth_rows (r0 : Q) (rest : list Q) :
  let ref := r0 :: rest in
  let lower := 0%Q :: removelast ref in
  _compute_depth ref =
    Ok (map (fun b => (1 # 2) * (fst b + snd b))%Q (combine lower ref),
        combine lower ref) /\
  length lower = length ref /\
  forall k, (k < length ref)%nat ->
    nth k (combine lower ref) (0, 0)%Q = (nth k lower 0%Q, nth k ref 0%Q) /\
    nth k (map (fun b => (1 # 2) * (fst b + snd b))%Q (combine lower ref)) 0%Q
    = ((1 # 2) * (nth k lower 0 + nth k ref 0))%Q.
Proof.
  intros ref lower.
  assert (Hll : length lower = length ref).
  { unfold lower. cbn [length]. unfold ref at 1.
    now rewrite length_removelast_cons. }
  split; [reflexivity |]. split; [exact Hll |].
  intros k Hk.
  assert (Hn : nth k (combine lower ref) (0, 0)%Q
               = (nth k lower 0%Q, nth k ref 0%Q))
    by (apply combine_nth; exact Hll).
  split; [exact Hn |].
  set (mid := fun b : Q * Q => ((1 # 2) * (fst b + snd b))%Q).
  rewrite (nth_indep _ 0%Q (mid (0, 0)%Q))
    by (rewrite length_map, length_combine, Hll; lia).
  rewrite map_nth, Hn. reflexivity.
Qed.

(** The depth bounds tile the water column: the lower bound of a level is
    the upper bound of the level above it; and when [refBottomDepth] is not
    negative and does not decrease, every level has
    [depth_bnds[k,0] <= depth[k] <= depth_bnds[k,1]]. *)
Theorem compute_depth_bounds_tile (refBottomDepth : list Q) :
  refBottomDepth <> [] ->
  exists depth depth_bnds,
    _compute_depth refBottomDepth = Ok (depth, depth_bnds) /\
    (forall k, (S k < length refBottomDepth)%nat ->
       fst (nth (S k) depth_bnds (0, 0)%Q) = snd (nth k depth_bnds (0, 0)%Q)) /\
    ((0 <= nth 0 refBottomDepth 0)%Q ->
     (forall k, (S k < length refBottomDepth)%nat ->
        (nth k refBottomDepth 0 <= nth (S k) refBottomDepth 0)%Q) ->
     forall k, (k < length refBottomDepth)%nat ->
       (fst (nth k depth_bnds (0, 0)%Q) <= nth k depth 0)%Q /\
       (nth k depth 0 <= snd (nth k depth_bnds (0, 0)%Q))%Q).
Proof.
  intros Hne. destruct refBottomDepth as [| r0 rest]; [congruence |].
  destruct (compute_depth_rows r0 rest) as (E & Hll & Hrows).
  cbv zeta in E, Hll, Hrows.
  set (ref := r0 :: rest) in *.
  set (lower := 0%Q :: removelast ref) in *.
  eexists. eexists. split; [exact E |].
  assert (Hlow : forall k, (S k < length ref)%nat ->
            nth (S k) lower 0%Q = nth k ref 0%Q).
  { intros k Hk. unfold lower. cbn [nth]. now apply nth_removelast. }
  split.
  - intros k Hk.
    rewrite (proj1 (Hrows (S k) Hk)), (proj1 (Hrows k ltac:(lia))).
    cbn [fst snd]. now apply Hlow.
  - intros H0 Hmono k Hk. destruct (Hrows k Hk) as [Hb Hd].
    rewrite Hb, Hd. cbn [fst snd].
    assert (Hle : (nth k lower 0 <= nth k ref 0)%Q).
    { destruct k as [| k]; [exact H0 |]. rewrite (Hlow k Hk).
      apply Hmono. exact Hk. }
    split; lra.
Qed.

Lemma compute_depth_bounds_tile_witness :
  exists depth depth_bnds,
    _compute_depth [5; 30; 100]%Q = Ok (depth, depth_bnds) /\
    fst (nth 2 depth_bnds (0, 0)%Q) = snd (nth 1 depth_bnds (0, 0)%Q) /\
    (fst (nth 2 depth_bnds (0, 0)%Q) <= nth 2 depth 0)%Q /\
    (nth 2 depth 0 <= snd (nth 2 depth_bnds (0, 0)%Q))%Q.
Proof.
  destruct (compute_depth_bounds_tile [5; 30; 100]%Q ltac:(discriminate))
    as (depth & depth_bnds & E & Htile & Hin).
  exists depth, depth_bnds. split; [exact E |].
  split; [apply (Htile 1%nat); simpl; lia |].
  apply (Hin ltac:(simpl; discriminate)).
  - intros k Hk. simpl in Hk.
    destruct k as [| [| k]]; simpl; try discriminate; lia.
  - simpl. lia.
Defined.

(** ** More on the validity masks *)

(** The two masks agree and every column of [cellMask3D] is valid from the
    top down to its last valid level: a valid level makes every level above
    it valid and the cell valid in [cellMask2D], and a valid cell has its
    top level valid. *)
Theorem cell_masks_consistent (dsMesh : Mesh) (cell level : nat) :
  (cell < nCells dsMesh)%nat -> (level < nVertLevels dsMesh)%nat ->
  exists cellMask2D cellMask3D,
    get_cell_masks dsMesh = Ok (cellMask2D, cellMask3D) /\
    (nth cell (nth level cellMask3D []) false = true ->
     nth cell cellMask2D false = true /\
     forall above, (above <= level)%nat ->
       nth cell (nth above cellMask3D []) false = true) /\
    (nth cell cellMask2D false = true ->
     nth cell (nth 0 cellMask3D []) false = true).
Proof.
  intros Hc Hl.
  set (m2 := tabulate (nCells dsMesh) (fun c => (0 <? maxLevelCell dsMesh c)%Z)).
  set (m3 := tabulate (nVertLevels dsMesh) (fun k =>
               tabulate (nCells dsMesh)
                 (fun c => (Z.of_nat k <? maxLevelCell dsMesh c)%Z))).
  assert (E : get_cell_masks dsMesh = Ok (m2, m3)).
  { unfold get_cell_masks, m2, m3, tabulate. now rewrite map_map. }
  assert (H2 : nth cell m2 false = (0 <? maxLevelCell dsMesh cell)%Z).
  { apply nth_error_nth. unfold m2. now rewrite nth_error_tabulate. }
  assert (H3 : forall k, (k < nVertLevels dsMesh)%nat ->
            nth cell (nth k m3 []) false
            = (Z.of_nat k <? maxLevelCell dsMesh cell)%Z).
  { intros k Hk.
    rewrite (nth_error_nth m3 k [] (nth_error_tabulate _ _ _ Hk)).
    apply nth_error_nth. now rewrite nth_error_tabulate. }
  exists m2, m3. split; [exact E |]. split.
  - rewrite (H3 level Hl), H2. intros Hv. apply Z.ltb_lt in Hv. split.
    + apply Z.ltb_lt. lia.
    + intros above Ha. rewrite (H3 above) by lia. apply Z.ltb_lt. lia.
  - rewrite H2, (H3 0%nat) by lia. trivial.
Qed.

Lemma cell_masks_consistent_witness :
  (0 < nCells channel_mesh)%nat /\ (1 < nVertLevels channel_mesh)%nat /\
  exists cellMask2D cellMask3D,
    get_cell_masks channel_mesh = Ok (cellMask2D, cellMask3D) /\
    nth 0 (nth 1 cellMask3D []) false = true /\
    nth 0 cellMask2D false = true /\
    nth 0 (nth 0 cellMask3D []) false = true.
Proof.
  assert (Hc : (0 < nCells channel_mesh)%nat) by (simpl; lia).
  assert (Hl : (1 < nVertLevels channel_mesh)%nat) by (simpl; lia).
  split; [exact Hc |]. split; [exact Hl |].
  destruct (cell_masks_consistent channel_mesh 0 1 Hc Hl)
    as (m2 & m3 & E & Hdown & _).
  assert (Hv : nth 0 (nth 1 m3 []) false = true).
  { pose proof E as E'. vm_compute in E'. injection E' as _ E3.
    rewrite <- E3. reflexivity. }
  exists m2, m3. split; [exact E |]. split; [exact Hv |].
  destruct (Hdown Hv) as [H2 Habove]. split; [exact H2 |].
  apply Habove. lia.
Defined.

(** ** Masking and renormalising datasets *)

(** [add_mask] sets a variable that has the dimensions of the mask to 0
    where the mask is false and leaves it alone where the mask is true; a
    variable that lacks one of the dimensions is not touched; and the
    dataset gains the variable [cellMask], 1 where the mask is true and 0
    elsewhere. *)
Theorem add_mask_values (ds : gmap string DataArray) (mask : MaskArray)
    (name : string) (var : DataArray) :
  ds !! name = Some var -> name <> "cellMask"%string ->
  (exists var',
     add_mask ds mask !! name = Some var' /\ dims var' = dims var /\
     forall pos,
       data var' pos =
       if has_dims (mask_dims mask) (dims var) && negb (mask_at mask pos)
       then Some 0%Q else data var pos) /\
  (exists cellMask,
     add_mask ds mask !! "cellMask"%string = Some cellMask /\
     dims cellMask = mask_dims mask /\
     forall pos, exists v,
       data cellMask pos = Some v /\
       (v == if mask_at mask pos then 1 else 0)%Q).
Proof.
  intros Hvar Hname. unfold add_mask. split.
  - rewrite lookup_insert_ne by congruence.
    rewrite lookup_fmap, Hvar. cbn [fmap option_fmap option_map].
    eexists. split; [reflexivity |].
    destruct (has_dims (mask_dims mask) (dims var)); cbn [andb].
    + split; [reflexivity |]. intros pos. cbn [where_other data].
      now destruct (mask_at mask pos).
    + split; reflexivity.
  - rewrite lookup_insert_eq. eexists. split; [reflexivity |].
    split; [reflexivity |]. intros pos. eexists. split; [reflexivity |].
    destruct (mask_at mask pos); cbn [bool_to_Q]; ring.
Qed.

Lemma add_mask_values_witness :
  exists var' cellMask v,
    add_mask sample_dataset first_cell_only !! "tos"%string = Some var' /\
    data var' (at_index origin "nCells" 1) = Some 0%Q /\
    data var' origin = data surface_field origin /\
    add_mask sample_dataset first_cell_only !! "cellMask"%string
      = Some cellMask /\
    data cellMask origin = Some v /\ (v == 1)%Q.
Proof.
  assert (Hv : sample_dataset !! "tos"%string = Some surface_field)
    by reflexivity.
  destruct (add_mask_values sample_dataset first_cell_only "tos"
              surface_field Hv ltac:(discriminate))
    as [(var' & E & _ & Hd) (cm & Ec & _ & Hc)].
  destruct (Hc origin) as (v & Hv1 & Hv2).
  exists var', cm, v. split; [exact E |].
  split; [now rewrite Hd |]. split; [now rewrite Hd |].
  split; [exact Ec |]. split; [exact Hv1 | exact Hv2].
Defined.

(** [add_si_mask] zeroes every masked variable, and [cellMask], wherever
    the sea-ice concentration is missing or not above the threshold,
    whatever the mask says there. *)
Theorem add_si_mask_no_ice (ds : gmap string DataArray) (mask : MaskArray)
    (siconc : DataArray) (threshold : Q) (name : string) (var : DataArray)
    (pos : position) :
  ds !! name = Some var -> name <> "cellMask"%string ->
  has_dims (broadcast_dims (mask_dims mask) (dims siconc)) (dims var) = true ->
  match data siconc pos with
  | Some v => (v <= threshold)%Q
  | None => True
  end ->
  exists var' cellMask v,
    add_si_mask ds mask siconc threshold !! name = Some var' /\
    data var' pos = Some 0%Q /\
    add_si_mask ds mask siconc threshold !! "cellMask"%string
      = Some cellMask /\
    data cellMask pos = Some v /\ (v == 0)%Q.
Proof.
  intros Hvar Hname Hd Hice. unfold add_si_mask.
  assert (Hm : mask_at (si_mask mask siconc threshold) pos = false).
  { cbn [si_mask mask_at]. destruct (data siconc pos) as [v |];
      [| apply andb_false_r].
    unfold Qlt_bool. apply Qle_bool_iff in Hice. rewrite Hice.
    apply andb_false_r. }
  eexists. eexists. eexists.
  rewrite lookup_insert_ne by congruence.
  rewrite lookup_fmap, Hvar. cbn [fmap option_fmap option_map].
  split; [reflexivity |].
  cbn [si_mask mask_dims]. rewrite Hd. cbn [where_other data].
  split; [now rewrite Hm |].
  rewrite lookup_insert_eq. split; [reflexivity |].
  cbn [mask_as_float data]. split; [reflexivity |].
  rewrite Hm. cbn [bool_to_Q]. ring.
Qed.

Lemma add_si_mask_no_ice_witness :
  exists var' cellMask v,
    add_si_mask sample_dataset first_cell_only thin_ice (5 # 100)
      !! "tos"%string = Some var' /\
    data var' origin = Some 0%Q /\
    add_si_mask sample_dataset first_cell_only thin_ice (5 # 100)
      !! "cellMask"%string = Some cellMask /\
    data cellMask origin = Some v /\ (v == 0)%Q.
Proof.
  apply (add_si_mask_no_ice sample_dataset first_cell_only thin_ice (5 # 100)
           "tos" surface_field origin).
  - reflexivity.
  - discriminate.
  - reflexivity.
  - vm_compute. discriminate.
Defined.

(** The renormalisation at the end of [remap]: a dataset without
    [cellMask] is returned as it is; otherwise [cellMask] is dropped, and a
    variable with the dimensions of [cellMask] is, at every point, its value
    times [1/cellMask] where [cellMask] is above the threshold and missing
    where it is not (a point exactly at the threshold is missing); so a
    value [v] under a coverage [f] above the threshold comes out as
    [v / f]. *)
Theorem mask_and_normalize_values (ds : gmap string DataArray)
    (threshold : Q) :
  (ds !! "cellMask"%string = None -> mask_and_normalize ds threshold = ds) /\
  (forall cellMask,
     ds !! "cellMask"%string = Some cellMask ->
     mask_and_normalize ds threshold !! "cellMask"%string = None /\
     forall name var,
       ds !! name = Some var -> name <> "cellMask"%string ->
       (has_dims (dims cellMask) (dims var) = false ->
        mask_and_normalize ds threshold !! name = Some var) /\
       (has_dims (dims cellMask) (dims var) = true ->
        exists var',
          mask_and_normalize ds threshold !! name = Some var' /\
          dims var' = dims var /\
          forall pos,
            (forall f, data cellMask pos = Some f -> (f <= threshold)%Q ->
               data var' pos = None) /\
            (data cellMask pos = None -> data var' pos = None) /\
            (forall f v, data cellMask pos = Some f -> (threshold < f)%Q ->
               (0 <= threshold)%Q -> data var pos = Some v ->
               exists y, data var' pos = Some y /\ (y == v / f)%Q))).
Proof.
  split.
  - intros H. unfold mask_and_normalize. now rewrite H.
  - intros cellMask Hcm. unfold mask_and_normalize. rewrite Hcm. split.
    + now rewrite lookup_fmap, lookup_delete_eq.
    + intros name var Hvar Hname.
      rewrite lookup_fmap, lookup_delete_ne, Hvar by congruence.
      cbn [fmap option_fmap option_map mask_dims]. split.
      * now intros ->.
      * intros ->. eexists. split; [reflexivity |].
        split; [reflexivity |]. intros pos.
        cbn [data where_nan mask_at]. split; [| split].
        -- intros f Hf Hle. rewrite Hf. unfold Qlt_bool.
           apply Qle_bool_iff in Hle. now rewrite Hle.
        -- now intros ->.
        -- intros f v Hf Hlt H0 Hx. rewrite Hf, Hx. unfold Qlt_bool.
           assert (Hb : Qle_bool f threshold = false).
           { destruct (Qle_bool f threshold) eqn:E; [| reflexivity].
             apply Qle_bool_iff in E. lra. }
           rewrite Hb. cbn [negb option_map nan_mul].
           eexists. split; [reflexivity |]. field. lra.
Qed.

Lemma mask_and_normalize_values_witness :
  exists var' y,
    mask_and_normalize half_covered (5 # 100) !! "tos"%string = Some var' /\
    mask_and_normalize half_covered (5 # 100) !! "cellMask"%string = None /\
    data var' origin = Some y /\ (y == 8)%Q.
Proof.
  destruct (mask_and_normalize_values half_covered (5 # 100)) as [_ H].
  destruct (H {| dims := ["lat"; "lon"]%string;
                 data := fun _ => Some (1 # 2)%Q |} ltac:(reflexivity))
    as [Hc Hv].
  destruct (Hv "tos"%string
              {| dims := ["time"; "lat"; "lon"]%string;
                 data := fun _ => Some 4%Q |}
              ltac:(reflexivity) ltac:(discriminate))
    as [_ Hn].
  destruct (Hn ltac:(reflexivity)) as (var' & E & _ & Hpos).
  destruct (Hpos origin) as (_ & _ & Hx).
  destruct (Hx (1 # 2)%Q 4%Q ltac:(reflexivity) ltac:(reflexivity)
              ltac:(discriminate) ltac:(reflexivity)) as (y & Hy & Hy8).
  exists var', y. split; [exact E |]. split; [exact Hc |].
  split; [exact Hy |]. rewrite Hy8. reflexivity.
Defined.

(** [add_mask] followed by the renormalisation of [remap] (with nothing
    regridded in between, and a threshold in [0, 1)): a variable with the
    dimensions of the mask keeps its values where the mask is true and is
    missing where the mask is false, and [cellMask] is gone. *)
Theorem add_mask_then_normalize (ds : gmap string DataArray)
    (mask : MaskArray) (threshold : Q) (name : string) (var : DataArray) :
  (0 <= threshold)%Q -> (threshold < 1)%Q ->
  ds !! name = Some var -> name <> "cellMask"%string ->
  has_dims (mask_dims mask) (dims var) = true ->
  mask_and_normalize (add_mask ds mask) threshold !! "cellMask"%string = None /\
  exists var',
    mask_and_normalize (add_mask ds mask) threshold !! name = Some var' /\
    forall pos,
      if mask_at mask pos
      then match data var pos with
           | Some x => exists y, data var' pos = Some y /\ (y == x)%Q
           | None => data var' pos = None
           end
      else data var' pos = None.
Proof.
  intros H0 H1 Hvar Hname Hd.
  assert (Hcm : add_mask ds mask !! "cellMask"%string
                = Some (mask_as_float mask))
    by (unfold add_mask; apply lookup_insert_eq).
  assert (Hv : add_mask ds mask !! name = Some (where_other var mask 0)).
  { unfold add_mask. rewrite lookup_insert_ne by congruence.
    rewrite lookup_fmap, Hvar. cbn [fmap option_fmap option_map].
    now rewrite Hd. }
  unfold mask_and_normalize. rewrite Hcm. split.
  - now rewrite lookup_fmap, lookup_delete_eq.
  - rewrite lookup_fmap, lookup_delete_ne, Hv by congruence.
    cbn [fmap option_fmap option_map mask_dims mask_as_float dims where_other].
    rewrite Hd. eexists. split; [reflexivity |]. intros pos.
    cbn [data where_nan mask_at mask_as_float where_other]. unfold Qlt_bool.
    destruct (mask_at mask pos); cbn [bool_to_Q].
    + assert (Hb : Qle_bool (1 * 1) threshold = false).
      { destruct (Qle_bool (1 * 1) threshold) eqn:E; [| reflexivity].
        apply Qle_bool_iff in E. lra. }
      rewrite Hb. cbn [negb option_map].
      destruct (data var pos) as [x |]; cbn [nan_mul]; [| reflexivity].
      eexists. split; [reflexivity |]. field.
    + assert (Hb : Qle_bool (1 * 0) threshold = true).
      { apply Qle_bool_iff. lra. }
      rewrite Hb. reflexivity.
Qed.

Lemma add_mask_then_normalize_witness :
  exists var' y,
    mask_and_normalize (add_mask sample_dataset first_cell_only) (5 # 100)
      !! "tos"%string = Some var' /\
    data var' origin = Some y /\ (y == 7)%Q /\
    data var' (at_index origin "nCells" 1) = None.
Proof.
  destruct (add_mask_then_normalize sample_dataset first_cell_only (5 # 100)
              "tos" surface_field)
    as (_ & var' & E & Hpos);
    [discriminate | reflexivity | reflexivity | discriminate | reflexivity |].
  pose proof (Hpos origin) as H1. cbn in H1. destruct H1 as (y & Hy & Hy7).
  pose proof (Hpos (at_index origin "nCells" 1)) as H2. cbn in H2.
  exists var', y. split; [exact E |]. split; [exact Hy |].
  split; [exact Hy7 | exact H2].
Defined.

(** ** Values at the sea floor *)

Lemma Qsum_snoc (xs : list Q) (x : Q) : (Qsum (xs ++ [x]) == Qsum xs + x)%Q.
Proof. unfold Qsum. rewrite fold_left_app. reflexivity. Qed.

Lemma tabulate_S {A : Type} (f : nat -> A) (n : nat) :
  tabulate (S n) f = tabulate n f ++ [f n].
Proof. unfold tabulate. now rewrite seq_S, map_app. Qed.

(** The sum over a column in which one level at most is not missing. *)
Lemma sum_skipna_single (f : nat -> option Q) (j : Z) (n : nat) :
  (sum_skipna (tabulate n (fun k => if (j =? Z.of_nat k)%Z then f k else None))
   == if ((0 <=? j) && (j <? Z.of_nat n))%Z then or_zero (f (Z.to_nat j))
      else 0)%Q.
Proof.
  unfold sum_skipna. induction n as [| n IH].
  - change (Z.of_nat 0) with 0%Z.
    destruct (Z.leb_spec 0 j), (Z.ltb_spec j 0); cbn [andb];
      try reflexivity; lia.
  - rewrite tabulate_S, map_app. cbn [map]. rewrite Qsum_snoc, IH.
    destruct (Z.eqb_spec j (Z.of_nat n)) as [-> | Hne].
    + rewrite Nat2Z.id.
      replace (0 <=? Z.of_nat n)%Z with true by (symmetry; apply Z.leb_le; lia).
      replace (Z.of_nat n <? Z.of_nat n)%Z with false
        by (symmetry; apply Z.ltb_ge; lia).
      replace (Z.of_nat n <? Z.of_nat (S n))%Z with true
        by (symmetry; apply Z.ltb_lt; lia).
      cbn [andb]. unfold or_zero. destruct (f n); ring.
    + destruct (0 <=? j)%Z eqn:H0; cbn [andb]; [| ring].
      destruct (Z.ltb_spec j (Z.of_nat n)), (Z.ltb_spec j (Z.of_nat (S n)));
        try ring; lia.
Qed.

Lemma filter_drops_dim (dim : string) (ds : list string) :
  existsb (String.eqb dim)
    (List.filter (fun d => negb (String.eqb d dim)) ds) = false.
Proof.
  induction ds as [| d r IH]; [reflexivity |]. cbn [List.filter].
  destruct (String.eqb_spec d dim) as [-> | Hd]; cbn [negb]; [exact IH |].
  cbn [existsb]. rewrite IH.
  destruct (String.eqb_spec dim d); [congruence | reflexivity].
Qed.

(** [get_sea_floor_values] replaces a variable that has the dimensions
    [nVertLevels] and [nCells] by its value at level [maxLevelCell - 1] of
    each cell (0 if that value is missing); a cell whose [maxLevelCell] is
    not positive gets the missing value, and a cell whose [maxLevelCell]
    is beyond the last level gets 0.  A variable without one of the two
    dimensions is returned as it is. *)
Theorem sea_floor_values (ds : gmap string DataArray) (dsMesh : Mesh)
    (name : string) (var : DataArray) :
  ds !! name = Some var ->
  ((existsb (String.eqb "nVertLevels") (dims var)
    && existsb (String.eqb "nCells") (dims var) = false) ->
   get_sea_floor_values ds dsMesh !! name = Some var) /\
  ((existsb (String.eqb "nVertLevels") (dims var)
    && existsb (String.eqb "nCells") (dims var) = true) ->
   exists var',
     get_sea_floor_values ds dsMesh !! name = Some var' /\
     existsb (String.eqb "nVertLevels") (dims var') = false /\
     forall pos,
       let bottom := maxLevelCell dsMesh (pos "nCells"%string) in
       ((bottom <= 0)%Z -> data var' pos = None) /\
       ((1 <= bottom <= Z.of_nat (nVertLevels dsMesh))%Z ->
        exists v,
          data var' pos = Some v /\
          (v == or_zero
                  (data var (at_index pos "nVertLevels"
                               (Z.to_nat (bottom - 1)))))%Q) /\
       ((Z.of_nat (nVertLevels dsMesh) < bottom)%Z ->
        exists v, data var' pos = Some v /\ (v == 0)%Q)).
Proof.
  intros Hvar. unfold get_sea_floor_values.
  rewrite lookup_fmap, Hvar. cbn [fmap option_fmap option_map].
  unfold sea_floor_variable. split.
  - intros H. rewrite <- negb_andb, H. reflexivity.
  - intros H. rewrite <- negb_andb, H. cbn [negb].
    eexists. split; [reflexivity |]. cbn [dims data]. split.
    { apply filter_drops_dim. }
    intros pos. cbv zeta.
    set (bottom := maxLevelCell dsMesh (pos "nCells"%string)).
    assert (Hcell : forall k,
              at_index pos "nVertLevels" k "nCells"%string = pos "nCells"%string)
      by reflexivity.
    assert (Hlev : forall k,
              at_index pos "nVertLevels" k "nVertLevels"%string = k).
    { intros k. unfold at_index. now rewrite String.eqb_refl. }
    assert (Hsum :
      (sum_skipna
         (tabulate (nVertLevels dsMesh) (fun k =>
            if (maxLevelCell dsMesh
                  (at_index pos "nVertLevels" k "nCells"%string) - 1
                =? Z.of_nat (at_index pos "nVertLevels" k "nVertLevels"%string))%Z
            then data var (at_index pos "nVertLevels" k) else None))
       == if ((0 <=? bottom - 1) && (bottom - 1 <? Z.of_nat (nVertLevels dsMesh)))%Z
          then or_zero (data var (at_index pos "nVertLevels"
                                    (Z.to_nat (bottom - 1))))
          else 0)%Q).
    { rewrite <- (sum_skipna_single
                    (fun k => data var (at_index pos "nVertLevels" k))).
      unfold tabulate. erewrite map_ext; [reflexivity |].
      intros k. cbv beta. now rewrite Hcell, Hlev. }
    split; [| split].
    + intros Hb. destruct (Z.ltb_spec 0 bottom); [lia | reflexivity].
    + intros Hb. destruct (Z.ltb_spec 0 bottom); [| lia].
      eexists. split; [reflexivity |]. rewrite Hsum.
      destruct (Z.leb_spec 0 (bottom - 1)); [| lia].
      destruct (Z.ltb_spec (bottom - 1) (Z.of_nat (nVertLevels dsMesh)));
        [reflexivity | lia].
    + intros Hb. destruct (Z.ltb_spec 0 bottom); [| lia].
      eexists. split; [reflexivity |]. rewrite Hsum.
      destruct (Z.ltb_spec (bottom - 1) (Z.of_nat (nVertLevels dsMesh)));
        [lia |].
      now rewrite andb_false_r.
Qed.

Lemma sea_floor_values_witness :
  exists var' v,
    get_sea_floor_values {[ "temperature"%string := layered_field ]}
      channel_mesh !! "temperature"%string = Some var' /\
    data var' origin = Some v /\ (v == 10)%Q /\
    data var' (at_index origin "nCells" 1) = None.
Proof.
  destruct (sea_floor_values {[ "temperature"%string := layered_field ]}
              channel_mesh "temperature" layered_field
              ltac:(apply lookup_singleton_eq))
    as [_ H].
  destruct (H ltac:(reflexivity)) as (var' & E & _ & Hpos).
  destruct (Hpos origin) as (_ & Hbottom & _).
  destruct (Hbottom ltac:(vm_compute; split; discriminate)) as (v & Hv & Hv10).
  destruct (Hpos (at_index origin "nCells" 1)) as (Hland & _ & _).
  exists var', v. split; [exact E |]. split; [exact Hv |].
  split; [rewrite Hv10; reflexivity |].
  apply Hland. vm_compute. discriminate.
Defined.

(** ** More on the interpolation to cells *)

(** A vertex id beyond the vertices of the mesh (or, after the subtraction
    of 1, below [-nVertices]) in a slot of a cell is an [IndexError], and
    nothing is interpolated. *)
Theorem interp_index_error (dsMesh : Mesh) (nTime : nat)
    (varOnVertices : nat -> nat -> Q) (cell iVertex : nat) :
  (cell < nCells dsMesh)%nat -> (iVertex < maxEdges dsMesh)%nat ->
  (Z.of_nat (nVertices dsMesh) < verticesOnCell dsMesh cell iVertex \/
   verticesOnCell dsMesh cell iVertex - 1 < - Z.of_nat (nVertices dsMesh))%Z ->
  interp_vertex_to_cell dsMesh nTime varOnVertices = Raise IndexError.
Proof.
  intros Hc Hs Hbad. unfold interp_vertex_to_cell.
  assert (E : connectivity_in_range dsMesh = false).
  { destruct (connectivity_in_range dsMesh) eqn:E; [| reflexivity].
    unfold connectivity_in_range in E.
    rewrite forallb_forall in E.
    specialize (E cell ltac:(apply in_seq; lia)).
    rewrite forallb_forall in E.
    specialize (E iVertex ltac:(apply in_seq; lia)).
    unfold np_in_range, vertex_index in E.
    apply andb_true_iff in E as [E1 E2].
    apply Z.leb_le in E1. apply Z.ltb_lt in E2. lia. }
  now rewrite E.
Qed.

Lemma interp_index_error_witness :
  interp_vertex_to_cell broken_square_mesh 1 ones_on_vertices
  = Raise IndexError.
Proof.
  apply (interp_index_error broken_square_mesh 1 ones_on_vertices 0 3).
  - simpl. lia.
  - simpl. lia.
  - left. simpl. lia.
Defined.

Lemma interp_value (dsMesh : Mesh) (nTime : nat) (f : nat -> nat -> Q) F t cell :
  interp_vertex_to_cell dsMesh nTime f = Ok F ->
  (t < nTime)%nat -> (cell < nCells dsMesh)%nat ->
  nth cell (nth t F []) 0%Q =
  Qsum (tabulate (maxEdges dsMesh) (fun iVertex =>
          f t (np_wrap (nVertices dsMesh) (vertex_index dsMesh cell iVertex))
          * weights dsMesh cell iVertex)%Q).
Proof.
  unfold interp_vertex_to_cell. intros H Ht Hc.
  destruct (connectivity_in_range dsMesh); [| discriminate].
  injection H as <-.
  rewrite (nth_error_nth _ t [] (nth_error_tabulate _ _ _ Ht)).
  now rewrite (nth_error_nth _ cell 0%Q (nth_error_tabulate _ _ _ Hc)).
Qed.

Lemma interp_same_outcome (dsMesh : Mesh) (nTime : nat) (f g : nat -> nat -> Q) F :
  interp_vertex_to_cell dsMesh nTime f = Ok F ->
  exists G, interp_vertex_to_cell dsMesh nTime g = Ok G.
Proof.
  unfold interp_vertex_to_cell.
  destruct (connectivity_in_range dsMesh); [| discriminate].
  intros _. eexists. reflexivity.
Qed.

Lemma fold_left_Qplus_linear {A : Type} (a : Q) (h f g : A -> Q) (l : list A)
    (x y z : Q) :
  (z == a * x + y)%Q -> (forall s, h s == a * f s + g s)%Q ->
  (fold_left Qplus (map h l) z
   == a * fold_left Qplus (map f l) x + fold_left Qplus (map g l) y)%Q.
Proof.
  revert x y z. induction l as [| s r IH]; intros x y z Hz Hh; simpl.
  - exact Hz.
  - apply IH; [| exact Hh]. rewrite Hz, (Hh s). ring.
Qed.

(** The interpolation is linear in the field: the value on a cell for
    [a*f + g] is [a] times the value for [f] plus the value for [g]. *)
Theorem interp_linear (dsMesh : Mesh) (nTime : nat) (a : Q)
    (f g : nat -> nat -> Q) (F G : list (list Q)) :
  interp_vertex_to_cell dsMesh nTime f = Ok F ->
  interp_vertex_to_cell dsMesh nTime g = Ok G ->
  exists H,
    interp_vertex_to_cell dsMesh nTime (fun t v => a * f t v + g t v)%Q = Ok H /\
    forall t cell, (t < nTime)%nat -> (cell < nCells dsMesh)%nat ->
      (nth cell (nth t H []) 0
       == a * nth cell (nth t F []) 0 + nth cell (nth t G []) 0)%Q.
Proof.
  intros HF HG.
  destruct (interp_same_outcome dsMesh nTime f
              (fun t v => a * f t v + g t v)%Q F HF) as [H HH].
  exists H. split; [exact HH |]. intros t cell Ht Hc.
  rewrite (interp_value _ _ _ _ _ _ HH Ht Hc),
          (interp_value _ _ _ _ _ _ HF Ht Hc),
          (interp_value _ _ _ _ _ _ HG Ht Hc).
  unfold Qsum, tabulate. apply fold_left_Qplus_linear; [ring |].
  intros s. ring.
Qed.

Lemma interp_linear_witness :
  exists F G H,
    interp_vertex_to_cell square_mesh 1 ramp_on_vertices = Ok F /\
    interp_vertex_to_cell square_mesh 1 ones_on_vertices = Ok G /\
    interp_vertex_to_cell square_mesh 1
      (fun t v => 2 * ramp_on_vertices t v + ones_on_vertices t v)%Q = Ok H /\
    (nth 0 (nth 0 H []) 0
     == 2 * nth 0 (nth 0 F []) 0 + nth 0 (nth 0 G []) 0)%Q.
Proof.
  assert (HF : exists F, interp_vertex_to_cell square_mesh 1 ramp_on_vertices
                         = Ok F) by (eexists; reflexivity).
  assert (HG : exists G, interp_vertex_to_cell square_mesh 1 ones_on_vertices
                         = Ok G) by (eexists; reflexivity).
  destruct HF as [F HF]. destruct HG as [G HG].
  destruct (interp_linear square_mesh 1 2 ramp_on_vertices ones_on_vertices
              F G HF HG) as (H & HH & Hlin).
  exists F, G, H. split; [exact HF |]. split; [exact HG |].
  split; [exact HH |]. apply Hlin; simpl; lia.
Defined.

(** A slot whose vertex id is 0 (padding) or 1 has weight 0. *)
Lemma masked_slot_weight (dsMesh : Mesh) (cell iVertex : nat) :
  (verticesOnCell dsMesh cell iVertex <= 1)%Z ->
  (weights dsMesh cell iVertex == 0)%Q.
Proof.
  intros Hv. unfold weights, kite_weight.
  replace (0 <? vertex_index dsMesh cell iVertex)%Z with false
    by (symmetry; apply Z.ltb_ge; unfold vertex_index; lia).
  cbn [andb bool_to_Q]. unfold Qdiv.
  rewrite (fold_left_Qplus_zero
             (fun iCell =>
                0 * kiteAreasOnVertex dsMesh
                      (np_wrap (nVertices dsMesh)
                         (vertex_index dsMesh cell iVertex)) iCell)%Q);
    [ring | reflexivity | intros x; ring].
Qed.

(** The value on a cell depends on the field only at the vertices of the
    cell's ring whose id is 2 or more: not at the other vertices of the
    mesh, not at the vertex that padding slots wrap around to, and not at
    the first vertex of the mesh, even when it is on the ring. *)
Theorem interp_local (dsMesh : Mesh) (nTime : nat)
    (f g : nat -> nat -> Q) (F G : list (list Q)) (t cell : nat) :
  interp_vertex_to_cell dsMesh nTime f = Ok F ->
  interp_vertex_to_cell dsMesh nTime g = Ok G ->
  (t < nTime)%nat -> (cell < nCells dsMesh)%nat ->
  (forall iVertex, (iVertex < maxEdges dsMesh)%nat ->
     (2 <= verticesOnCell dsMesh cell iVertex)%Z ->
     (f t (Z.to_nat (verticesOnCell dsMesh cell iVertex - 1))
      == g t (Z.to_nat (verticesOnCell dsMesh cell iVertex - 1)))%Q) ->
  (nth cell (nth t F []) 0 == nth cell (nth t G []) 0)%Q.
Proof.
  intros HF HG Ht Hc Hring.
  rewrite (interp_value _ _ _ _ _ _ HF Ht Hc),
          (interp_value _ _ _ _ _ _ HG Ht Hc).
  unfold tabulate. apply Qsum_ext. intros s Hs. apply in_seq in Hs.
  destruct (Z.le_gt_cases (verticesOnCell dsMesh cell s) 1) as [Hlow | Hhigh].
  - rewrite (masked_slot_weight dsMesh cell s Hlow). ring.
  - unfold np_wrap, vertex_index.
    destruct (Z.ltb_spec (verticesOnCell dsMesh cell s - 1) 0); [lia |].
    rewrite (Hring s) by lia. reflexivity.
Qed.

Lemma interp_local_witness :
  exists F G,
    interp_vertex_to_cell square_mesh 1 ramp_on_vertices = Ok F /\
    interp_vertex_to_cell square_mesh 1 ramp_with_spike = Ok G /\
    (nth 0 (nth 0 F []) 0 == nth 0 (nth 0 G []) 0)%Q.
Proof.
  eexists. eexists. split; [reflexivity |]. split; [reflexivity |].
  eapply (interp_local square_mesh 1 ramp_on_vertices ramp_with_spike).
  - reflexivity.
  - reflexivity.
  - lia.
  - simpl. lia.
  - intros s Hs Hv. simpl in Hv.
    destruct s as [| s]; [lia |].
    unfold ramp_on_vertices, ramp_with_spike. simpl verticesOnCell.
    destruct (Z.to_nat (Z.of_nat (S (S s)) - 1)) eqn:E; [lia | reflexivity].
Defined.

(** ** More on the overturning streamfunction *)

Lemma cumsum_from_zero (xs : list Q) (acc : Q) (i : nat) :
  (acc == 0)%Q -> (forall x, In x xs -> (x == 0)%Q) ->
  (nth i (cumsum_from acc xs) 0 == 0)%Q.
Proof.
  revert acc i. induction xs as [| x r IH]; intros acc i Hacc Hxs.
  - destruct i; reflexivity.
  - assert (Hs : (acc + x == 0)%Q).
    { rewrite Hacc, (Hxs x) by (now left). reflexivity. }
    cbn [cumsum_from]. destruct i as [| i]; cbn [nth]; [exact Hs |].
    apply IH; [exact Hs |]. intros y Hy. apply Hxs. now right.
Qed.

Lemma cumsum_zero (xs : list Q) (i : nat) :
  (forall x, In x xs -> (x == 0)%Q) -> (nth i (cumsum xs) 0 == 0)%Q.
Proof.
  destruct xs as [| x r]; intros Hxs; [destruct i; reflexivity |].
  cbn [cumsum]. destruct i as [| i]; cbn [nth].
  - apply Hxs. now left.
  - apply cumsum_from_zero; [apply Hxs; now left |].
    intros y Hy. apply Hxs. now right.
Qed.

Section MOCStages.

Variable rad2deg : Q -> Q.
Variable nTime : nat.
Variables normalVelocity vertVelocityTop layerThicknessEdge
  : nat -> nat -> nat -> Q.
Variable dsMesh : Mesh.

Local Abbreviation zero_slice := (fun _ _ : nat => 0%Q).

(** The slices after the bins [0, ..., n-1]. *)
Lemma lat_loop_slices cellMask (seed : nat -> nat -> Q) n :
  exists mocSlices binCounts,
    fold_left (lat_step rad2deg vertVelocityTop dsMesh cellMask) (seq 0 n)
      ([seed], []) = (mocSlices, binCounts) /\
    length mocSlices = S n /\
    nth 0 mocSlices zero_slice = seed /\
    forall iLat t j, (iLat < n)%nat ->
      nth (S iLat) mocSlices zero_slice t j
      = (nth iLat mocSlices zero_slice t j
         + bin_flux rad2deg vertVelocityTop dsMesh cellMask iLat t j)%Q.
Proof.
  induction n as [| n IH].
  - exists [seed], []. split; [reflexivity |]. split; [reflexivity |].
    split; [reflexivity |]. intros iLat t j Hi. lia.
  - destruct IH as (sl & bc & E & Hl & H0 & Hrec).
    rewrite seq_S, fold_left_app, E. cbn [fold_left Nat.add lat_step].
    eexists. eexists. split; [reflexivity |].
    split; [rewrite length_app, Hl; simpl; lia |].
    split; [rewrite app_nth1 by lia; exact H0 |].
    intros iLat t j Hi.
    destruct (Nat.eq_dec iLat n) as [-> | Hne].
    + rewrite app_nth2 by lia. rewrite Hl, Nat.sub_diag. cbn [nth].
      rewrite (app_nth1 sl) by lia. reflexivity.
    + rewrite !app_nth1 by lia. apply Hrec. lia.
Qed.

(** The stages of the streamfunction of one basin.  The slices along
    latitude start from [mocSlice] at the southern boundary and each adds
    the flux of one bin to the one before it; the value of a bin that has
    members is the mean of the four slice values at the corners of the
    (level, bin) box. *)
Theorem streamfunction_stages (transport : list (list Q)) (cellMask : nat -> Q) :
  exists mocSlices binCounts,
    lat_loop rad2deg vertVelocityTop dsMesh transport cellMask
    = (mocSlices, binCounts) /\
    length mocSlices = S nLat /\
    nth 0 mocSlices zero_slice = mocSlice transport /\
    (forall iLat t j, (iLat < nLat)%nat ->
       nth (S iLat) mocSlices zero_slice t j
       = (nth iLat mocSlices zero_slice t j
          + bin_flux rad2deg vertVelocityTop dsMesh cellMask iLat t j)%Q) /\
    (forall iLat t k, (iLat < nLat)%nat ->
       (0 < length (bin_cells rad2deg dsMesh cellMask iLat))%nat ->
       region_moc rad2deg vertVelocityTop dsMesh transport cellMask t k iLat
       = Some ((1 # 4) *
               (nth iLat mocSlices zero_slice t k
                + nth (S iLat) mocSlices zero_slice t k
                + nth iLat mocSlices zero_slice t (S k)
                + nth (S iLat) mocSlices zero_slice t (S k)))%Q).
Proof.
  destruct (lat_loop_slices cellMask (mocSlice transport) nLat)
    as (sl & bc & E & Hl & H0 & Hrec).
  destruct (lat_loop_state rad2deg vertVelocityTop dsMesh cellMask nLat 0
              [mocSlice transport] []) as (sl' & E' & _).
  assert (Hbc : bc = map (fun i => length (bin_cells rad2deg dsMesh cellMask i))
                        (seq 0 nLat)).
  { rewrite E in E'. exact (f_equal snd E'). }
  exists sl, bc. unfold lat_loop. split; [exact E |].
  split; [exact Hl |]. split; [exact H0 |]. split; [exact Hrec |].
  intros iLat t k Hi Hpos. unfold region_moc. rewrite E. cbv beta iota.
  rewrite Hbc.
  rewrite (nth_map_seq
             (fun i => length (bin_cells rad2deg dsMesh cellMask i)) nLat iLat Hi).
  destruct (Nat.ltb_spec 0 (length (bin_cells rad2deg dsMesh cellMask iLat)));
    [reflexivity | lia].
Qed.

(** The seed of a basin whose transport is zero, as that of Global is, is
    zero at every time and interface, so its slices hold the accumulated
    fluxes of the bins alone. *)
Theorem zero_transport_seed (t j : nat) :
  (mocSlice (global_transport nTime dsMesh) t j == 0)%Q.
Proof.
  unfold mocSlice, mocSlice_array, global_transport.
  destruct (Nat.lt_ge_cases t nTime) as [Ht | Ht].
  - rewrite (nth_error_nth _ t []
               (eq_trans (nth_error_map _ _ _)
                  (f_equal _ (nth_error_tabulate _ _ _ Ht)))).
    cbn [option_map].
    destruct j as [| j]; [reflexivity |]. cbn [nth].
    apply cumsum_zero. intros x Hx. unfold tabulate in Hx.
    apply in_map_iff in Hx as (_ & <- & _). reflexivity.
  - rewrite (nth_overflow _ []) by (now rewrite length_map, length_tabulate).
    destruct j; reflexivity.
Qed.

End MOCStages.

Lemma lat_edge_value (i : nat) :
  (lat_edge i == inject_Z (Z.of_nat i) - 90)%Q.
Proof. unfold lat_edge, latBinSize. ring. Qed.

Lemma bin_cells_spec (rad2deg : Q -> Q) (dsMesh : Mesh)
    (cellMask : nat -> Q) (iLat cell : nat) :
  In cell (bin_cells rad2deg dsMesh cellMask iLat) <->
  (cell < nCells dsMesh)%nat /\ (cellMask cell == 1)%Q /\
  (inject_Z (Z.of_nat iLat) - 90 <= rad2deg (latCell dsMesh cell))%Q /\
  (rad2deg (latCell dsMesh cell) < inject_Z (Z.of_nat (S iLat)) - 90)%Q.
Proof.
  unfold bin_cells, bin_mask, lat_bnds. cbn [fst snd].
  rewrite filter_In, in_seq, !andb_true_iff, Qeq_bool_iff, Qle_bool_iff.
  unfold Qlt_bool. rewrite negb_true_iff, <- !lat_edge_value.
  assert (Hlt : forall a b : Q, Qle_bool b a = false <-> (a < b)%Q).
  { intros a b. split.
    - intros H. apply Qnot_le_lt. intros Hle. apply Qle_bool_iff in Hle.
      congruence.
    - intros H. destruct (Qle_bool b a) eqn:E; [| reflexivity].
      apply Qle_bool_iff in E. lra. }
  rewrite Hlt. intuition lia.
Qed.

(** The latitude bins are one degree wide, from -90 to 90, each closed at
    its southern bound and open at its northern one.  A cell of the basin
    with a latitude in [-90, 90) is counted in one bin and one only; a cell
    at 90 degrees or beyond, the north pole among them, is counted in no
    bin. *)
Theorem latitude_bin_of_cell (rad2deg : Q -> Q) (dsMesh : Mesh)
    (cellMask : nat -> Q) (cell : nat) :
  (cell < nCells dsMesh)%nat -> (cellMask cell == 1)%Q ->
  ((- (90) <= rad2deg (latCell dsMesh cell))%Q ->
   (rad2deg (latCell dsMesh cell) < 90)%Q ->
   exists iLat,
     (iLat < nLat)%nat /\
     In cell (bin_cells rad2deg dsMesh cellMask iLat) /\
     forall other, In cell (bin_cells rad2deg dsMesh cellMask other) ->
       other = iLat) /\
  ((90 <= rad2deg (latCell dsMesh cell))%Q ->
   forall iLat, (iLat < nLat)%nat ->
     ~ In cell (bin_cells rad2deg dsMesh cellMask iLat)).
Proof.
  intros Hc Hm. set (L := rad2deg (latCell dsMesh cell)). split.
  - intros Hlo Hhi.
    pose proof (Qfloor_le (L + 90)) as Hf1.
    pose proof (Qlt_floor (L + 90)) as Hf2.
    assert (H0 : (0 <= Qfloor (L + 90))%Z).
    { change 0%Z with (Qfloor 0). apply Qfloor_resp_le. lra. }
    assert (H180 : (Qfloor (L + 90) < 180)%Z).
    { rewrite Zlt_Qlt. change (inject_Z 180) with 180%Q. lra. }
    exists (Z.to_nat (Qfloor (L + 90))). split; [unfold nLat; lia |].
    split.
    + apply bin_cells_spec. fold L.
      rewrite Nat2Z.inj_succ, Z2Nat.id by lia. unfold Z.succ.
      rewrite inject_Z_plus in *. change (inject_Z 1) with 1%Q in *.
      repeat split; try assumption; lra.
    + intros other Ho. apply bin_cells_spec in Ho as (_ & _ & Ho1 & Ho2).
      fold L in Ho1, Ho2.
      rewrite Nat2Z.inj_succ in Ho2. unfold Z.succ in Ho2.
      rewrite inject_Z_plus in *. change (inject_Z 1) with 1%Q in *.
      assert (A : (Z.of_nat other < Qfloor (L + 90) + 1)%Z).
      { rewrite Zlt_Qlt. rewrite inject_Z_plus. change (inject_Z 1) with 1%Q.
        lra. }
      assert (B : (Qfloor (L + 90) < Z.of_nat other + 1)%Z).
      { rewrite Zlt_Qlt. rewrite inject_Z_plus. change (inject_Z 1) with 1%Q.
        lra. }
      lia.
  - intros Hpole iLat Hi Hin.
    apply bin_cells_spec in Hin as (_ & _ & _ & Hup). fold L in Hup.
    assert (Hle : (inject_Z (Z.of_nat (S iLat)) <= 180)%Q).
    { change 180%Q with (inject_Z 180). rewrite <- Zle_Qle.
      unfold nLat in Hi. lia. }
    lra.
Qed.

Section MOCErrors.

Variable rad2deg : Q -> Q.
Variable nTime : nat.
Variables normalVelocity vertVelocityTop layerThicknessEdge
  : nat -> nat -> nat -> Q.
Variable dsMesh : Mesh.

Lemma region_transport_raises (dsMask : RegionMask) (g : Z) :
  In g (transectEdgeGlobalIDs dsMask) -> (Z.of_nat (nEdges dsMesh) < g)%Z ->
  region_transport nTime normalVelocity layerThicknessEdge dsMesh dsMask
  = Raise IndexError.
Proof.
  intros Hg Hbig. unfold region_transport.
  destruct (forallb (fun e => (e <? Z.of_nat (nEdges dsMesh))%Z)
              (edgeIndices dsMask)) eqn:E; [| reflexivity].
  rewrite forallb_forall in E.
  assert (Hin : In (g - 1)%Z (edgeIndices dsMask)).
  { unfold edgeIndices. apply in_map_iff. exists g. split; [reflexivity |].
    apply filter_In. split; [exact Hg |]. apply Z.ltb_lt. lia. }
  specialize (E _ Hin). apply Z.ltb_lt in E. lia.
Qed.

Lemma region_transport_exn (dsMask : RegionMask) (e : exn) :
  region_transport nTime normalVelocity layerThicknessEdge dsMesh dsMask
  = Raise e -> e = IndexError.
Proof.
  unfold region_transport.
  destruct (forallb _ _); [discriminate | now intros [= <-]].
Qed.

(** One transect edge id beyond the edges of the mesh, in any region, and
    [_compute_moc_time_series] raises [IndexError]: no basin is computed,
    not even Global. *)
Theorem moc_edge_out_of_range (dsMasks : list RegionMask)
    (dsMask : RegionMask) (g : Z) :
  In dsMask dsMasks -> In g (transectEdgeGlobalIDs dsMask) ->
  (Z.of_nat (nEdges dsMesh) < g)%Z ->
  _compute_moc_time_series rad2deg nTime normalVelocity vertVelocityTop
    layerThicknessEdge dsMesh dsMasks = Raise IndexError.
Proof.
  intros Hin Hg Hbig.
  pose proof (region_transport_raises dsMask g Hg Hbig) as Hr.
  unfold _compute_moc_time_series, transport_and_cellMasks.
  assert (G : forall T C,
            region_loop nTime normalVelocity layerThicknessEdge dsMesh
              dsMasks T C = Raise IndexError).
  { induction dsMasks as [| r0 rest IH]; intros T C; [destruct Hin |].
    cbn [region_loop].
    destruct (region_transport nTime normalVelocity layerThicknessEdge
                dsMesh r0) as [tr |] eqn:E0; cbn [rbind].
    - destruct Hin as [-> | Hin]; [congruence |]. now apply IH.
    - now rewrite (region_transport_exn r0 e E0). }
  destruct (_compute_depth (refBottomDepth dsMesh))
    as [[depth depth_bnds] | e] eqn:ED; cbn [rbind].
  - now rewrite G.
  - now rewrite (compute_depth_exn _ e ED).
Qed.

(** On a mesh without a reference depth, [_compute_moc_time_series]
    raises [IndexError] before any transport is computed: whatever the
    regions and the fields are, no basin comes out. *)
Theorem moc_without_depths (dsMasks : list RegionMask) :
  refBottomDepth dsMesh = [] ->
  _compute_moc_time_series rad2deg nTime normalVelocity vertVelocityTop
    layerThicknessEdge dsMesh dsMasks = Raise IndexError.
Proof.
  intros H. unfold _compute_moc_time_series. rewrite H. reflexivity.
Qed.

End MOCErrors.

Lemma streamfunction_stages_witness :
  (90 < nLat)%nat /\
  (0 < length (bin_cells degrees channel_mesh global_cellMask 90))%nat /\
  exists mocSlices binCounts value,
    lat_loop degrees channel_vertVelocityTop channel_mesh
      (global_transport 1 channel_mesh) global_cellMask
    = (mocSlices, binCounts) /\
    region_moc degrees channel_vertVelocityTop channel_mesh
      (global_transport 1 channel_mesh) global_cellMask 0 0 90 = Some value /\
    nth 91 mocSlices (fun _ _ => 0%Q) 0%nat 0%nat
    = (nth 90 mocSlices (fun _ _ => 0%Q) 0%nat 0%nat
       + bin_flux degrees channel_vertVelocityTop channel_mesh
           global_cellMask 90 0 0)%Q.
Proof.
  assert (Hi : (90 < nLat)%nat) by (unfold nLat; lia).
  assert (Hpos : (0 < length (bin_cells degrees channel_mesh
                                global_cellMask 90))%nat)
    by (vm_compute; lia).
  split; [exact Hi |]. split; [exact Hpos |].
  destruct (streamfunction_stages degrees channel_vertVelocityTop channel_mesh
              (global_transport 1 channel_mesh) global_cellMask)
    as (sl & bc & E & _ & _ & Hrec & Havg).
  exists sl, bc. eexists. split; [exact E |].
  split; [exact (Havg 90%nat 0%nat 0%nat Hi Hpos) |].
  exact (Hrec 90%nat 0%nat 0%nat Hi).
Defined.

Lemma latitude_bin_of_cell_witness :
  (0 < nCells polar_mesh)%nat /\ (global_cellMask 0 == 1)%Q /\
  (exists iLat,
     (iLat < nLat)%nat /\
     In 0%nat (bin_cells degrees polar_mesh global_cellMask iLat)) /\
  ~ In 1%nat (bin_cells degrees polar_mesh global_cellMask 179).
Proof.
  assert (H0 : (0 < nCells polar_mesh)%nat) by (simpl; lia).
  assert (H1 : (1 < nCells polar_mesh)%nat) by (simpl; lia).
  assert (Hm : forall c, (global_cellMask c == 1)%Q) by reflexivity.
  split; [exact H0 |]. split; [exact (Hm 0%nat) |].
  destruct (latitude_bin_of_cell degrees polar_mesh global_cellMask 0
              H0 (Hm 0%nat)) as [Hin _].
  destruct (latitude_bin_of_cell degrees polar_mesh global_cellMask 1
              H1 (Hm 1%nat)) as [_ Hout].
  split.
  - destruct Hin as (iLat & Hi & Hc & _);
      [vm_compute; discriminate | vm_compute; reflexivity |].
    now exists iLat.
  - apply Hout; [vm_compute; discriminate | unfold nLat; lia].
Defined.

Lemma moc_edge_out_of_range_witness :
  _compute_moc_time_series degrees 1 channel_velocity channel_vertVelocityTop
    channel_thickness channel_mesh [strait; strait_off_mesh]
  = Raise IndexError.
Proof.
  apply (moc_edge_out_of_range degrees 1 channel_velocity
           channel_vertVelocityTop channel_thickness channel_mesh
           [strait; strait_off_mesh] strait_off_mesh 3).
  - right. now left.
  - simpl. tauto.
  - simpl. lia.
Defined.

Lemma moc_without_depths_witness :
  _compute_moc_time_series degrees 1 channel_velocity channel_vertVelocityTop
    channel_thickness surface_only_mesh [strait]
  = Raise IndexError.
Proof.
  apply (moc_without_depths degrees 1 channel_velocity
           channel_vertVelocityTop channel_thickness surface_only_mesh
           [strait]).
  reflexivity.
Defined.

(** ** More on the temporary files of [remap] *)

(** A run of [remap] that succeeds leaves the temporary directory as it
    found it. *)
Theorem remap_restores_directory (inFileName outFileName : string)
    (outcome : ncremap_outcome) (fs : gset string) :
  returncode outcome = 0%Z -> wrote_output outcome = true ->
  inFileName <> outFileName ->
  inFileName ∉ fs -> outFileName ∉ fs ->
  remap inFileName outFileName outcome fs = (Ok tt, fs).
Proof.
  intros Hrc Hw Hne Hin Hout.
  unfold remap, io_bind, write_netcdf, run_ncremap.
  rewrite Hrc, Hw. cbn [Z.eqb].
  rewrite open_dataset_present by set_solver.
  rewrite os_remove_present by set_solver.
  rewrite os_remove_present by set_solver.
  f_equal. apply set_eq. intros x.
  rewrite !elem_of_difference, !elem_of_union, !elem_of_singleton.
  split.
  - intros [[[Hx | [Hx | Hx]] Hni] Hno]; [congruence | congruence | exact Hx].
  - intros Hx. split; [split |].
    + right. now right.
    + intros ->. contradiction.
    + intros ->. contradiction.
Qed.

Lemma remap_restores_directory_witness :
  remap "tmpa.nc" "tmpb.nc" clean_run {[ "keep.nc"%string ]}
  = (Ok tt, {[ "keep.nc"%string ]}).
Proof.
  apply remap_restores_directory.
  - reflexivity.
  - reflexivity.
  - discriminate.
  - rewrite elem_of_singleton. discriminate.
  - rewrite elem_of_singleton. discriminate.
Defined.

(** When [ncremap] exits with status 0 but its output file is not there,
    opening it raises and the snapshot stays behind, as after a failure. *)
Theorem remap_missing_output (inFileName outFileName : string)
    (outcome : ncremap_outcome) (fs : gset string) :
  returncode outcome = 0%Z -> wrote_output outcome = false ->
  inFileName <> outFileName -> outFileName ∉ fs ->
  remap inFileName outFileName outcome fs
  = (Raise FileNotFoundError, {[inFileName]} ∪ fs).
Proof.
  intros Hrc Hw Hne Hout.
  unfold remap, io_bind, write_netcdf, run_ncremap.
  rewrite Hrc, Hw. cbn [Z.eqb]. unfold open_dataset.
  rewrite decide_False; [reflexivity |].
  rewrite elem_of_union, elem_of_singleton. intros [-> | H]; contradiction.
Qed.

Lemma remap_missing_output_witness :
  remap "tmpa.nc" "tmpb.nc" silent_run ∅
  = (Raise FileNotFoundError, {[ "tmpa.nc"%string ]} ∪ ∅).
Proof.
  apply remap_missing_output.
  - reflexivity.
  - reflexivity.
  - discriminate.
  - apply not_elem_of_empty.
Defined.

(** ** Writing through CMOR *)

Lemma fill_missing_map (values : list fval) :
  existsb isnan values = true ->
  fill_missing values
  = map (fun v => if isfinite v then v else Finite fillValue) values.
Proof.
  intros H. unfold fill_missing. rewrite H.
  induction values as [| v r IH]; [reflexivity |].
  cbn [map combine fst snd]. f_equal.
  clear H IH. induction r as [| w r IH]; [reflexivity |].
  cbn [map combine fst snd]. now rewrite IH.
Qed.

(** What is handed to [cmor.write] holds no NaN.  When the array has a
    NaN, every value that is not finite, the infinities too, becomes 1e20
    and the finite values stay; when it has none, the array is written as
    it is, infinities included. *)
Theorem fill_missing_values (values : list fval) :
  length (fill_missing values) = length values /\
  Forall (fun v => isnan v = false) (fill_missing values) /\
  (existsb isnan values = true ->
   forall i v, nth_error values i = Some v ->
     nth_error (fill_missing values) i
     = Some (if isfinite v then v else Finite fillValue)) /\
  (existsb isnan values = false -> fill_missing values = values).
Proof.
  destruct (existsb isnan values) eqn:E.
  - rewrite (fill_missing_map values E). split; [apply length_map |].
    split; [| split; [| discriminate]].
    + apply List.Forall_forall. intros v Hv. apply in_map_iff in Hv as (w & <- & _).
      now destruct w.
    + intros _ i v Hi. now rewrite nth_error_map, Hi.
  - unfold fill_missing. rewrite E. split; [reflexivity |].
    split; [| split; [discriminate | reflexivity]].
    apply List.Forall_forall. intros v Hv.
    destruct (isnan v) eqn:Hn; [| reflexivity].
    assert (X : existsb isnan values = true)
      by (apply existsb_exists; now exists v).
    congruence.
Qed.

Lemma fill_missing_values_witness :
  nth_error (fill_missing [Finite 3; NaN; PosInf]) 2 = Some (Finite fillValue) /\
  fill_missing [Finite 3; PosInf] = [Finite 3; PosInf].
Proof.
  destruct (fill_missing_values [Finite 3; NaN; PosInf]) as (_ & _ & H1 & _).
  destruct (fill_missing_values [Finite 3; PosInf]) as (_ & _ & _ & H2).
  split.
  - exact (H1 eq_refl 2%nat PosInf eq_refl).
  - exact (H2 eq_refl).
Defined.

Lemma cmor_axes_ok (lib : cmor_library) (axes : list string)
    (log : list cmor_call) :
  (forall axis, In axis axes -> exists axis_id, axis_result lib axis = Ok axis_id) ->
  exists axis_ids,
    cmor_axes lib axes log = (Ok axis_ids, log ++ map cmor_axis axes) /\
    Forall2 (fun axis axis_id => axis_result lib axis = Ok axis_id)
      axes axis_ids.
Proof.
  revert log. induction axes as [| axis rest IH]; intros log Hok.
  - exists []. split; [simpl; now rewrite app_nil_r | constructor].
  - destruct (Hok axis (or_introl eq_refl)) as [axis_id Hid].
    destruct (IH (log ++ [cmor_axis axis])
                (fun a Ha => Hok a (or_intror Ha))) as (ids & E & Hall).
    exists (axis_id :: ids). cbn [cmor_axes]. rewrite Hid, E. split.
    + cbn [map]. now rewrite <- app_assoc.
    + now constructor.
Qed.

(** Once the CMOR variable exists, [write_cmor] closes it, once and as its
    last call, whether the write goes through or raises; a failing write
    is logged and raised again.  When the variable cannot be created,
    nothing is written and nothing is closed. *)
Theorem write_cmor_calls (lib : cmor_library) (axes : list string)
    (values : list fval) (varname varunits : string) (log : list cmor_call) :
  (forall axis, In axis axes -> exists axis_id, axis_result lib axis = Ok axis_id) ->
  exists axis_ids,
    Forall2 (fun axis axis_id => axis_result lib axis = Ok axis_id)
      axes axis_ids /\
    write_cmor lib axes values varname varunits log =
    match variable_result lib with
    | Raise e =>
        (Raise e,
         log ++ map cmor_axis axes
             ++ [cmor_variable varname varunits axis_ids fillValue])
    | Ok varid =>
        (match close_result lib, write_result lib with
         | Raise e, _ => Raise e
         | Ok _, Raise error => Raise error
         | Ok _, Ok _ => Ok tt
         end,
         log ++ map cmor_axis axes
             ++ [cmor_variable varname varunits axis_ids fillValue;
                 cmor_write varid (fill_missing values)]
             ++ match write_result lib with
                | Ok _ => []
                | Raise _ => [logging_exception]
                end
             ++ [cmor_close varid])
    end.
Proof.
  intros Hok. destruct (cmor_axes_ok lib axes log Hok) as (ids & E & Hall).
  exists ids. split; [exact Hall |]. unfold write_cmor. rewrite E.
  destruct (variable_result lib) as [varid | e].
  - destruct (write_result lib) as [[] | error],
             (close_result lib) as [[] | e'];
      cbn [app]; repeat rewrite <- app_assoc; reflexivity.
  - now rewrite <- app_assoc.
Qed.

Lemma write_cmor_calls_witness :
  write_cmor failing_write ["time"; "latitude"]%string [Finite 1; NaN]
    "tos" "degC" []
  = (Raise ValueError,
     [cmor_axis "time"; cmor_axis "latitude";
      cmor_variable "tos" "degC" [0; 0]%Z fillValue;
      cmor_write 7 [Finite 1; Finite fillValue];
      logging_exception; cmor_close 7]).
Proof.
  destruct (write_cmor_calls failing_write ["time"; "latitude"]%string
              [Finite 1; NaN] "tos" "degC" [])
    as (ids & Hids & E); [intros axis _; now exists 0%Z |].
  rewrite E.
  inversion Hids as [| a id r ids' H1 Hr]; subst.
  inversion Hr as [| a2 id2 r2 ids2 H2 Hr2]; subst.
  inversion Hr2; subst.
  injection H1 as <-. injection H2 as <-. reflexivity.
Defined.

(** ** Keeping the listed variables *)

Section OpenMfdatasetProperties.

Variable var_coords : string -> gset string.

(** With a list of variables, [open_mfdataset] keeps the data variables
    that are listed and drops the others; a listed name that the dataset
    does not have is passed over without an error; and a coordinate stays
    exactly when it goes with one of the variables that are kept.  (No
    data variable bears the name of a coordinate.) *)
Theorem open_mfdataset_keeps_listed (ds : Dataset) (variableList : list string) :
  dom (data_vars ds) ## coords ds ->
  (forall name,
     data_vars (open_mfdataset var_coords ds (Some variableList)) !! name
     = if decide (name ∈ variableList) then data_vars ds !! name else None) /\
  (forall c,
     c ∈ coords (open_mfdataset var_coords ds (Some variableList)) <->
     c ∈ coords ds /\
     exists name, name ∈ variableList /\ is_Some (data_vars ds !! name) /\
                  c ∈ var_coords name).
Proof.
  intros Hdisj. cbn [open_mfdataset].
  set (dropvars := dom (data_vars ds) ∖ list_to_set variableList).
  assert (Hkept : forall name,
            data_vars (drop ds dropvars) !! name
            = if decide (name ∈ variableList) then data_vars ds !! name
              else None).
  { intros name. cbn [drop data_vars]. rewrite map_lookup_filter.
    destruct (data_vars ds !! name) as [v |] eqn:E; cbn;
      [| now destruct (decide (name ∈ variableList))].
    unfold dropvars.
    destruct (decide (name ∈ variableList)) as [Hin | Hnin].
    - rewrite option_guard_True; [reflexivity |].
      rewrite elem_of_difference, elem_of_list_to_set. tauto.
    - rewrite option_guard_False; [reflexivity |].
      intros Hn. apply Hn.
      rewrite elem_of_difference, elem_of_list_to_set, elem_of_dom.
      split; [now exists v | exact Hnin]. }
  assert (Hcoords : coords (drop ds dropvars) = coords ds).
  { cbn [drop coords]. apply set_eq. intros c.
    rewrite elem_of_difference. unfold dropvars.
    rewrite elem_of_difference. split; [tauto |].
    intros Hc. split; [exact Hc |]. intros [Hd _].
    exact (Hdisj c Hd Hc). }
  set (kept := ⋃ map var_coords (elements (dom (data_vars (drop ds dropvars))))).
  assert (Hk : forall c, c ∈ kept <->
            exists name, name ∈ variableList /\
                         is_Some (data_vars ds !! name) /\ c ∈ var_coords name).
  { intros c. unfold kept. rewrite elem_of_union_list. split.
    - intros (X & HX & Hc). apply list_elem_of_In, in_map_iff in HX
        as (name & <- & Hn).
      apply list_elem_of_In, elem_of_elements, elem_of_dom in Hn.
      rewrite Hkept in Hn.
      destruct (decide (name ∈ variableList)); [| now destruct Hn].
      now exists name.
    - intros (name & Hl & Hs & Hc). exists (var_coords name).
      split; [| exact Hc].
      apply list_elem_of_In, in_map_iff. exists name. split; [reflexivity |].
      apply list_elem_of_In, elem_of_elements, elem_of_dom.
      rewrite Hkept. now destruct (decide (name ∈ variableList)). }
  split.
  - intros name.
    change (filter (fun kv : string * DataArray =>
                      kv.1 ∉ coords (drop ds dropvars) ∖ kept)
              (data_vars (drop ds dropvars)) !! name
            = if decide (name ∈ variableList) then data_vars ds !! name
              else None).
    rewrite map_lookup_filter, Hkept.
    destruct (decide (name ∈ variableList)) as [Hin | Hnin]; [| reflexivity].
    destruct (data_vars ds !! name) as [v |] eqn:E; [| reflexivity].
    cbn. rewrite option_guard_True; [reflexivity |].
    rewrite !elem_of_difference. intros [[Hc _] _].
    apply (Hdisj name); [apply elem_of_dom; now exists v | exact Hc].
  - intros c.
    change (c ∈ coords (drop ds dropvars) ∖ (coords (drop ds dropvars) ∖ kept)
            <-> c ∈ coords ds /\
                exists name, name ∈ variableList /\
                             is_Some (data_vars ds !! name) /\
                             c ∈ var_coords name).
    rewrite Hcoords, !elem_of_difference, <- Hk.
    split; [intros [Hc Hn] | intros [Hc Hkc]].
    + split; [exact Hc |]. destruct (decide (c ∈ kept)); [assumption |].
      exfalso. apply Hn. now split.
    + split; [exact Hc |]. intros [_ Hn]. contradiction.
Qed.

End OpenMfdatasetProperties.

Lemma open_mfdataset_keeps_listed_witness :
  dom (data_vars ocean_dataset) ## coords ocean_dataset /\
  data_vars (open_mfdataset ocean_coords ocean_dataset
               (Some ["temperature"; "salinity"]%string)) !! "ssh"%string
  = None /\
  data_vars (open_mfdataset ocean_coords ocean_dataset
               (Some ["temperature"; "salinity"]%string)) !! "temperature"%string
  = Some layered_field /\
  "lonCell"%string ∉ coords (open_mfdataset ocean_coords ocean_dataset
                               (Some ["temperature"; "salinity"]%string)).
Proof.
  assert (Hd : dom (data_vars ocean_dataset) ## coords ocean_dataset).
  { cbn [ocean_dataset data_vars coords].
    rewrite dom_insert_L, dom_singleton_L. apply elem_of_disjoint.
    intros x Hx Hc. set_unfold.
    destruct Hx as [-> | ->]; destruct Hc as [[Hc | Hc] | Hc];
      discriminate Hc. }
  split; [exact Hd |].
  destruct (open_mfdataset_keeps_listed ocean_coords ocean_dataset
              ["temperature"; "salinity"]%string Hd) as [Hv Hc].
  split; [| split].
  - rewrite Hv. rewrite decide_False; [reflexivity |].
    rewrite !elem_of_cons, elem_of_nil. intros [H | [H | []]]; discriminate H.
  - rewrite Hv. rewrite decide_True by (left). reflexivity.
  - rewrite Hc. intros (_ & name & Hl & [v Hs] & Hin).
    rewrite !elem_of_cons, elem_of_nil in Hl.
    destruct Hl as [-> | [-> | []]].
    + unfold ocean_coords in Hin. cbn in Hin.
      rewrite !elem_of_union, !elem_of_singleton in Hin.
      destruct Hin as [H | H]; discriminate H.
    + discriminate Hs.
Defined.

(** ** Thickness on the edges *)

(** The thickness on an edge is the mean of the thickness of its two
    cells.  On an edge of the boundary, whose second cell id is 0, the
    index -1 that the subtraction leaves reads the last cell of the mesh:
    the edge gets the mean of its own cell and that last cell. *)
Theorem boundary_edge_thickness (nCells : nat) (cellsOnEdge : nat -> nat -> Z)
    (layerThickness : nat -> nat -> nat -> Q) (t e k : nat) :
  (1 <= cellsOnEdge e 0%nat <= Z.of_nat nCells)%Z ->
  ((1 <= cellsOnEdge e 1%nat <= Z.of_nat nCells)%Z ->
   layerThicknessEdge_of nCells cellsOnEdge layerThickness t e k
   = ((1 # 2) * (layerThickness t (Z.to_nat (cellsOnEdge e 0%nat - 1)) k
                 + layerThickness t (Z.to_nat (cellsOnEdge e 1%nat - 1)) k))%Q) /\
  (cellsOnEdge e 1%nat = 0%Z ->
   layerThicknessEdge_of nCells cellsOnEdge layerThickness t e k
   = ((1 # 2) * (layerThickness t (Z.to_nat (cellsOnEdge e 0%nat - 1)) k
                 + layerThickness t (nCells - 1)%nat k))%Q).
Proof.
  intros H0. unfold layerThicknessEdge_of, np_wrap.
  destruct (Z.ltb_spec (cellsOnEdge e 0%nat - 1) 0) as [Hneg | _]; [lia |].
  split.
  - intros H1.
    destruct (Z.ltb_spec (cellsOnEdge e 1%nat - 1) 0) as [Hneg | _]; [lia |].
    reflexivity.
  - intros ->. change (0 - 1 <? 0)%Z with true. cbv iota.
    replace (Z.to_nat (Z.of_nat nCells + (0 - 1))) with (nCells - 1)%nat by lia.
    reflexivity.
Qed.

Lemma boundary_edge_thickness_witness :
  (layerThicknessEdge_of 3 two_edges three_thicknesses 0 0 0 == 15)%Q /\
  (layerThicknessEdge_of 3 two_edges three_thicknesses 0 1 0 == 25)%Q.
Proof.
  destruct (boundary_edge_thickness 3 two_edges three_thicknesses 0 0 0)
    as [Hin _]; [simpl; lia |].
  destruct (boundary_edge_thickness 3 two_edges three_thicknesses 0 1 0)
    as [_ Hb]; [simpl; lia |].
  split.
  - rewrite Hin by (simpl; lia). reflexivity.
  - rewrite Hb by reflexivity. reflexivity.
Defined.

(** ** Depth of the layer interfaces *)

Lemma fold_left_Qplus_acc (l : list Q) (a : Q) :
  (fold_left Qplus l a == a + fold_left Qplus l 0)%Q.
Proof.
  revert a. induction l as [| x r IH]; intros a; simpl.
  - ring.
  - rewrite (IH (a + x)%Q), (IH (0 + x)%Q). ring.
Qed.

Lemma Qsum_cons (x : Q) (xs : list Q) : (Qsum (x :: xs) == x + Qsum xs)%Q.
Proof. unfold Qsum. simpl. rewrite fold_left_Qplus_acc. ring. Qed.

(** The sum over a column that is valid down to level [m]. *)
Lemma Qsum_valid_levels (th : nat -> Q) (m n : nat) :
  (Qsum (map (fun k => if (k <? m)%nat then th k else 0) (seq 0 n))
   == Qsum (map th (seq 0 (Nat.min n m))))%Q.
Proof.
  induction n as [| n IH].
  - reflexivity.
  - rewrite seq_S, map_app. cbn [map Nat.add]. rewrite Qsum_snoc, IH.
    destruct (Nat.ltb_spec n m) as [Hlt | Hge].
    + replace (Nat.min (S n) m) with (S (Nat.min n m)) by lia.
      rewrite seq_S, map_app. cbn [map Nat.add]. rewrite Qsum_snoc.
      replace (Nat.min n m) with n by lia. reflexivity.
    + replace (Nat.min (S n) m) with (Nat.min n m) by lia. ring.
Qed.

Lemma nth_shifted {A : Type} (f : nat -> A) (n j : nat) (d : A) :
  (j <= n)%nat -> nth j (f 0%nat :: map (fun k => f (S k)) (seq 0 n)) d = f j.
Proof.
  intros Hj. destruct j as [| j]; [reflexivity |]. cbn [nth].
  apply nth_error_nth. rewrite nth_error_map, nth_error_seq.
  destruct (Nat.ltb_spec j n); [reflexivity | lia].
Qed.

(** The loop of the handler, turn by turn. *)
Lemma zhalfo_loop (cellMask3D : list (list bool))
    (layerThickness : nat -> nat -> nat -> option Q)
    (zSurface : nat -> nat -> option Q) (mask : nat -> bool) (n : nat) :
  fold_left (zhalfo_step cellMask3D layerThickness) (seq 0 n)
    ([zSurface], [mask], zSurface)
  = (zSurface :: map (fun k => zLayerBot_after cellMask3D layerThickness
                                 zSurface (S k)) (seq 0 n),
     mask :: map (fun k cell => nth cell (nth k cellMask3D []) false) (seq 0 n),
     zLayerBot_after cellMask3D layerThickness zSurface n).
Proof.
  induction n as [| n IH].
  - reflexivity.
  - rewrite seq_S, fold_left_app, IH, !map_app. reflexivity.
Qed.

(** The bottom of the layers of one column that is valid down to level
    [m]. *)
Lemma zLayerBot_after_value (cellMask3D : list (list bool))
    (layerThickness : nat -> nat -> nat -> option Q)
    (zSurface : nat -> nat -> option Q) (t cell : nat) (th : nat -> Q)
    (b s : Q) (m nV : nat) :
  (forall k, (k < nV)%nat ->
     nth cell (nth k cellMask3D []) false = (k <? m)%nat) ->
  (forall k, (k < nV)%nat ->
     layerThickness t cell k = if (k <? m)%nat then Some (th k) else None) ->
  zSurface t cell = (if (0 <? m)%nat then Some s else None) ->
  (s == - b + Qsum (map th (seq 0 m)))%Q ->
  forall j, (j <= nV)%nat ->
    if (j <=? m)%nat && (0 <? m)%nat
    then exists v,
           zLayerBot_after cellMask3D layerThickness zSurface j t cell = Some v
           /\ (v == - b + Qsum (map th (seq j (m - j))))%Q
    else zLayerBot_after cellMask3D layerThickness zSurface j t cell = None.
Proof.
  intros Hmask Hth Hs Hsum j. induction j as [| j IH]; intros Hj.
  - cbn [zLayerBot_after Nat.leb andb]. rewrite Hs.
    destruct (0 <? m)%nat; [| reflexivity].
    exists s. split; [reflexivity |]. now rewrite Nat.sub_0_r.
  - cbn [zLayerBot_after]. rewrite (Hmask j), (Hth j) by lia.
    specialize (IH ltac:(lia)).
    destruct (Nat.leb_spec (S j) m) as [Hle | Hgt].
    + destruct (Nat.ltb_spec j m) as [_ | ?]; [| lia].
      destruct (Nat.ltb_spec 0 m) as [_ | ?]; [| lia].
      destruct (Nat.leb_spec j m) as [_ | ?]; [| lia].
      cbn [andb] in *. destruct IH as (v & -> & Hv).
      exists (v - th j)%Q. split; [reflexivity |].
      rewrite Hv. replace (m - j)%nat with (S (m - S j)) by lia.
      cbn [seq map]. rewrite Qsum_cons. ring.
    + cbn [andb]. destruct (Nat.ltb_spec j m) as [? | _]; [lia | reflexivity].
Qed.

(** The handler of [zhalfo] stacks the interfaces of a column from the
    surface down.  In a cell that is valid down to level [m], with
    [1 <= m], interface [j <= m] lies at minus the bottom depth plus the
    thickness of the layers [j .. m-1] below it, so that interface [m] is
    the sea floor; the interfaces below the floor, and every interface of
    a cell without a valid level, are 0 with a [cellMask] of 0. *)
Theorem zhalfo_interfaces (dsMesh : Mesh) (bottomDepth : nat -> Q)
    (layerThickness : nat -> nat -> nat -> Q) (t cell j : nat)
    (pos : position) :
  (0 < nVertLevels dsMesh)%nat -> (cell < nCells dsMesh)%nat ->
  (j <= nVertLevels dsMesh)%nat ->
  (0 <= maxLevelCell dsMesh cell <= Z.of_nat (nVertLevels dsMesh))%Z ->
  pos "olevhalf"%string = j -> pos "Time"%string = t ->
  pos "nCells"%string = cell ->
  exists ds zhalfo cellMask v w,
    zhalfo_dataset dsMesh bottomDepth layerThickness = Ok ds /\
    ds !! "zhalfo"%string = Some zhalfo /\
    ds !! "cellMask"%string = Some cellMask /\
    data zhalfo pos = Some v /\ data cellMask pos = Some w /\
    let m := Z.to_nat (maxLevelCell dsMesh cell) in
    if (j <=? m)%nat && (0 <? m)%nat
    then (v == - bottomDepth cell
               + Qsum (map (layerThickness t cell) (seq j (m - j))))%Q
         /\ (w == 1)%Q
    else (v == 0)%Q /\ (w == 0)%Q.
Proof.
  intros HnV Hc Hj Hm Hpj Hpt Hpc.
  set (nV := nVertLevels dsMesh) in *.
  set (m3 := tabulate nV (fun k =>
               tabulate (nCells dsMesh)
                 (fun c => (Z.of_nat k <? maxLevelCell dsMesh c)%Z))).
  assert (E : get_cell_masks dsMesh
              = Ok (tabulate (nCells dsMesh)
                      (fun c => (0 <? maxLevelCell dsMesh c)%Z), m3)).
  { unfold get_cell_masks, m3, tabulate. now rewrite map_map. }
  set (m := Z.to_nat (maxLevelCell dsMesh cell)).
  assert (H3 : forall k, (k < nV)%nat ->
            nth cell (nth k m3 []) false = (k <? m)%nat).
  { intros k Hk.
    rewrite (nth_error_nth m3 k [] (nth_error_tabulate _ _ _ Hk)).
    rewrite (nth_error_nth _ cell false (nth_error_tabulate _ _ _ Hc)).
    destruct (Z.ltb_spec (Z.of_nat k) (maxLevelCell dsMesh cell)),
             (Nat.ltb_spec k m); try reflexivity; lia. }
  assert (E0 : isel_level m3 0
               = Ok (fun c => nth c (nth 0 m3 []) false)).
  { unfold isel_level.
    rewrite (nth_error_nth m3 0 [] (nth_error_tabulate _ _ _ HnV)).
    unfold m3. now rewrite (nth_error_tabulate _ _ _ HnV). }
  unfold zhalfo_dataset. rewrite E. cbn [rbind]. rewrite E0. cbn [rbind].
  fold nV. rewrite zhalfo_loop.
  set (lt := fun t0 cell0 k0 : nat =>
               if nth cell0 (nth k0 m3 []) false
               then Some (layerThickness t0 cell0 k0) else None).
  set (zS := fun t0 cell0 : nat =>
               if nth cell0 (nth 0 m3 []) false
               then Some (- bottomDepth cell0
                          + sum_skipna (tabulate nV (lt t0 cell0)))%Q
               else None).
  set (zvar := {| dims := ["olevhalf"; "Time"; "nCells"]%string;
                  data := _ |}).
  set (mask := {| mask_dims := ["olevhalf"; "nCells"]%string;
                  mask_at := _ |}).
  assert (Hmask : mask_at mask pos = ((j <=? m)%nat && (0 <? m)%nat)).
  { cbn [mask mask_at]. rewrite Hpj, Hpc.
    rewrite (nth_shifted
               (fun i c => nth c (nth (Nat.pred i) m3 []) false) nV j _ Hj).
    rewrite H3 by lia.
    destruct (Nat.ltb_spec (Nat.pred j) m), (Nat.leb_spec j m),
             (Nat.ltb_spec 0 m); cbn [andb]; try reflexivity; lia. }
  assert (Hdata : data zvar pos = zLayerBot_after m3 lt zS j t cell).
  { cbn [zvar data]. rewrite Hpj, Hpt, Hpc.
    now rewrite (nth_shifted (zLayerBot_after m3 lt zS) nV j _ Hj). }
  assert (Hsum : (- bottomDepth cell + sum_skipna (tabulate nV (lt t cell))
                  == - bottomDepth cell
                     + Qsum (map (layerThickness t cell) (seq 0 m)))%Q).
  { apply Qplus_comp; [reflexivity |].
    unfold sum_skipna, tabulate. rewrite map_map.
    rewrite (Qsum_ext _ (fun k => if (k <? m)%nat
                                  then layerThickness t cell k else 0%Q)).
    - rewrite Qsum_valid_levels. now replace (Nat.min nV m) with m by lia.
    - intros k Hk. apply in_seq in Hk. unfold lt. rewrite H3 by lia.
      destruct (k <? m)%nat; reflexivity. }
  assert (Hval := zLayerBot_after_value m3 lt zS t cell
                    (layerThickness t cell) (bottomDepth cell) _ m nV H3
                    ltac:(intros k Hk; unfold lt; now rewrite (H3 k Hk))
                    ltac:(unfold zS; now rewrite (H3 0%nat HnV))
                    Hsum j Hj).
  exists (add_mask {[ "zhalfo"%string := zvar ]} mask),
    (where_other zvar mask 0), (mask_as_float mask).
  assert (Hz : add_mask {[ "zhalfo"%string := zvar ]} mask !! "zhalfo"%string
               = Some (where_other zvar mask 0)).
  { unfold add_mask. rewrite lookup_insert_ne by discriminate.
    rewrite lookup_fmap, lookup_singleton_eq. reflexivity. }
  assert (Hcm : add_mask {[ "zhalfo"%string := zvar ]} mask
                  !! "cellMask"%string = Some (mask_as_float mask)).
  { unfold add_mask. now rewrite lookup_insert_eq. }
  cbn [where_other mask_as_float data]. rewrite Hmask, Hdata.
  destruct ((j <=? m)%nat && (0 <? m)%nat).
  - destruct Hval as (v & -> & Hv). exists v, (1 * bool_to_Q true)%Q.
    do 5 (split; [reflexivity || assumption |]).
    split; [exact Hv | reflexivity].
  - exists 0%Q, (1 * bool_to_Q false)%Q.
    do 5 (split; [reflexivity || assumption |]).
    split; reflexivity.
Qed.

Lemma zhalfo_interfaces_witness :
  exists ds zhalfo cellMask v w,
    zhalfo_dataset channel_mesh channel_bottomDepth channel_thickness = Ok ds /\
    ds !! "zhalfo"%string = Some zhalfo /\
    ds !! "cellMask"%string = Some cellMask /\
    data zhalfo (at_index origin "olevhalf" 1) = Some v /\
    data cellMask (at_index origin "olevhalf" 1) = Some w /\
    (v == - 3)%Q /\ (w == 1)%Q.
Proof.
  destruct (zhalfo_interfaces channel_mesh channel_bottomDepth
              channel_thickness 0 0 1 (at_index origin "olevhalf" 1))
    as (ds & z & c & v & w & E & Hz & Hc & Hv & Hw & H);
    [simpl; lia | simpl; lia | simpl; lia | simpl; lia
    | reflexivity | reflexivity | reflexivity |].
  exists ds, z, c, v, w. do 5 (split; [assumption |]).
  cbv zeta in H. simpl in H. destruct H as [H1 H2].
  split; [rewrite H1; reflexivity | exact H2].
Defined.
